(** * Public dashboards: query construction and template variables

    A shallow embedding of the Go service code in
    [pkg/services/publicdashboards/service/query.go] and
    [pkg/services/publicdashboards/service/query_variables.go], with the
    properties of its interpolation, query extraction, time-window and
    variable-option code stated and proved against that embedding.  The
    definitions come first, module by module; the properties follow. *)

From Stdlib Require Import ZArith Ascii String List Bool Lia Permutation.
From Stdlib Require Import DecimalString.
From Stdlib Require DecimalZ.
From stdpp Require Import gmap strings list fin_maps.

Set Warnings "-register-all".

Local Open Scope string_scope.
Local Open Scope Z_scope.

(** ** Go strings

    A Go string is a sequence of bytes; it is modelled as [string].  The
    routines below that classify or map characters are those of Go on ASCII
    text; for bytes outside ASCII Go consults the Unicode tables (in
    [strings.ToLower], [strings.TrimSpace] and the names of [expand]), which
    the model does not. *)

Module GoString.

Definition isDigit (c : ascii) : bool :=
  let n := nat_of_ascii c in (48 <=? n)%nat && (n <=? 57)%nat.

Definition isLetter (c : ascii) : bool :=
  let n := nat_of_ascii c in
  ((65 <=? n)%nat && (n <=? 90)%nat) || ((97 <=? n)%nat && (n <=? 122)%nat).

(** The class [\w] of Go's regexp syntax: [0-9A-Za-z_]. *)
Definition isWordByte (c : ascii) : bool :=
  isDigit c || isLetter c || Ascii.eqb c "_".

Definition toLowerByte (c : ascii) : ascii :=
  let n := nat_of_ascii c in
  if (65 <=? n)%nat && (n <=? 90)%nat then ascii_of_nat (n + 32) else c.

(** The text is made of ASCII bytes only. *)
Fixpoint isASCII (s : string) : bool :=
  match s with
  | EmptyString => true
  | String c r => (nat_of_ascii c <? 128)%nat && isASCII r
  end.

(** [strings.ToLower], on ASCII text ([isASCII]): the letters A to Z are
    lowered.  (Go lowers the letters outside ASCII as well.) *)
Fixpoint ToLower (s : string) : string :=
  match s with
  | EmptyString => EmptyString
  | String c r => String (toLowerByte c) (ToLower r)
  end.

(** [strings.HasPrefix s p]. *)
Fixpoint HasPrefix (s p : string) : bool :=
  match p, s with
  | EmptyString, _ => true
  | String a p', String b s' => Ascii.eqb a b && HasPrefix s' p'
  | String _ _, EmptyString => false
  end.

(** [strings.Contains s sub]. *)
Fixpoint Contains (s sub : string) : bool :=
  HasPrefix s sub ||
  match s with
  | EmptyString => false
  | String _ r => Contains r sub
  end.

(** The byte after the first [n] bytes of [s], if any. *)
Fixpoint byteAt (n : nat) (s : string) : option ascii :=
  match s, n with
  | EmptyString, _ => None
  | String c _, O => Some c
  | String _ r, S k => byteAt k r
  end.

Fixpoint lastByte (s : string) : option ascii :=
  match s with
  | EmptyString => None
  | String c EmptyString => Some c
  | String _ r => lastByte r
  end.

Fixpoint take (n : nat) (s : string) : string :=
  match n, s with
  | S k, String c r => String c (take k r)
  | _, _ => EmptyString
  end.

(** [strings.Join elems sep]. *)
Fixpoint Join (elems : list string) (sep : string) : string :=
  match elems with
  | [] => EmptyString
  | [x] => x
  | x :: rest => x +:+ sep +:+ Join rest sep
  end.

(** [strconv.FormatInt n 10], also what [fmt]'s [%v] and [%d] print for an
    integer. *)
Definition FormatInt (n : Z) : string := NilEmpty.string_of_int (Z.to_int n).

(** What [fmt]'s [%v] prints for a [bool]. *)
Definition FormatBool (b : bool) : string := if b then "true" else "false".

End GoString.

(** ** The part of Go's [regexp] package that [interpolateVariables] uses

    Both patterns the code compiles are a quoted literal, the second one
    followed by [\b].  They have no capture group, never match the empty
    string and match at a given position in at most one way. *)

Module Regexp.
Import GoString.

(** A compiled pattern: the literal it matches, and whether [\b] follows. *)
Record Pattern := { literal : string; wordBoundary : bool }.

Definition isWordAt (o : option ascii) : bool :=
  match o with Some c => isWordByte c | None => false end.

(** Does the pattern match at the start of [s]?  [\b] holds after the
    literal when exactly one of the literal's last byte and the byte that
    follows it is a word byte. *)
Definition matchesAt (p : Pattern) (s : string) : bool :=
  HasPrefix s (literal p) &&
  (if wordBoundary p
   then xorb (isWordAt (lastByte (literal p)))
             (isWordAt (byteAt (String.length (literal p)) s))
   else true).

(** [replaceAll]: the leftmost match is replaced and the search resumes in
    the source right after it; [skip] counts the source bytes of the last
    match that are still to be passed over. *)
Fixpoint replaceAll (p : Pattern) (repl : string) (skip : nat) (src : string) : string :=
  match src with
  | EmptyString => EmptyString
  | String c rest =>
      match skip with
      | S k => replaceAll p repl k rest
      | O =>
          if matchesAt p src
          then repl +:+ replaceAll p repl (String.length (literal p) - 1) rest
          else String c (replaceAll p repl 0 rest)
      end
  end.

Fixpoint nameLen (s : string) : nat :=
  match s with
  | String c r => if isWordByte c then S (nameLen r) else O
  | EmptyString => O
  end.

(** [extract]: the name at the start of a template reference ([name] or
    [{name}], the [$] already removed) and the number of bytes it takes. *)
Definition extract (str : string) : option (string * nat) :=
  match str with
  | EmptyString => None
  | String c r =>
      let brace := Ascii.eqb c "{" in
      let body := if brace then r else str in
      let i := nameLen body in
      if (i =? 0)%nat then None
      else if brace then
        match byteAt i body with
        | Some d => if Ascii.eqb d "}" then Some (take i body, (i + 2)%nat) else None
        | None => None
        end
      else Some (take i body, i)
  end.

(** The text of the group a template reference names.  Without capture
    groups only group [0], the whole match, exists; every other name or
    number stands for the empty string. *)
Definition groupText (matched name : string) : string :=
  if String.eqb name "0" then matched else EmptyString.

(** [expand]: the replacement template with its [$] references resolved.
    [$$] is a literal [$], a well-formed reference is replaced by its
    group, and a [$] that starts no reference is kept as it is. *)
Fixpoint expand (matched : string) (skip : nat) (template : string) : string :=
  match template with
  | EmptyString => EmptyString
  | String c rest =>
      match skip with
      | S k => expand matched k rest
      | O =>
          if Ascii.eqb c "$" then
            match rest with
            | String d _ =>
                if Ascii.eqb d "$" then String "$" (expand matched 1 rest)
                else
                  match extract rest with
                  | Some (name, n) => groupText matched name +:+ expand matched n rest
                  | None => String "$" (expand matched 0 rest)
                  end
            | EmptyString => String "$" EmptyString
            end
          else String c (expand matched 0 rest)
      end
  end.

(** [re.ReplaceAllString(src, repl)]. *)
Definition ReplaceAllString (p : Pattern) (src repl : string) : string :=
  replaceAll p (expand (literal p) 0 repl) 0 src.

End Regexp.

(** ** Variable values *)

(** The values of a [map[string]interface{}] of template variables, by the
    cases the code tells apart.  [VOther] is any other Go value (a
    [float64], a map, ...); the code only ever prints such a value with
    [fmt]'s [%v] verb, and [printed] is that text. *)
Inductive value :=
| VNil
| VString (s : string)
| VSlice (l : list value)
| VBool (b : bool)
| VInt (n : Z)
| VOther (printed : string).

Module Interpolation.
Import GoString Regexp.

(** [fmt.Sprintf("%v", v)] for the values the [default] arm receives. *)
Definition Sprintf_v (v : value) : string :=
  match v with
  | VBool b => FormatBool b
  | VInt n => FormatInt n
  | VOther printed => printed
  | VNil => "<nil>"
  | VString s => s
  | VSlice _ => EmptyString
  end.

(** The loop of [variableValueToString] over a multi-value variable:
    elements that are strings are appended, the others are passed over. *)
Fixpoint collectStrings (v : list value) (values : list string) : list string :=
  match v with
  | [] => values
  | VString str :: rest => collectStrings rest (values ++ [str])
  | _ :: rest => collectStrings rest values
  end.

Definition variableValueToString (varValue : value) : string :=
  match varValue with
  | VString v => v
  | VSlice v =>
      let values := collectStrings v [] in
      if (0 <? length values)%nat then Join values "," else EmptyString
  | v => Sprintf_v v
  end.

Definition bracePattern (varName : string) : Pattern :=
  {| literal := "${" +:+ varName +:+ "}"; wordBoundary := false |}.

Definition simplePattern (varName : string) : Pattern :=
  {| literal := "$" +:+ varName; wordBoundary := true |}.

(** One iteration of the loop of [interpolateVariables]. *)
Definition substituteVariable (result : string) (kv : string * value) : string :=
  let '(varName, varValue) := kv in
  match varValue with
  | VNil => result
  | _ =>
      let valueStr := variableValueToString varValue in
      let result := ReplaceAllString (bracePattern varName) result valueStr in
      ReplaceAllString (simplePattern varName) result valueStr
  end.

(** [interpolateVariables text variables], where [variables] lists the
    entries of the map in the order in which [range] yields them. *)
Definition interpolateVariables (text : string) (variables : list (string * value)) : string :=
  fold_left substituteVariable variables text.

(** Go does not fix the order in which [range] yields the entries of a
    map: every enumeration of the entries is a possible one. *)
Definition rangeOrder (m : gmap string value) (order : list (string * value)) : Prop :=
  order ≡ₚ map_to_list m.

(** The outputs [interpolateVariables] can produce on a map. *)
Definition interpolateVariablesMap (text : string) (m : gmap string value) (out : string) : Prop :=
  ∃ order, rangeOrder m order ∧ out = interpolateVariables text order.

(** The text has no [$]. *)
Fixpoint dollarFree (s : string) : bool :=
  match s with
  | EmptyString => true
  | String c r => negb (Ascii.eqb c "$") && dollarFree r
  end.

Definition isNil (v : value) : bool :=
  match v with VNil => true | _ => false end.

(** At most one variable of the map has a value other than nil. *)
Definition atMostOneValue (m : gmap string value) : Prop :=
  ∀ k1 k2 v1 v2,
    m !! k1 = Some v1 → m !! k2 = Some v2 →
    isNil v1 = false → isNil v2 = false → k1 = k2.

End Interpolation.


(** ** Dashboard documents *)

(** Modelled from the spec: package [simplejson] is not among the sources at
    hand.  A document is the tagged variant of the design notes: null,
    boolean, number, string, array, object.  An object lists its entries,
    with distinct keys; where the code ranges over a Go map, the entries are
    visited in the order of the list, which stands for the order chosen by
    [range] in the call at hand.  Numbers are the integral ones.  Documents
    are trees, as decoded JSON is: where the code edits a query in place,
    the model edits the query value. *)
Inductive json :=
| JNull
| JBool (b : bool)
| JNum (n : Z)
| JStr (s : string)
| JArr (a : list json)
| JObj (m : list (string * json)).

Module simplejson.

(** Modelled from the spec: [m[key]] on the map of an object ([simplejson]
    is not among the sources). *)
Fixpoint lookupField (key : string) (m : list (string * json)) : option json :=
  match m with
  | [] => None
  | (k, v) :: r => if String.eqb k key then Some v else lookupField key r
  end.

(** Modelled from the spec: [m[key] = val] on the map of an object
    ([simplejson] is not among the sources). *)
Fixpoint setField (key : string) (val : json) (m : list (string * json)) : list (string * json) :=
  match m with
  | [] => [(key, val)]
  | (k, v) :: r => if String.eqb k key then (k, val) :: r else (k, v) :: setField key val r
  end.

(** Modelled from the spec: [delete(m, key)] on the map of an object
    ([simplejson] is not among the sources). *)
Fixpoint delField (key : string) (m : list (string * json)) : list (string * json) :=
  match m with
  | [] => []
  | (k, v) :: r => if String.eqb k key then delField key r else (k, v) :: delField key r
  end.

(** Modelled from the spec: [simplejson]'s [CheckGet], the value under a key
    of an object and whether the key is there. *)
Definition CheckGet (j : json) (key : string) : option json :=
  match j with
  | JObj m => lookupField key m
  | _ => None
  end.

(** Modelled from the spec: [simplejson]'s [Get], the navigation by key; a
    missing key, and any key of a value that is no object, gives null. *)
Definition Get (j : json) (key : string) : json :=
  match CheckGet j key with
  | Some val => val
  | None => JNull
  end.

(** Modelled from the spec: [simplejson]'s [GetPath], [Get] along a path. *)
Definition GetPath (j : json) (branch : list string) : json :=
  fold_left Get branch j.

(** Modelled from the spec: the test [j.Interface() == nil] of existence. *)
Definition isNull (j : json) : bool :=
  match j with JNull => true | _ => false end.

(** Modelled from the spec: [simplejson]'s [Set], which acts on objects
    only. *)
Definition Set_ (j : json) (key : string) (val : json) : json :=
  match j with
  | JObj m => JObj (setField key val m)
  | _ => j
  end.

(** Modelled from the spec: [simplejson]'s [Del], which acts on objects
    only. *)
Definition Del (j : json) (key : string) : json :=
  match j with
  | JObj m => JObj (delField key m)
  | _ => j
  end.

(** Modelled from the spec: [simplejson]'s [MustArray]; a value that is no
    array gives the empty one. *)
Definition MustArray (j : json) : list json :=
  match j with JArr a => a | _ => [] end.

(** Modelled from the spec: [simplejson]'s [MustMap]. *)
Definition MustMap (j : json) : list (string * json) :=
  match j with JObj m => m | _ => [] end.

(** Modelled from the spec: [simplejson]'s [MustString]; a value that is no
    string gives the empty one. *)
Definition MustString (j : json) : string :=
  match j with JStr s => s | _ => EmptyString end.

(** Modelled from the spec: [simplejson]'s [MustBool]; a value that is no
    boolean gives false. *)
Definition MustBool (j : json) : bool :=
  match j with JBool b => b | _ => false end.

(** Modelled from the spec: [simplejson]'s [MustInt64]; a value that is no
    number gives 0, and so does a number that does not fit 64 bits. *)
Definition MustInt64 (j : json) : Z :=
  match j with
  | JNum n => if (- 2 ^ 63 <=? n) && (n <? 2 ^ 63) then n else 0
  | _ => 0
  end.

(** The nesting depth of a document. *)
Fixpoint depth (j : json) : nat :=
  match j with
  | JArr a => S (list_max (List.map depth a))
  | JObj m => S (list_max (List.map (λ kv, depth (snd kv)) m))
  | _ => O
  end.

End simplejson.

(** ** Errors and requests *)

Inductive Error :=
| ErrPanelNotFound
| ErrPanelQueriesNotFound
| ErrVariableNotFound
| ErrInternalServerError
| ErrBadRequest
| ErrExternal (msg : string).
(** [ErrExternal] is an error a collaborator returned. *)

Record TimeRangeDTO := {
  From : string;
  To : string;
  Timezone : string
}.

Record PublicDashboardQueryDTO := {
  IntervalMs : Z;
  MaxDataPoints : Z;
  QueryCachingTTL : Z;
  TimeRange : TimeRangeDTO;
  (** the entries in the order [range] yields them; [None] is the nil map *)
  Variables : option (list (string * value))
}.

Record PublicDashboard := {
  TimeSelectionEnabled : bool;
  AnnotationsEnabled : bool
}.

(** What a Go function with results [(T, error)] returns. *)
Inductive result (T : Type) :=
| Ok (val : T)
| Err (err : Error).
Arguments Ok {T} val.
Arguments Err {T} err.

Record TimeSettings := { tsFrom : string; tsTo : string }.

Record MetricRequest := {
  mrFrom : string;
  mrTo : string;
  Queries : list json
}.

(** Package [expr]: the kinds of node a datasource uid stands for. *)
Inductive NodeType := TypeCMDNode | TypeDatasourceNode | TypeMLNode.

Definition NodeType_eqb (a b : NodeType) : bool :=
  match a, b with
  | TypeCMDNode, TypeCMDNode | TypeDatasourceNode, TypeDatasourceNode
  | TypeMLNode, TypeMLNode => true
  | _, _ => false
  end.

(** What [query.go] takes from outside the sources at hand: the
    classification of datasource uids of package [expr], the time zones of
    package [time], the parsing of time expressions of [gtime], the safe
    interval and resolution computed elsewhere in the service, and whether
    the decoder behind [simplejson.NewJson] accepts the text a document was
    encoded to (it refuses, for one, a document nested deeper than its
    limit). *)
Class Collaborators := {
  NodeTypeFromDatasourceUID : string → NodeType;
  Decodes : json → bool;
  Location : Type;
  LoadLocation : string → option Location;
  UTC : Location;
  ParseFrom : string → string → Location → Z;
  ParseTo : string → string → Location → Z;
  getSafeIntervalAndMaxDataPoints : PublicDashboardQueryDTO → TimeSettings → Z * Z
}.

(** ** query.go: metric requests *)

Module Query.
Import GoString simplejson.

Section WithCollaborators.
Context `{Collaborators}.

Definition getDataSourceUidFromJson (query : json) : string :=
  let uid := MustString (Get (Get query "datasource") "uid") in
  (* before 8.3 special types could be sent as datasource (expr) *)
  if String.eqb uid "" then MustString (Get query "datasource") else uid.

Definition getDataSourceUidFromJsonSchemaV2 (query : json) : string :=
  let uid := MustString (Get (Get query "datasource") "name") in
  if String.eqb uid "" then MustString (Get query "datasource") else uid.

Definition isExpressionUID (uid : string) : bool :=
  NodeType_eqb (NodeTypeFromDatasourceUID uid) TypeCMDNode.

(** The loop of [panelHasAnExpression] over the targets. *)
Definition panelHasAnExpression (panel : json) : bool :=
  fold_left
    (λ (hasExpression : bool) (query : json),
       if isExpressionUID (getDataSourceUidFromJson query) then true else hasExpression)
    (MustArray (Get panel "targets")) false.

(** The loop of [panelHasAnExpressionSchemaV2], which stops at the first
    expression. *)
Fixpoint anyExpressionV2 (queries : list json) : bool :=
  match queries with
  | [] => false
  | query :: rest =>
      let querySpec := Get query "spec" in
      if isNull querySpec then anyExpressionV2 rest
      else
        let queryData := Get querySpec "query" in
        if isNull queryData then anyExpressionV2 rest
        else if isExpressionUID (getDataSourceUidFromJsonSchemaV2 queryData) then true
        else anyExpressionV2 rest
  end.

Definition panelHasAnExpressionSchemaV2 (panel : json) : bool :=
  let spec := Get panel "spec" in
  if isNull spec then false else
  let data := Get spec "data" in
  if isNull data then false else
  let dataSpec := Get data "spec" in
  if isNull dataSpec then false else
  let queries := Get dataSpec "queries" in
  if isNull queries then false else
  anyExpressionV2 (MustArray queries).

(** What the loop of [extractQueriesFromPanels] does to a query it keeps:
    the exemplar is deleted and a query without datasource gets the one of
    the panel. *)
Definition prepareQuery (panel query : json) : json :=
  (* We don't support exemplars for public dashboards currently *)
  let query := Del query "exemplar" in
  match CheckGet query "datasource" with
  | Some _ => query
  | None =>
      let uid := getDataSourceUidFromJson panel in
      Set_ query "datasource" (JObj [("type", JStr "public-ds"); ("uid", JStr uid)])
  end.

(** The inner loop of [extractQueriesFromPanels]: the queries of one panel. *)
Definition panelQueries (panel : json) : list json :=
  let hasExpression := panelHasAnExpression panel in
  fold_left
    (λ (panelQueries : list json) (query : json),
       if negb hasExpression && MustBool (Get query "hide")
       then panelQueries
       else (panelQueries ++ [prepareQuery panel query])%list)
    (MustArray (Get panel "targets")) [].

Definition isCollapsedRow (panel : json) : bool :=
  String.eqb (MustString (Get panel "type")) "row" && MustBool (Get panel "collapsed").

(** [extractQueriesFromPanels].  The recursion follows the nesting of the
    document; [fuel] bounds its depth. *)
Fixpoint extractQueriesFromPanels (fuel : nat) (panels : list json)
    (result : gmap Z (list json)) : gmap Z (list json) :=
  match fuel with
  | O => result
  | S fuel' =>
      fold_left
        (λ (result : gmap Z (list json)) (panel : json),
           if isCollapsedRow panel
           then extractQueriesFromPanels fuel' (MustArray (Get panel "panels")) result
           else <[MustInt64 (Get panel "id") := panelQueries panel]> result)
        panels result
  end.

Definition groupQueriesByPanelId (dashboard : json) : gmap Z (list json) :=
  extractQueriesFromPanels (depth dashboard) (MustArray (Get dashboard "panels")) ∅.

(** The body of the loop of [groupQueriesByPanelIdV2] over the queries of
    an element. *)
Definition panelQueriesV2 (hasExpression : bool) (queries : list json) : list json :=
  fold_left
    (λ (panelQueries : list json) (query : json),
       let panelQuerySpec := Get query "spec" in
       if isNull panelQuerySpec then panelQueries
       else if negb hasExpression && MustBool (Get panelQuerySpec "hidden") then panelQueries
       else
         let dataQueryKind := Get panelQuerySpec "query" in
         if isNull dataQueryKind then panelQueries
         else
           let dataQuerySpec := Get dataQueryKind "spec" in
           if isNull dataQuerySpec then panelQueries
           else
             let dataQuerySpec := Del dataQuerySpec "exemplar" in
             let group := MustString (Get dataQueryKind "group") in
             let dataQuerySpec :=
               match CheckGet dataQuerySpec "datasource" with
               | Some _ => dataQuerySpec
               | None =>
                   let uid := getDataSourceUidFromJsonSchemaV2 dataQueryKind in
                   Set_ dataQuerySpec "datasource" (JObj [("type", JStr group); ("uid", JStr uid)])
               end in
             let dataQuerySpec := Del dataQuerySpec "exemplar" in
             (panelQueries ++ [dataQuerySpec])%list)
    queries [].

Definition elementQueriesV2 (element : json) : list json :=
  let hasExpression := panelHasAnExpressionSchemaV2 element in
  let spec := Get element "spec" in
  if isNull spec then [] else
  let data := Get spec "data" in
  if isNull data then [] else
  let dataSpec := Get data "spec" in
  if isNull dataSpec then [] else
  let queries := Get dataSpec "queries" in
  if isNull queries then [] else
  panelQueriesV2 hasExpression (MustArray queries).

Definition groupQueriesByPanelIdV2 (dashboard : json) : gmap Z (list json) :=
  fold_left
    (λ (result : gmap Z (list json)) (entry : string * json),
       let element := entry.2 in
       <[MustInt64 (Get (Get element "spec") "id") := elementQueriesV2 element]> result)
    (MustMap (Get dashboard "elements")) ∅.

(** *** Time windows *)

Definition getPanelRelativeTimeRange (dashboard : json) (panelID : Z) : string :=
  (fix loop (panels : list json) : string :=
     match panels with
     | [] => EmptyString
     | panel :: rest =>
         if MustInt64 (Get panel "id") =? panelID
         then MustString (Get panel "timeFrom")
         else loop rest
     end) (MustArray (Get dashboard "panels")).

(** returns from, to and timezone from the request if the timeSelection is
    enabled or the dashboard default values *)
Definition getTimeRangeValuesOrDefault (reqDTO : PublicDashboardQueryDTO) (d : json)
    (timeSelectionEnabled : bool) (panelID : Z) : string * string * Location :=
  let from := MustString (GetPath d ["time"; "from"]) in
  let to := MustString (GetPath d ["time"; "to"]) in
  let dashboardTimezone := MustString (GetPath d ["timezone"]) in
  let panelRelativeTime := getPanelRelativeTimeRange d panelID in
  let from := if negb (String.eqb panelRelativeTime "") then panelRelativeTime else from in
  (* we use the values from the request if the time selection is enabled
     and the values are valid *)
  let '(from, to) :=
    if timeSelectionEnabled
       && negb (String.eqb (From (TimeRange reqDTO)) "")
       && negb (String.eqb (To (TimeRange reqDTO)) "")
    then (From (TimeRange reqDTO), To (TimeRange reqDTO))
    else (from, to) in
  let userTimezone :=
    if timeSelectionEnabled && negb (String.eqb (Timezone (TimeRange reqDTO)) "")
    then LoadLocation (Timezone (TimeRange reqDTO))
    else None in
  match userTimezone with
  | Some userTimezone => (from, to, userTimezone)
  | None =>
      (* if the dashboardTimezone is blank or there is an error default is UTC *)
      match LoadLocation dashboardTimezone with
      | None => (from, to, UTC)
      | Some timezone => (from, to, timezone)
      end
  end.

Definition buildTimeSettings (d : json) (reqDTO : PublicDashboardQueryDTO)
    (timeSelectionEnabled : bool) (panelID : Z) : TimeSettings :=
  let '(from, to, timezone) := getTimeRangeValuesOrDefault reqDTO d timeSelectionEnabled panelID in
  {| tsFrom := FormatInt (ParseFrom from to timezone);
     tsTo := FormatInt (ParseTo from to timezone) |}.

Definition getPanelRelativeTimeRangeV2 (dashboard : json) (panelID : Z) : string :=
  let elements := Get dashboard "elements" in
  if isNull elements then EmptyString else
  (fix loop (elementsMap : list (string * json)) : string :=
     match elementsMap with
     | [] => EmptyString
     | (_, element) :: rest =>
         if negb (MustInt64 (Get (Get element "spec") "id") =? panelID) then loop rest
         else
           let spec := Get element "spec" in
           if isNull spec then EmptyString else
           let data := Get spec "data" in
           if isNull data then EmptyString else
           let dataSpec := Get data "spec" in
           if isNull dataSpec then EmptyString else
           let queryOptions := Get dataSpec "queryOptions" in
           if isNull queryOptions then EmptyString else
           let timeFrom := Get queryOptions "timeFrom" in
           if negb (isNull timeFrom) then MustString timeFrom else EmptyString
     end) (MustMap elements).

Definition getTimeRangeValuesOrDefaultV2 (d : json) (reqDTO : PublicDashboardQueryDTO)
    (timeSelectionEnabled : bool) (panelID : Z) : string * string * Location :=
  let timeSettings := Get d "timeSettings" in
  let from := MustString (Get timeSettings "from") in
  let to := MustString (Get timeSettings "to") in
  let dashboardTimezone := MustString (Get timeSettings "timezone") in
  let panelRelativeTime := getPanelRelativeTimeRangeV2 d panelID in
  let from := if negb (String.eqb panelRelativeTime "") then panelRelativeTime else from in
  let '(from, to) :=
    if timeSelectionEnabled
       && negb (String.eqb (From (TimeRange reqDTO)) "")
       && negb (String.eqb (To (TimeRange reqDTO)) "")
    then (From (TimeRange reqDTO), To (TimeRange reqDTO))
    else (from, to) in
  let userTimezone :=
    if timeSelectionEnabled && negb (String.eqb (Timezone (TimeRange reqDTO)) "")
    then LoadLocation (Timezone (TimeRange reqDTO))
    else None in
  match userTimezone with
  | Some userTimezone => (from, to, userTimezone)
  | None =>
      match LoadLocation dashboardTimezone with
      | None => (from, to, UTC)
      | Some timezone => (from, to, timezone)
      end
  end.

Definition buildTimeSettingsV2 (d : json) (reqDTO : PublicDashboardQueryDTO)
    (timeSelectionEnabled : bool) (panelID : Z) : TimeSettings :=
  let '(from, to, timezone) := getTimeRangeValuesOrDefaultV2 d reqDTO timeSelectionEnabled panelID in
  {| tsFrom := FormatInt (ParseFrom from to timezone);
     tsTo := FormatInt (ParseTo from to timezone) |}.

(** *** The metric request of a panel *)

Definition setRequestFields (safeInterval safeResolution : Z) (reqDTO : PublicDashboardQueryDTO)
    (query : json) : json :=
  let query := Set_ query "intervalMs" (JNum safeInterval) in
  let query := Set_ query "maxDataPoints" (JNum safeResolution) in
  Set_ query "queryCachingTTL" (JNum (QueryCachingTTL reqDTO)).

Definition buildMetricRequestV2 (dashboard : json) (publicDashboard : PublicDashboard)
    (panelID : Z) (reqDTO : PublicDashboardQueryDTO) : result MetricRequest :=
  (* group queries by panel for V2 *)
  let queriesByPanel := groupQueriesByPanelIdV2 dashboard in
  match queriesByPanel !! panelID with
  | None => Err ErrPanelNotFound
  | Some queries =>
      let ts := buildTimeSettingsV2 dashboard reqDTO (TimeSelectionEnabled publicDashboard) panelID in
      (* determine safe resolution to query data at *)
      let '(safeInterval, safeResolution) := getSafeIntervalAndMaxDataPoints reqDTO ts in
      Ok {| mrFrom := tsFrom ts; mrTo := tsTo ts;
            Queries := List.map (setRequestFields safeInterval safeResolution reqDTO) queries |}
  end.

(** buildMetricRequest merges public dashboard parameters with dashboard and
    returns a metrics request to be sent to query backend *)
Definition buildMetricRequest (dashboard : json) (publicDashboard : PublicDashboard)
    (panelID : Z) (reqDTO : PublicDashboardQueryDTO) : result MetricRequest :=
  let isV2 := negb (isNull (Get dashboard "elements")) in
  if isV2 then buildMetricRequestV2 dashboard publicDashboard panelID reqDTO
  else
    (* group queries by panel *)
    let queriesByPanel := groupQueriesByPanelId dashboard in
    match queriesByPanel !! panelID with
    | None => Err ErrPanelNotFound
    | Some queries =>
        let ts := buildTimeSettings dashboard reqDTO (TimeSelectionEnabled publicDashboard) panelID in
        let '(safeInterval, safeResolution) := getSafeIntervalAndMaxDataPoints reqDTO ts in
        Ok {| mrFrom := tsFrom ts; mrTo := tsTo ts;
              Queries := List.map (setRequestFields safeInterval safeResolution reqDTO) queries |}
    end.

(** *** Notions the properties are stated with *)

(** The fuel reaches below every panel of the list. *)
Definition enough (fuel : nat) (panels : list json) : Prop :=
  ∀ panel, In panel panels → (depth panel < fuel)%nat.

(** The panels whose queries are extracted: those of the list that are no
    collapsed row, and those reached through the collapsed rows. *)
Inductive visited : list json → json → Prop :=
| visited_here panels panel :
    In panel panels → isCollapsedRow panel = false → visited panels panel
| visited_nested panels row panel :
    In row panels → isCollapsedRow row = true →
    visited (MustArray (Get row "panels")) panel → visited panels panel.

(** The rule for dropping a query in the words of the specification: the
    query's own hide flag is true and no query among the targets of its
    panel is an expression. *)
Definition queryDropped (panel query : json) : bool :=
  MustBool (Get query "hide")
  && negb (existsb (λ q, isExpressionUID (getDataSourceUidFromJson q))
                   (MustArray (Get panel "targets"))).

(** The query has no exemplar field. *)
Definition noExemplar (query : json) : Prop := CheckGet query "exemplar" = None.

End WithCollaborators.
End Query.

(** Collaborators to run the definitions on: the expression datasource is
    known by the uids [__expr__] and [-100], the decoder accepts a document
    nested no deeper than 10000 levels, a time zone by its name, [UTC] and
    the blank name load, and a time expression made of digits is that many
    milliseconds. *)
Definition sampleCollaborators : Collaborators := {|
  NodeTypeFromDatasourceUID uid :=
    if String.eqb uid "__expr__" || String.eqb uid "-100" then TypeCMDNode
    else TypeDatasourceNode;
  Decodes document := Z.of_nat (simplejson.depth document) <=? 10000;
  Location := string;
  LoadLocation name :=
    if String.eqb name "" || String.eqb name "UTC" then Some "UTC"
    else if String.eqb name "Europe/Helsinki" then Some name
    else None;
  UTC := "UTC";
  ParseFrom from _ _ := 0;
  ParseTo _ to _ := 0;
  getSafeIntervalAndMaxDataPoints reqDTO _ := (IntervalMs reqDTO, MaxDataPoints reqDTO)
|}.

(** ** query_variables.go: the options of a template variable *)

(** A Go slice: [None] is the nil slice, [Some l] a slice with the elements
    [l].  Both have a length, and [append] to either gives a slice that is
    not nil. *)
Module Slice.

Definition slice (T : Type) : Type := option (list T).

Definition elems {T} (s : slice T) : list T :=
  match s with Some l => l | None => [] end.

Definition len {T} (s : slice T) : nat := length (elems s).

Definition append {T} (s : slice T) (x : T) : slice T := Some (elems s ++ [x])%list.

Definition isNilSlice {T} (s : slice T) : bool :=
  match s with None => true | Some _ => false end.

End Slice.

Record MetricFindValue := { mfText : string; mfValue : string }.

Record PublicDashboardVariableQueryDTO := {
  (** the entries in the order [range] yields them; [None] is the nil map *)
  vqVariables : option (list (string * value));
  SearchFilter : string
}.

Record Dashboard := {
  OrgID : Z;
  Data : json
}.

(** variableDefinition represents a template variable from the dashboard
    JSON.  A field of type [interface{}] holds the decoded document. *)
Record variableOption := {
  optText : json;
  optValue : json;
  optSelected : bool
}.

Record variableCurrent := {
  curText : json;
  curValue : json
}.

Record variableDefinition := {
  vName : string;
  vType : string;
  vQuery : json;
  vDatasource : option (list (string * json));
  vOptions : list variableOption;
  vCurrent : variableCurrent;
  vMulti : bool;
  vRefresh : Z;
  vRegex : string;
  vSort : Z
}.

(** The result of a query execution, of the plugin SDK: per reference id,
    listed in the order [range] visits them, an error or frames; a frame has
    fields, a field a name and a column of values.  Frames and fields are
    held by pointer and can be nil. *)
Inductive FieldValue :=
| FNil
| FString (s : string)
| FStringPtr (p : option string)
| FInt (n : Z)
| FIntPtr (p : option Z)
| FBool (b : bool)
| FBoolPtr (p : option bool)
| FFloat (printed : string)
| FFloatPtr (p : option string)
| FOther (printed : string).
(** A float and a value of any other type stand for the text that [fmt]'s
    [%v] prints for them. *)

Record Field := { fName : string; fValues : list FieldValue }.
Record Frame := { Fields : list (option Field) }.
Record DataResponse := { Error_ : option string; Frames : list (option Frame) }.
Record QueryDataResponse := { Responses : list (string * DataResponse) }.

(** What [query_variables.go] takes from outside the sources at hand: the
    lookup of a public dashboard by access token, the execution of queries,
    and what [fmt]'s [%v] prints for a decoded number, array or map. *)
Class Services := {
  FindEnabledPublicDashboardAndDashboardByAccessToken :
    string → result (PublicDashboard * Dashboard);
  QueryData : Z → bool → MetricRequest → result QueryDataResponse;
  printValue : json → string
}.

Module Variables.
Import GoString simplejson Slice Interpolation.

(** *** Go's [strings] package, on ASCII *)

Definition isSpace (c : ascii) : bool :=
  let n := nat_of_ascii c in ((9 <=? n)%nat && (n <=? 13)%nat) || (n =? 32)%nat.

Fixpoint trimLeft (s : string) : string :=
  match s with
  | String c r => if isSpace c then trimLeft r else s
  | EmptyString => EmptyString
  end.

Fixpoint trimRight (s : string) : string :=
  match s with
  | EmptyString => EmptyString
  | String c r =>
      match trimRight r with
      | EmptyString => if isSpace c then EmptyString else String c EmptyString
      | r' => String c r'
      end
  end.

(** [strings.TrimSpace], on ASCII text ([isASCII]): the white space of
    ASCII is trimmed.  (Go trims the white space outside ASCII as well.) *)
Definition TrimSpace (s : string) : string := trimRight (trimLeft s).

(** [strings.Split s sep] for a separator of one byte: [cur] is the piece
    being read, in reverse. *)
Fixpoint splitByte (sep : ascii) (s : string) (cur : string) : list string :=
  match s with
  | EmptyString => [cur]
  | String c r =>
      if Ascii.eqb c sep then cur :: splitByte sep r EmptyString
      else splitByte sep r (cur +:+ String c EmptyString)
  end.

Definition Split (s : string) (sep : ascii) : list string := splitByte sep s EmptyString.

(** [strings.SplitN s sep 2] for a separator of one byte. *)
Fixpoint SplitN2 (s : string) (sep : ascii) (cur : string) : list string :=
  match s with
  | EmptyString => [cur]
  | String c r =>
      if Ascii.eqb c sep then [cur; r]
      else SplitN2 r sep (cur +:+ String c EmptyString)
  end.

Section WithServices.
Context `{Services}.

(** [fmt.Sprintf("%v", v)] of a decoded value. *)
Definition SprintfValue (v : json) : string :=
  match v with
  | JStr s => s
  | JBool b => FormatBool b
  | JNull => "<nil>"
  | _ => printValue v
  end.

(** *** Decoding a variable definition

    [json.Unmarshal] into [variableDefinition], for documents that spell the
    keys as the struct tags do ([VariableNotions.spelledAsTags]): a null or
    missing key leaves the zero value, a value of the wrong kind is an
    error.  (The decoder also takes a key that matches a tag only when case
    is ignored; such keys are not read here.) *)

Definition decodeString (j : json) : option string :=
  match j with JStr s => Some s | JNull => Some EmptyString | _ => None end.

Definition decodeBool (j : json) : option bool :=
  match j with JBool b => Some b | JNull => Some false | _ => None end.

Definition decodeInt (j : json) : option Z :=
  match j with
  | JNum n => if (- 2 ^ 63 <=? n) && (n <? 2 ^ 63) then Some n else None
  | JNull => Some 0
  | _ => None
  end.

Definition decodeMap (j : json) : option (option (list (string * json))) :=
  match j with JObj m => Some (Some m) | JNull => Some None | _ => None end.

Definition decodeOption (j : json) : option variableOption :=
  match j with
  | JObj _ =>
      selected ← decodeBool (Get j "selected");
      Some {| optText := Get j "text"; optValue := Get j "value"; optSelected := selected |}
  | JNull => Some {| optText := JNull; optValue := JNull; optSelected := false |}
  | _ => None
  end.

Definition decodeOptions (j : json) : option (list variableOption) :=
  match j with
  | JArr a => mapM decodeOption a
  | JNull => Some []
  | _ => None
  end.

Definition decodeCurrent (j : json) : option variableCurrent :=
  match j with
  | JObj _ => Some {| curText := Get j "text"; curValue := Get j "value" |}
  | JNull => Some {| curText := JNull; curValue := JNull |}
  | _ => None
  end.

Definition decodeVariable (varJSON : json) : option variableDefinition :=
  name ← decodeString (Get varJSON "name");
  type ← decodeString (Get varJSON "type");
  datasource ← decodeMap (Get varJSON "datasource");
  options ← decodeOptions (Get varJSON "options");
  current ← decodeCurrent (Get varJSON "current");
  multi ← decodeBool (Get varJSON "multi");
  refresh ← decodeInt (Get varJSON "refresh");
  regex ← decodeString (Get varJSON "regex");
  sort ← decodeInt (Get varJSON "sort");
  Some {| vName := name; vType := type; vQuery := Get varJSON "query";
          vDatasource := datasource; vOptions := options; vCurrent := current;
          vMulti := multi; vRefresh := refresh; vRegex := regex; vSort := sort |}.

(** findVariableInDashboard finds a variable definition in the dashboard's
    templating.list *)
Definition findVariableInDashboard (dashboard : Dashboard) (variableName : string)
    : result variableDefinition :=
  let templating := Get (Data dashboard) "templating" in
  if isNull templating then Err ErrVariableNotFound else
  let list_ := Get templating "list" in
  if isNull list_ then Err ErrVariableNotFound else
  (fix loop (vars : list json) : result variableDefinition :=
     match vars with
     | [] => Err ErrVariableNotFound
     | varJSON :: rest =>
         let name := MustString (Get varJSON "name") in
         if String.eqb name variableName then
           match decodeVariable varJSON with
           | Some variable => Ok variable
           | None => Err ErrInternalServerError
           end
         else loop rest
     end) (MustArray list_).

(** getCurrentValueAsOption returns the variable's current value as a single
    option *)
Definition getCurrentValueAsOption (variable : variableDefinition) : slice MetricFindValue :=
  match curValue (vCurrent variable) with
  | JNull => Some []
  | JStr v =>
      if negb (String.eqb v "") then
        let text :=
          match curText (vCurrent variable) with
          | JStr t => if negb (String.eqb t "") then t else v
          | _ => v
          end in
        append None {| mfText := text; mfValue := v |}
      else None
  | JArr v =>
      let texts := match curText (vCurrent variable) with JArr t => Some t | _ => None end in
      (fix loop (i : nat) (v : list json) (options : slice MetricFindValue)
         : slice MetricFindValue :=
         match v with
         | [] => options
         | val :: rest =>
             match val with
             | JStr valStr =>
                 if negb (String.eqb valStr "") then
                   let text :=
                     match texts with
                     | Some texts =>
                         match nth_error texts i with
                         | Some (JStr t) => t
                         | _ => valStr
                         end
                     | None => valStr
                     end in
                   loop (S i) rest (append options {| mfText := text; mfValue := valStr |})
                 else loop (S i) rest options
             | _ => loop (S i) rest options
             end
         end) O v None
  | _ => None
  end.

(** The cell of a column as text. *)
Definition fieldValueToString (v : FieldValue) : string :=
  match v with
  | FNil => EmptyString
  | FStringPtr None | FFloatPtr None | FIntPtr None | FBoolPtr None => EmptyString
  | FStringPtr (Some val) | FString val => val
  | FFloatPtr (Some printed) | FFloat printed => printed
  | FIntPtr (Some val) | FInt val => FormatInt val
  | FBoolPtr (Some val) | FBool val => FormatBool val
  | FOther printed => printed
  end.

Definition isTextName (name : string) : bool :=
  String.eqb name "text" || String.eqb name "__text" || String.eqb name "name"
  || String.eqb name "label".

Definition isValueName (name : string) : bool :=
  String.eqb name "value" || String.eqb name "__value" || String.eqb name "id".

(** The search for the text and the value column of a frame: the last field
    with a fitting name wins; else the first field serves. *)
Definition findFields (fields : list (option Field)) : option Field * option Field :=
  let '(textField, valueField) :=
    fold_left
      (λ (acc : option Field * option Field) (field : option Field),
         match field with
         | None => acc
         | Some f =>
             let name := ToLower (fName f) in
             let textField := if isTextName name then Some f else acc.1 in
             let valueField := if isValueName name then Some f else acc.2 in
             (textField, valueField)
         end)
      fields (None, None) in
  match fields with
  | Some first :: _ =>
      let textField := match textField with None => Some first | _ => textField end in
      let valueField := match valueField with None => textField | _ => valueField end in
      (textField, valueField)
  | _ => (textField, valueField)
  end.

Definition frameOptions (frame : Frame) (options : list MetricFindValue) : list MetricFindValue :=
  match findFields (Fields frame) with
  | (None, _) => options
  | (Some textField, valueField) =>
      (fix loop (i : nat) (cells : list FieldValue) (options : list MetricFindValue) :=
         match cells with
         | [] => options
         | cell :: rest =>
             let text := fieldValueToString cell in
             let value :=
               match valueField with
               | Some vf =>
                   match nth_error (fValues vf) i with
                   | Some c => fieldValueToString c
                   | None => text
                   end
               | None => text
               end in
             if negb (String.eqb text "")
             then loop (S i) rest (options ++ [{| mfText := text; mfValue := value |}])%list
             else loop (S i) rest options
         end) O (fValues textField) options
  end.

(** extractOptionsFromQueryResponse extracts MetricFindValue options from a
    query response *)
Definition extractOptionsFromQueryResponse (res : QueryDataResponse)
    : slice MetricFindValue * option Error :=
  let options :=
    fold_left
      (λ (options : list MetricFindValue) (entry : string * DataResponse),
         let response := entry.2 in
         match Error_ response with
         | Some _ => options
         | None =>
             fold_left
               (λ (options : list MetricFindValue) (frame : option Frame),
                  match frame with
                  | None => options
                  | Some frame => frameOptions frame options
                  end)
               (Frames response) options
         end)
      (Responses res) [] in
  (Some options, None).

Definition datasourceField (variable : variableDefinition) (key : string) : string :=
  match vDatasource variable with
  | Some m =>
      match lookupField key m with
      | Some (JStr s) => s
      | _ => EmptyString
      end
  | None => EmptyString
  end.

(** The metric request [getQueryVariableOptions] builds for the query of a
    variable. *)
Definition variableMetricRequest (variable : variableDefinition)
    (reqDTO : PublicDashboardVariableQueryDTO) : MetricRequest :=
  (* Get the query from the variable - preserve the full query object for
     datasources that need it *)
  let '(queryObj, queryStr) :=
    match vQuery variable with
    | JStr q => ([("query", JStr q)], q)
    | JObj q =>
        (q, match lookupField "query" q with Some (JStr query) => query | _ => EmptyString end)
    | _ => ([], EmptyString)
    end in
  (* Apply variable interpolation to the query if other variables are provided *)
  let '(queryObj, queryStr) :=
    match vqVariables reqDTO with
    | Some variables =>
        if negb (String.eqb queryStr "") then
          let queryStr := interpolateVariables queryStr variables in
          (setField "query" (JStr queryStr) queryObj, queryStr)
        else (queryObj, queryStr)
    | None => (queryObj, queryStr)
    end in
  (* Build the query object with all necessary fields *)
  let queryData :=
    [("refId", JStr "A");
     ("datasource", match vDatasource variable with Some m => JObj m | None => JNull end)] in
  (* Copy all fields from the original query object *)
  let queryData := fold_left (λ qd kv, setField kv.1 kv.2 qd) queryObj queryData in
  (* Also set common query fields that different datasources might use *)
  let queryData :=
    if negb (String.eqb queryStr "") then
      setField "rawSql" (JStr queryStr)
        (setField "rawQuery" (JBool true)
           (setField "expr" (JStr queryStr)
              (setField "query" (JStr queryStr) queryData)))
    else queryData in
  {| mrFrom := "now-1h"; mrTo := "now"; Queries := [JObj queryData] |}.

(** getQueryVariableOptions executes a datasource query to get variable
    options *)
Definition getQueryVariableOptions (dashboard : Dashboard) (publicDashboard : PublicDashboard)
    (variable : variableDefinition) (reqDTO : PublicDashboardVariableQueryDTO)
    : slice MetricFindValue * option Error :=
  let dsUID := datasourceField variable "uid" in
  if String.eqb dsUID "" then
    (* If no datasource specified, return empty options *)
    (Some [], None)
  else
    let metricReq := variableMetricRequest variable reqDTO in
    (* Execute the query *)
    match QueryData (OrgID dashboard) false metricReq with
    | Err _ => (Some [], None)
    | Ok res => extractOptionsFromQueryResponse res
    end.

(** getCustomVariableOptions parses the query field as comma-separated
    values *)
Definition getCustomVariableOptions (variable : variableDefinition)
    : slice MetricFindValue * option Error :=
  match vQuery variable with
  | JStr queryStr =>
      let values := Split queryStr "," in
      (fold_left
         (λ (options : slice MetricFindValue) (v : string),
            let v := TrimSpace v in
            if negb (String.eqb v "") then
              match SplitN2 v ":" EmptyString with
              | [text; val] =>
                  append options {| mfText := TrimSpace text; mfValue := TrimSpace val |}
              | _ => append options {| mfText := v; mfValue := v |}
              end
            else options)
         values None, None)
  | _ => (None, None)
  end.

Definition firstOrEmpty (v : list json) : string :=
  match v with
  | first :: _ => SprintfValue first
  | [] => EmptyString
  end.

(** getConstantVariableOptions returns the constant value as a single
    option *)
Definition getConstantVariableOptions (variable : variableDefinition)
    : slice MetricFindValue * option Error :=
  let value :=
    match curValue (vCurrent variable) with
    | JStr v => v
    | JArr v => firstOrEmpty v
    | _ => EmptyString
    end in
  if negb (String.eqb value "") then
    let text :=
      match curText (vCurrent variable) with
      | JStr t => if negb (String.eqb t "") then t else value
      | _ => value
      end in
    (append None {| mfText := text; mfValue := value |}, None)
  else (None, None).

(** getStaticVariableOptions returns existing options from the variable
    definition *)
Definition getStaticVariableOptions (variable : variableDefinition)
    : slice MetricFindValue * option Error :=
  (fold_left
     (λ (options : slice MetricFindValue) (opt : variableOption),
        let text :=
          match optText opt with
          | JStr t => t
          | JArr t => firstOrEmpty t
          | _ => EmptyString
          end in
        let value :=
          match optValue opt with
          | JStr v => v
          | JArr v => firstOrEmpty v
          | _ => EmptyString
          end in
        if negb (String.eqb text "") || negb (String.eqb value "") then
          let text := if String.eqb text "" then value else text in
          let value := if String.eqb value "" then text else value in
          append options {| mfText := text; mfValue := value |}
        else options)
     (vOptions variable) None, None).

Definition defaultIntervals : list string :=
  ["1m"; "5m"; "10m"; "30m"; "1h"; "6h"; "12h"; "1d"; "7d"; "14d"; "30d"].

(** getIntervalVariableOptions returns pre-defined interval options *)
Definition getIntervalVariableOptions (variable : variableDefinition)
    : slice MetricFindValue * option Error :=
  if (0 <? length (vOptions variable))%nat then getStaticVariableOptions variable
  else
    (fold_left
       (λ (options : slice MetricFindValue) (interval : string),
          append options {| mfText := interval; mfValue := interval |})
       defaultIntervals None, None).

(** getVariableOptions returns options based on the variable type *)
Definition getVariableOptions (dashboard : Dashboard) (publicDashboard : PublicDashboard)
    (variable : variableDefinition) (reqDTO : PublicDashboardVariableQueryDTO)
    : slice MetricFindValue * option Error :=
  let '(options, err) :=
    if String.eqb (vType variable) "query"
    then getQueryVariableOptions dashboard publicDashboard variable reqDTO
    else if String.eqb (vType variable) "custom" then getCustomVariableOptions variable
    else if String.eqb (vType variable) "constant" then getConstantVariableOptions variable
    else if String.eqb (vType variable) "interval" then getIntervalVariableOptions variable
    else
      (* For unsupported types, return existing options if available *)
      getStaticVariableOptions variable in
  match err with
  | Some err => (Some [], Some err)
  | None =>
      (* If no options found, try to return the current value as a fallback *)
      let options := if (len options =? 0)%nat then getCurrentValueAsOption variable else options in
      (* Ensure we never return nil (which marshals to null in JSON) *)
      let options := if isNilSlice options then Some [] else options in
      (options, None)
  end.

(** filterVariableOptions filters options by a search filter *)
Definition filterVariableOptions (options : slice MetricFindValue) (filter : string)
    : slice MetricFindValue :=
  let filter := ToLower filter in
  fold_left
    (λ (filtered : slice MetricFindValue) (opt : MetricFindValue),
       if Contains (ToLower (mfText opt)) filter || Contains (ToLower (mfValue opt)) filter
       then append filtered opt
       else filtered)
    (elems options) None.

(** The test of the filter on one option. *)
Definition optionMatches (filter : string) (opt : MetricFindValue) : bool :=
  Contains (ToLower (mfText opt)) (ToLower filter)
  || Contains (ToLower (mfValue opt)) (ToLower filter).

(** GetVariableQueryResponse returns the options for a template variable in
    a public dashboard *)
Definition GetVariableQueryResponse (accessToken : string) (variableName : string)
    (reqDTO : PublicDashboardVariableQueryDTO) : slice MetricFindValue * option Error :=
  (* Find the public dashboard and dashboard by access token *)
  match FindEnabledPublicDashboardAndDashboardByAccessToken accessToken with
  | Err err => (None, Some err)
  | Ok (publicDashboard, dashboard) =>
      (* Find the variable definition in the dashboard *)
      match findVariableInDashboard dashboard variableName with
      | Err err => (None, Some err)
      | Ok variable =>
          (* Get variable options based on variable type *)
          match getVariableOptions dashboard publicDashboard variable reqDTO with
          | (_, Some err) => (None, Some err)
          | (options, None) =>
              (* Apply search filter if provided *)
              let options :=
                if negb (String.eqb (SearchFilter reqDTO) "")
                then filterVariableOptions options (SearchFilter reqDTO)
                else options in
              (options, None)
          end
      end
  end.

End WithServices.
End Variables.

(** ** query.go: interpolation of a dashboard, in place

    [applyTemplateVariables] copies the document of a dashboard and rewrites
    the copy in place.  Maps and slices are references in Go, so this part
    of the code is modelled over a store: an array or an object of a document
    is a cell of the store, and a value refers to it by its location.  A
    [*simplejson.Json] is a box around a value that the code at hand never
    reassigns; it is identified with that value. *)

Module Store.
Import GoString simplejson Interpolation.

Definition loc := positive.

Inductive val :=
| RNull
| RBool (b : bool)
| RNum (n : Z)
| RStr (s : string)
| RArr (l : loc)
| RMap (l : loc).

(** [dashboards.Dashboard], as far as the code at hand reads it. *)
Record DashboardStruct := {
  dID : Z;
  dUID : string;
  dTitle : string;
  dData : val;
  dOrgID : Z
}.

Inductive cell :=
| CArr (a : list val)
| CMap (m : list (string * val))
| CDashboard (d : DashboardStruct).

Abbreviation store := (gmap loc cell).

(** *** simplejson over the store

    [GetIn], [SetIn], [SetIndex], [isNullVal] and [MustStringVal] are [Get],
    [Set], [SetIndex], the test [Interface() == nil] and [MustString]. *)

Fixpoint lookupKey (key : string) (m : list (string * val)) : option val :=
  match m with
  | [] => None
  | (k, v) :: r => if String.eqb k key then Some v else lookupKey key r
  end.

Fixpoint setKey (key : string) (v : val) (m : list (string * val)) : list (string * val) :=
  match m with
  | [] => [(key, v)]
  | (k, x) :: r => if String.eqb k key then (k, v) :: r else (k, x) :: setKey key v r
  end.

Definition GetIn (h : store) (j : val) (key : string) : val :=
  match j with
  | RMap l =>
      match h !! l with
      | Some (CMap m) => match lookupKey key m with Some v => v | None => RNull end
      | _ => RNull
      end
  | _ => RNull
  end.

Definition SetIn (h : store) (j : val) (key : string) (v : val) : store :=
  match j with
  | RMap l =>
      match h !! l with
      | Some (CMap m) => <[l := CMap (setKey key v m)]> h
      | _ => h
      end
  | _ => h
  end.

(** [a[index] = val] when the index is within the array *)
Definition SetIndex (h : store) (j : val) (index : nat) (v : val) : store :=
  match j with
  | RArr l =>
      match h !! l with
      | Some (CArr a) =>
          if (index <? length a)%nat then <[l := CArr (<[index := v]> a)]> h else h
      | _ => h
      end
  | _ => h
  end.

Definition isNullVal (v : val) : bool :=
  match v with RNull => true | _ => false end.

Definition MustStringVal (v : val) : string :=
  match v with RStr s => s | _ => EmptyString end.

(** The slice [MustArray] returns shares its backing array with the
    document: its length is taken once, its elements are read when the loop
    reaches them. *)
Definition arrayLen (h : store) (j : val) : nat :=
  match j with
  | RArr l => match h !! l with Some (CArr a) => length a | _ => O end
  | _ => O
  end.

Definition arrayAt (h : store) (j : val) (i : nat) : val :=
  match j with
  | RArr l =>
      match h !! l with
      | Some (CArr a) => match a !! i with Some v => v | None => RNull end
      | _ => RNull
      end
  | _ => RNull
  end.

(** [for i, x := range j.MustArray() { body }] *)
Definition rangeArray (j : val) (body : nat → val → store → store) (h : store) : store :=
  fold_left (λ h i, body i (arrayAt h j i) h) (seq 0 (arrayLen h j)) h.

Definition mapKeys (h : store) (j : val) : list string :=
  match j with
  | RMap l => match h !! l with Some (CMap m) => m.*1 | _ => [] end
  | _ => []
  end.

(** [for k, x := range j.MustMap() { body }]: the keys present when the loop
    starts are visited, in the order of the cell, each with the value it has
    when the loop reaches it. *)
Definition rangeMap (j : val) (body : string → val → store → store) (h : store) : store :=
  fold_left (λ h k, body k (GetIn h j k) h) (mapKeys h j) h.

(** *** Encoding and decoding: the deep copy *)

(** [Encode]: the document a value stands for.  Following references, the
    encoder gives up on a cycle; a path without a cycle is no longer than
    the number of cells, so the fuel of [Encode] is enough for every
    document that encodes ([Encode_complete]). *)
Fixpoint encodeWith (fuel : nat) (h : store) (v : val) : option json :=
  match v with
  | RNull => Some JNull
  | RBool b => Some (JBool b)
  | RNum n => Some (JNum n)
  | RStr s => Some (JStr s)
  | RArr l =>
      match fuel with
      | O => None
      | S fuel' =>
          match h !! l with
          | Some (CArr a) => JArr <$> mapM (encodeWith fuel' h) a
          | _ => None
          end
      end
  | RMap l =>
      match fuel with
      | O => None
      | S fuel' =>
          match h !! l with
          | Some (CMap m) =>
              JObj <$> mapM (λ kv : string * val, pair kv.1 <$> encodeWith fuel' h kv.2) m
          | _ => None
          end
      end
  end.

Definition Encode (h : store) (v : val) : option json := encodeWith (S (size h)) h v.

(** Allocation of the members of an array or object, one after the other. *)
Fixpoint allocEach {A} (allocOne : A → store → val * store) (a : list A) (h : store)
    : list val * store :=
  match a with
  | [] => ([], h)
  | x :: rest =>
      let '(v, h) := allocOne x h in
      let '(vs, h) := allocEach allocOne rest h in
      (v :: vs, h)
  end.

(** [simplejson.NewJson], for a text the decoder accepts: the document is
    built from new maps and slices.  (The error it returns for a text the
    decoder does not accept is the second guard of [copyDashboard].) *)
Fixpoint NewJson (t : json) (h : store) : val * store :=
  match t with
  | JNull => (RNull, h)
  | JBool b => (RBool b, h)
  | JNum n => (RNum n, h)
  | JStr s => (RStr s, h)
  | JArr a =>
      let '(vs, h) := allocEach NewJson a h in
      let l := fresh (dom h) in
      (RArr l, <[l := CArr vs]> h)
  | JObj m =>
      let '(vs, h) := allocEach (λ kv : string * json, NewJson kv.2) m h in
      let l := fresh (dom h) in
      (RMap l, <[l := CMap (zip m.*1 vs)]> h)
  end.

(** *** The walk over the copy *)

Section Walk.
Context `{Collaborators}.
Variable variables : list (string * value).

(** [obj.Set(key, interpolateVariables(obj.Get(key).MustString(), variables))]
    when the field is not null. *)
Definition interpolateText (obj : val) (key : string) (h : store) : store :=
  let field := GetIn h obj key in
  if negb (isNullVal field)
  then SetIn h obj key (RStr (interpolateVariables (MustStringVal field) variables))
  else h.

(** The same for a field that is rewritten only when it holds a string. *)
Definition interpolateStringField (obj : val) (key : string) (h : store) : store :=
  match GetIn h obj key with
  | RStr str => SetIn h obj key (RStr (interpolateVariables str variables))
  | _ => h
  end.

Definition queryFields : list string :=
  ["expr"; "query"; "rawQuery"; "select"; "from"; "where"; "group"; "alias";
   "legendFormat"; "format"; "interval"; "step"; "measurement"; "metric"; "table";
   "database"].

(** interpolateVariablesInTarget interpolates variables within a query
    target *)
Definition interpolateVariablesInTarget (target : val) (h : store) : store :=
  let h := fold_left (λ h field, interpolateStringField target field h) queryFields h in
  let datasource := GetIn h target "datasource" in
  if negb (isNullVal datasource) then interpolateStringField datasource "uid" h else h.

(** interpolateVariablesInPanel interpolates variables within a single
    panel; [fuel] bounds the nesting of panels (the depth of the document is
    enough: [applyTemplateVariables_fuel]). *)
Fixpoint interpolateVariablesInPanel (fuel : nat) (panel : val) (h : store) : store :=
  match fuel with
  | O => h
  | S fuel' =>
      (* Interpolate panel title (safe) *)
      let h := interpolateText panel "title" h in
      (* Interpolate panel description (safe) *)
      let h := interpolateText panel "description" h in
      (* Interpolate panel-level datasource UID if present *)
      let datasource := GetIn h panel "datasource" in
      let h := if negb (isNullVal datasource) then interpolateStringField datasource "uid" h else h in
      (* Interpolate in targets/queries (safe) *)
      let targets := GetIn h panel "targets" in
      let h :=
        if negb (isNullVal targets) then
          rangeArray targets
            (λ i target h, SetIndex (interpolateVariablesInTarget target h) targets i target) h
        else h in
      (* Interpolate in nested panels (for rows) *)
      let panels := GetIn h panel "panels" in
      if negb (isNullVal panels) then
        rangeArray panels
          (λ i nestedPanel h,
             SetIndex (interpolateVariablesInPanel fuel' nestedPanel h) panels i nestedPanel) h
      else h
  end.

(** interpolateVariablesInElementV2 interpolates variables within a v2
    schema element *)
Definition interpolateVariablesInElementV2 (element : val) (h : store) : store :=
  let spec := GetIn h element "spec" in
  if isNullVal spec then h else
  let datasource := GetIn h spec "datasource" in
  let h :=
    if negb (isNullVal datasource) then
      let h := interpolateStringField datasource "uid" h in
      (* Also check for "name" field which is used in V2 schema *)
      interpolateStringField datasource "name" h
    else h in
  (* Interpolate in data spec queries *)
  let data := GetIn h spec "data" in
  if negb (isNullVal data) then
    let dataSpec := GetIn h data "spec" in
    if negb (isNullVal dataSpec) then
      let queries := GetIn h dataSpec "queries" in
      if negb (isNullVal queries) then
        rangeArray queries
          (λ i query h, SetIndex (interpolateVariablesInTarget query h) queries i query) h
      else h
    else h
  else h.

(** interpolateVariablesInDashboard performs targeted template variable
    substitution *)
Definition interpolateVariablesInDashboard (fuel : nat) (dashboard : val) (h : store) : store :=
  (* Interpolate in dashboard title if it exists *)
  let h := interpolateText dashboard "title" h in
  (* Interpolate in panels (preserving panel IDs and structure) *)
  let panels := GetIn h dashboard "panels" in
  let h :=
    if negb (isNullVal panels) then
      rangeArray panels
        (λ i panel h, SetIndex (interpolateVariablesInPanel fuel panel h) panels i panel) h
    else h in
  (* For v2 schema (elements), interpolate in elements *)
  let elements := GetIn h dashboard "elements" in
  if negb (isNullVal elements) then
    rangeMap elements
      (λ elementId element h,
         SetIn (interpolateVariablesInElementV2 element h) elements elementId element) h
  else h.

(** The copy: the document is encoded and built anew from the encoded
    text, and a new dashboard struct holds it.  There is no copy when the
    document does not encode, and none when [simplejson.NewJson] returns an
    error, which it does when the decoder does not accept the text. *)
Definition copyDashboard (h : store) (dashboard : DashboardStruct)
    : option (json * loc * val * store) :=
  match Encode h (dData dashboard) with
  | None => None
  | Some dashboardJSON =>
      if negb (Decodes dashboardJSON) then None else
      let '(copiedData, h) := NewJson dashboardJSON h in
      let dashboardCopy := fresh (dom h) in
      let h := <[dashboardCopy := CDashboard {| dID := dID dashboard; dUID := dUID dashboard;
                                                 dTitle := dTitle dashboard; dData := copiedData;
                                                 dOrgID := dOrgID dashboard |}]> h in
      Some (dashboardJSON, dashboardCopy, copiedData, h)
  end.

(** applyTemplateVariables applies template variable interpolation to
    dashboard data.  The result is the dashboard returned and the store
    after the call; there is none when [dashboard] points to no dashboard. *)
Definition applyTemplateVariables (h : store) (dashboard : loc) : option (loc * store) :=
  match h !! dashboard with
  | Some (CDashboard d) =>
      (* Create a proper deep copy of the dashboard data to avoid modifying
         the original *)
      match copyDashboard h d with
      | None =>
          (* If encoding fails (e.g., due to circular references), return
             original dashboard; if JSON parsing fails, return original
             dashboard *)
          Some (dashboard, h)
      | Some (dashboardJSON, dashboardCopy, copiedData, h) =>
          (* Apply targeted variable substitution to preserve dashboard
             structure *)
          Some (dashboardCopy,
                interpolateVariablesInDashboard (depth dashboardJSON) copiedData h)
      end
  | _ => None
  end.

End Walk.

(** *** Notions the properties are stated with *)

(** The references of a value, of a cell: all to locations that the store
    [h0] does not have. *)
Definition valFresh (h0 : store) (v : val) : Prop :=
  match v with
  | RArr l | RMap l => h0 !! l = None
  | _ => True
  end.

Definition cellFresh (h0 : store) (c : cell) : Prop :=
  match c with
  | CArr a => Forall (valFresh h0) a
  | CMap m => Forall (λ kv : string * val, valFresh h0 kv.2) m
  | CDashboard d => valFresh h0 (dData d)
  end.

(** [h] extends [h0]: the cells of [h0] are as they were, and the other
    cells refer to cells outside [h0] only. *)
Definition extends (h0 h : store) : Prop :=
  (∀ l c, h0 !! l = Some c → h !! l = Some c)
  ∧ (∀ l c, h0 !! l = None → h !! l = Some c → cellFresh h0 c).

(** The dashboard structs of [h1] are in [h] as they were. *)
Definition sameDashboards (h1 h : store) : Prop :=
  ∀ l d, h1 !! l = Some (CDashboard d) → h !! l = Some (CDashboard d).

(** The cells of [h] are in [h'] as they are. *)
Definition within (h h' : store) : Prop := ∀ l c, h !! l = Some c → h' !! l = Some c.

(** The value encodes to the document [t] in every store that has the cells
    of [h], given fuel for the depth of [t]. *)
Definition encodesTo (h : store) (v : val) (t : json) : Prop :=
  ∀ h2 n, within h h2 → (simplejson.depth t ≤ n)%nat → encodeWith n h2 v = Some t.

(** The value encodes with the fuel [n]. *)
Definition fits (n : nat) (h : store) (v : val) : Prop := is_Some (encodeWith n h v).

(** The entries of [m'] are entries of [m] or hold a string. *)
Definition fieldsKept (m m' : list (string * val)) : Prop :=
  Forall (λ kv : string * val, In kv m ∨ ∃ s, kv.2 = RStr s) m'.

(** From [h] to [h'] no array and no dashboard struct has changed, no cell
    has come or gone, and the objects have kept their entries or have got
    strings for them. *)
Definition benign (h h' : store) : Prop :=
  ∀ l,
    match h !! l with
    | Some (CArr a) => h' !! l = Some (CArr a)
    | Some (CMap m) => ∃ m', h' !! l = Some (CMap m') ∧ fieldsKept m m'
    | Some (CDashboard d) => h' !! l = Some (CDashboard d)
    | None => h' !! l = None
    end.

End Store.

(** ** Notions for the properties of the interpolator *)

Module Placeholders.
Import GoString.

(** The text is made of word bytes only. *)
Fixpoint wordOnly (s : string) : bool :=
  match s with
  | EmptyString => true
  | String c r => isWordByte c && wordOnly r
  end.

(** The elements of a multi-value variable that are strings. *)
Definition stringElements (l : list value) : list string :=
  omap (λ v, match v with VString s => Some s | _ => None end) l.

End Placeholders.

(** ** Notions for the properties of the extraction *)

Module QueryNotions.
Import GoString simplejson Query.

(** The panels in the order in which [extractQueriesFromPanels] files their
    queries: those of the list, a collapsed row replaced by the panels
    nested in it. *)
Fixpoint visitOrder (fuel : nat) (panels : list json) : list json :=
  match fuel with
  | O => []
  | S fuel' =>
      flat_map
        (λ panel,
           if isCollapsedRow panel
           then visitOrder fuel' (MustArray (Get panel "panels"))
           else [panel])
        panels
  end.

Section WithCollaborators.
Context `{Collaborators}.

(** A query of a v2 element that has a spec, a query kind and a query spec. *)
Definition queryUsableV2 (query : json) : bool :=
  negb (isNull (Get query "spec"))
  && negb (isNull (Get (Get query "spec") "query"))
  && negb (isNull (Get (Get (Get query "spec") "query") "spec")).

(** The rule for dropping a query of a v2 element: it is hidden and no
    query of the element is an expression. *)
Definition queryDroppedV2 (element query : json) : bool :=
  MustBool (Get (Get query "spec") "hidden")
  && negb (panelHasAnExpressionSchemaV2 element).

(** What [groupQueriesByPanelIdV2] files for a query it keeps: the spec of
    the query kind, without exemplar, with the datasource of the query kind
    when it has none of its own. *)
Definition preparedQueryV2 (query : json) : json :=
  let dataQueryKind := Get (Get query "spec") "query" in
  let dataQuerySpec := Del (Get dataQueryKind "spec") "exemplar" in
  match CheckGet dataQuerySpec "datasource" with
  | Some _ => dataQuerySpec
  | None =>
      Set_ dataQuerySpec "datasource"
        (JObj [("type", JStr (MustString (Get dataQueryKind "group")));
               ("uid", JStr (getDataSourceUidFromJsonSchemaV2 dataQueryKind))])
  end.

End WithCollaborators.
End QueryNotions.

(** ** query.go: the dashboard handed to the viewer *)

Module Sanitize.
Import simplejson Query.

(** The deletions of [sanitizeData] on one target. *)
Definition sanitizeTarget (target : json) : json :=
  let target := Del target "expr" in
  let target := Del target "query" in
  Del target "rawSql".

(** The loop of [sanitizeData] over the targets of a panel; the targets are
    edited in place. *)
Definition sanitizeTargets (panel : json) : json :=
  match Get panel "targets" with
  | JArr targets => Set_ panel "targets" (JArr (List.map sanitizeTarget targets))
  | _ => panel
  end.

(** sanitizeData removes the query expressions from the dashboard data.
    The recursion follows the nesting of the document; [fuel] bounds its
    depth. *)
Fixpoint sanitizeDataWith (fuel : nat) (data : json) : json :=
  match fuel with
  | O => data
  | S fuel' =>
      match Get data "panels" with
      | JArr panels =>
          Set_ data "panels"
            (JArr (List.map
                     (λ panel,
                        (* if the panel is a row and it is collapsed, get the
                           queries from the panels inside the row *)
                        if isCollapsedRow panel
                        then sanitizeDataWith fuel' panel
                        else sanitizeTargets panel)
                     panels))
      | _ => data
      end
  end.

Definition sanitizeData (data : json) : json := sanitizeDataWith (depth data) data.

(** What [sanitizeData] does to one panel of the list. *)
Definition sanitizePanelWith (fuel : nat) (panel : json) : json :=
  if isCollapsedRow panel then sanitizeDataWith fuel panel else sanitizeTargets panel.

(** The target has none of the fields that hold the text of a query. *)
Definition noQueryText (target : json) : Prop :=
  CheckGet target "expr" = None
  ∧ CheckGet target "query" = None
  ∧ CheckGet target "rawSql" = None.

End Sanitize.

(** ** Notions for the properties of the variable options *)

Module VariableNotions.
Import GoString Variables.

(** No byte of the text satisfies [p]. *)
Fixpoint without (p : ascii → bool) (s : string) : bool :=
  match s with
  | EmptyString => true
  | String c r => negb (p c) && without p r
  end.

(** An entry of the query of a custom variable: a text, alone or followed
    by a colon and a value. *)
Definition customEntry (entry : string * option string) : string :=
  match entry with
  | (text, Some val) => text +:+ ":" +:+ val
  | (text, None) => text
  end.

(** The option a custom entry stands for. *)
Definition customOption (entry : string * option string) : MetricFindValue :=
  match entry with
  | (text, Some val) => {| mfText := text; mfValue := val |}
  | (text, None) => {| mfText := text; mfValue := text |}
  end.

(** A text that can stand in a custom entry: not empty, of ASCII bytes,
    without comma, colon or white space. *)
Definition entryText (s : string) : bool :=
  negb (String.eqb s "")
  && without (λ c, (128 <=? nat_of_ascii c)%nat
                   || Ascii.eqb c "," || Ascii.eqb c ":" || isSpace c) s.

(** A value that can stand in a custom entry: of ASCII bytes, without comma
    or white space. *)
Definition entryValue (s : string) : bool :=
  without (λ c, (128 <=? nat_of_ascii c)%nat || Ascii.eqb c "," || isSpace c) s.

Definition wellFormedEntry (entry : string * option string) : bool :=
  entryText entry.1 && match entry.2 with Some val => entryValue val | None => true end.

(** The tags of [variableDefinition], of [variableCurrent] and of
    [variableOption]. *)
Definition variableTags : list string :=
  ["name"; "type"; "query"; "datasource"; "options"; "current"; "multi"; "refresh";
   "regex"; "sort"].

Definition currentTags : list string := ["text"; "value"].

Definition optionTags : list string := ["text"; "value"; "selected"].

(** The key is made of ASCII bytes and, if it is one of the tags when case
    is ignored, it is that tag. *)
Definition exactKey (tags : list string) (key : string) : bool :=
  isASCII key
  && forallb (λ tag, negb (String.eqb (ToLower key) tag) || String.eqb key tag) tags.

Definition exactKeys (tags : list string) (j : json) : bool :=
  forallb (exactKey tags) (simplejson.MustMap j).*1.

(** The entry of templating.list spells the keys the decoder reads as the
    struct tags do, in the entry itself, in its current value and in its
    options. *)
Definition spelledAsTags (varJSON : json) : bool :=
  exactKeys variableTags varJSON
  && exactKeys currentTags (simplejson.Get varJSON "current")
  && forallb (exactKeys optionTags) (simplejson.MustArray (simplejson.Get varJSON "options")).

(** The option is made of ASCII bytes. *)
Definition optionASCII (opt : MetricFindValue) : bool :=
  isASCII (mfText opt) && isASCII (mfValue opt).

(** The response without the entries that hold an error. *)
Definition withoutErrors (res : QueryDataResponse) : QueryDataResponse :=
  {| Responses :=
       List.filter (λ entry : string * DataResponse,
                      match Error_ entry.2 with Some _ => false | None => true end)
         (Responses res) |}.

(** The option a cell of a single column stands for: none for a cell whose
    text is empty, else the option with that text as text and as value. *)
Definition cellOption (cell : FieldValue) : option MetricFindValue :=
  let text := fieldValueToString cell in
  if String.eqb text "" then None else Some {| mfText := text; mfValue := text |}.

End VariableNotions.

(** ** Notions for the properties of the walk over the store *)

Module WalkNotions.
Import Store.

(** The keys under which the walk writes: the title and the description of
    the dashboard and of a panel, the uid and the name of a datasource, and
    the query fields of a target. *)
Definition interpolatedKeys : list string :=
  (["title"; "description"; "uid"; "name"] ++ queryFields)%list.

(** From the entry [kv] to the entry [kv'] the key is the same, and the
    value is the same, unless the key is an interpolated one and a value
    that was not null has been replaced by a string. *)
Definition entryKept (kv kv' : string * val) : Prop :=
  kv.1 = kv'.1
  ∧ (kv.2 = kv'.2
     ∨ (In kv.1 interpolatedKeys ∧ kv.2 ≠ RNull ∧ ∃ s, kv'.2 = RStr s)).

(** From [h] to [h'] no array and no dashboard struct has changed, no cell
    has come or gone, and every object has the keys it had, in their order,
    each with the value it had or, under an interpolated key, with a string
    in the place of a value that was not null. *)
Definition conservative (h h' : store) : Prop :=
  ∀ l,
    match h !! l with
    | Some (CArr a) => h' !! l = Some (CArr a)
    | Some (CMap m) => ∃ m', h' !! l = Some (CMap m') ∧ Forall2 entryKept m m'
    | Some (CDashboard d) => h' !! l = Some (CDashboard d)
    | None => h' !! l = None
    end.

End WalkNotions.

(** ** query.go: interpolation of a dashboard, on the document

    The walk of [interpolateVariablesInDashboard] as it acts on a document
    that is a tree, as the copy made by [applyTemplateVariables] is: an
    edit in place of a member is an edit of the member in the document.
    That the walk over the store has this effect on the copy is proved
    with the relation [Agreement.agrees] below. *)

Module Document.
Import GoString simplejson Interpolation.

Section Walk.
Variable variables : list (string * value).

(** [obj.Set(key, interpolateVariables(obj.Get(key).MustString(), variables))]
    when the field is not null. *)
Definition interpolateTextDoc (key : string) (obj : json) : json :=
  let field := Get obj key in
  if negb (isNull field)
  then Set_ obj key (JStr (interpolateVariables (MustString field) variables))
  else obj.

(** The same for a field that is rewritten only when it holds a string. *)
Definition interpolateStringFieldDoc (key : string) (obj : json) : json :=
  match Get obj key with
  | JStr str => Set_ obj key (JStr (interpolateVariables str variables))
  | _ => obj
  end.

(** [if member := obj.Get(key); member.Interface() != nil { walk(member) }],
    where [walk] edits the member in place. *)
Definition inMember (key : string) (walk : json → json) (obj : json) : json :=
  let member := Get obj key in
  if negb (isNull member) then Set_ obj key (walk member) else obj.

(** [for i, x := range arr.MustArray() { walk(x); arr.SetIndex(i, x) }] *)
Definition eachElement (walk : json → json) (arr : json) : json :=
  match arr with
  | JArr a => JArr (List.map walk a)
  | _ => arr
  end.

(** [for k, x := range obj.MustMap() { walk(x); obj.Set(k, x) }] *)
Definition eachMember (walk : json → json) (obj : json) : json :=
  fold_left (λ obj key, Set_ obj key (walk (Get obj key))) (MustMap obj).*1 obj.

(** interpolateVariablesInTarget interpolates variables within a query
    target *)
Definition interpolateVariablesInTargetDoc (target : json) : json :=
  let target :=
    fold_left (λ target field, interpolateStringFieldDoc field target)
      Store.queryFields target in
  inMember "datasource" (interpolateStringFieldDoc "uid") target.

(** interpolateVariablesInPanel interpolates variables within a single
    panel; [fuel] bounds the nesting of panels. *)
Fixpoint interpolateVariablesInPanelDoc (fuel : nat) (panel : json) : json :=
  match fuel with
  | O => panel
  | S fuel' =>
      (* Interpolate panel title (safe) *)
      let panel := interpolateTextDoc "title" panel in
      (* Interpolate panel description (safe) *)
      let panel := interpolateTextDoc "description" panel in
      (* Interpolate panel-level datasource UID if present *)
      let panel := inMember "datasource" (interpolateStringFieldDoc "uid") panel in
      (* Interpolate in targets/queries (safe) *)
      let panel := inMember "targets" (eachElement interpolateVariablesInTargetDoc) panel in
      (* Interpolate in nested panels (for rows) *)
      inMember "panels" (eachElement (interpolateVariablesInPanelDoc fuel')) panel
  end.

(** interpolateVariablesInElementV2 interpolates variables within a v2
    schema element *)
Definition interpolateVariablesInElementV2Doc (element : json) : json :=
  inMember "spec"
    (λ spec,
       let spec :=
         inMember "datasource"
           (λ datasource,
              let datasource := interpolateStringFieldDoc "uid" datasource in
              (* Also check for "name" field which is used in V2 schema *)
              interpolateStringFieldDoc "name" datasource)
           spec in
       (* Interpolate in data spec queries *)
       inMember "data"
         (inMember "spec"
            (inMember "queries" (eachElement interpolateVariablesInTargetDoc)))
         spec)
    element.

(** interpolateVariablesInDashboard performs targeted template variable
    substitution *)
Definition interpolateVariablesInDashboardDoc (fuel : nat) (dashboard : json) : json :=
  (* Interpolate in dashboard title if it exists *)
  let dashboard := interpolateTextDoc "title" dashboard in
  (* Interpolate in panels (preserving panel IDs and structure) *)
  let dashboard :=
    inMember "panels" (eachElement (interpolateVariablesInPanelDoc fuel)) dashboard in
  (* For v2 schema (elements), interpolate in elements *)
  inMember "elements" (eachMember interpolateVariablesInElementV2Doc) dashboard.

(** applyTemplateVariables, on the document of the dashboard: the document
    of the dashboard it returns. *)
Definition applyTemplateVariablesDoc (dashboard : json) : json :=
  interpolateVariablesInDashboardDoc (depth dashboard) dashboard.

End Walk.
End Document.

(** ** The store and the document it holds *)

Module Agreement.
Import simplejson Store.

(** The members of an array, each standing for a document, with footprints
    that are disjoint. *)
Inductive members (R : val → json → gset loc → Prop)
  : list val → list json → gset loc → Prop :=
| members_nil : members R [] [] ∅
| members_cons v t f vs ts fs :
    R v t f → members R vs ts fs → f ## fs →
    members R (v :: vs) (t :: ts) (f ∪ fs).

(** The entries of an object, likewise. *)
Inductive entries (R : val → json → gset loc → Prop)
  : list (string * val) → list (string * json) → gset loc → Prop :=
| entries_nil : entries R [] [] ∅
| entries_cons k v t f mv m fs :
    R v t f → entries R mv m fs → f ## fs →
    entries R ((k, v) :: mv) ((k, t) :: m) (f ∪ fs).

(** In the store [h] the value [v] stands for the document [t], as a tree:
    the cells it reaches lie in [fp], and no cell is reached twice.  [n]
    bounds the depth. *)
Fixpoint represents (n : nat) (h : store) (v : val) (t : json) (fp : gset loc) : Prop :=
  match v, t with
  | RNull, JNull => True
  | RBool b, JBool b' => b = b'
  | RNum x, JNum y => x = y
  | RStr s, JStr s' => s = s'
  | RArr l, JArr ts =>
      match n with
      | O => False
      | S n' =>
          ∃ vs fs, h !! l = Some (CArr vs) ∧ members (represents n' h) vs ts fs
                   ∧ (l ∉ fs) ∧ l ∈ fp ∧ fs ⊆ fp
      end
  | RMap l, JObj m =>
      match n with
      | O => False
      | S n' =>
          ∃ mv fs, h !! l = Some (CMap mv) ∧ entries (represents n' h) mv m fs
                   ∧ (l ∉ fs) ∧ l ∈ fp ∧ fs ⊆ fp
      end
  | _, _ => False
  end.

(** The walk [walk] over the store does to a value that stands for a
    document what [edit] does to the document, and leaves the cells outside
    the footprint as they are. *)
Definition agrees (n : nat) (walk : val → store → store) (edit : json → json) : Prop :=
  ∀ h v t fp,
    represents n h v t fp →
    represents n (walk v h) v (edit t) fp
    ∧ ∀ l, l ∉ fp → walk v h !! l = h !! l.

(** The shapes of the walk over the store: one walk after another, a walk
    on a member that is not null, a loop over the elements of an array and
    a loop over the members of an object, each writing back what it has
    walked. *)
Definition andThen (walk1 walk2 : val → store → store) (v : val) (h : store) : store :=
  walk2 v (walk1 v h).

Definition onMember (key : string) (walk : val → store → store) (v : val) (h : store)
    : store :=
  let member := GetIn h v key in
  if negb (isNullVal member) then walk member h else h.

Definition onElements (walk : val → store → store) (arr : val) (h : store) : store :=
  rangeArray arr (λ i x h, SetIndex (walk x h) arr i x) h.

Definition onMembers (walk : val → store → store) (obj : val) (h : store) : store :=
  rangeMap obj (λ k x h, SetIn (walk x h) obj k x) h.

End Agreement.

(** ** Sample documents and requests *)

Module Samples.

Definition panel1 : json :=
  JObj [("id", JNum 1); ("type", JStr "timeseries");
        ("targets", JArr [
           JObj [("refId", JStr "A"); ("hide", JBool true); ("exemplar", JBool true);
                 ("expr", JStr "up"); ("datasource", JObj [("uid", JStr "prom")])];
           JObj [("refId", JStr "B");
                 ("datasource", JObj [("type", JStr "__expr__"); ("uid", JStr "__expr__")])]])].

Definition panel3 : json :=
  JObj [("id", JNum 3); ("type", JStr "stat");
        ("datasource", JObj [("uid", JStr "ds3")]);
        ("targets", JArr [
           JObj [("refId", JStr "A"); ("hide", JBool true)];
           JObj [("refId", JStr "B"); ("exemplar", JBool true)]])].

Definition rowOfDashboardV1 : json :=
  JObj [("id", JNum 2); ("type", JStr "row"); ("collapsed", JBool true);
        ("targets", JArr [JObj [("refId", JStr "R")]]);
        ("panels", JArr [panel3])].

Definition panel4 : json :=
  JObj [("id", JNum 4); ("type", JStr "stat"); ("timeFrom", JStr "now-1h");
        ("targets", JArr [])].

(** A v1 dashboard: panel 1 has a hidden query and an expression, the
    collapsed row 2 holds panel 3, which has a hidden query and no
    expression, and panel 4 overrides the time range. *)
Definition dashboardV1 : json :=
  JObj [
    ("title", JStr "Service ${env}");
    ("time", JObj [("from", JStr "now-6h"); ("to", JStr "now")]);
    ("timezone", JStr "utc");
    ("panels", JArr [panel1; rowOfDashboardV1; panel4])
  ].

(** A v2 dashboard with one element whose query carries an exemplar. *)
Definition dashboardV2 : json :=
  JObj [
    ("timeSettings", JObj [("from", JStr "now-6h"); ("to", JStr "now")]);
    ("elements", JObj [
       ("panel-1", JObj [("kind", JStr "Panel"); ("spec", JObj [
          ("id", JNum 1);
          ("data", JObj [("spec", JObj [("queries", JArr [
             JObj [("spec", JObj [
                ("hidden", JBool false);
                ("query", JObj [("group", JStr "prometheus");
                                ("spec", JObj [("expr", JStr "up"); ("exemplar", JBool true)])])])]])])])])])])
  ].

Definition request (from to : string) : PublicDashboardQueryDTO :=
  {| IntervalMs := 1000; MaxDataPoints := 100; QueryCachingTTL := 60;
     TimeRange := {| From := from; To := to; Timezone := "" |};
     Variables := None |}.

Definition publicDashboard (timeSelectionEnabled : bool) : PublicDashboard :=
  {| TimeSelectionEnabled := timeSelectionEnabled; AnnotationsEnabled := false |}.

(** The map with a = 1 and a-b = 2. *)
Definition overlappingNames : gmap string value :=
  <["a" := VString "1"]> (<["a-b" := VString "2"]> ∅).

(** The map with a = 1 and n = nil. *)
Definition oneValue : gmap string value :=
  <["a" := VString "1"]> (<["n" := VNil]> ∅).

(** A dashboard with a custom variable and a query variable. *)
Definition dashboardWithVariables : json :=
  JObj [
    ("title", JStr "Hosts");
    ("panels", JArr []);
    ("templating", JObj [("list", JArr [
       JObj [("name", JStr "env"); ("type", JStr "custom"); ("query", JStr "dev,prod")];
       JObj [("name", JStr "host"); ("type", JStr "query");
             ("query", JStr "label_values(up, instance)");
             ("datasource", JObj [("type", JStr "prometheus"); ("uid", JStr "prom")])]])])
  ].

Definition hostVariable : variableDefinition :=
  {| vName := "host"; vType := "query"; vQuery := JStr "label_values(up, instance)";
     vDatasource := Some [("type", JStr "prometheus"); ("uid", JStr "prom")];
     vOptions := []; vCurrent := {| curText := JNull; curValue := JNull |};
     vMulti := false; vRefresh := 0; vRegex := EmptyString; vSort := 0 |}.

(** Services whose access token [token] opens that dashboard and whose
    datasource fails every query. *)
Definition servicesDatasourceDown : Services := {|
  FindEnabledPublicDashboardAndDashboardByAccessToken accessToken :=
    if String.eqb accessToken "token"
    then Ok (publicDashboard true, {| OrgID := 1; Data := dashboardWithVariables |})
    else Err (ErrExternal "public dashboard not found");
  QueryData _ _ _ := Err (ErrExternal "datasource unavailable");
  printValue _ := EmptyString
|}.

Definition variableRequest (searchFilter : string) : PublicDashboardVariableQueryDTO :=
  {| vqVariables := None; SearchFilter := searchFilter |}.

(** A store whose cell 1 is an object that contains itself, and the
    dashboard struct 2 with that document. *)
Definition circularStore : Store.store :=
  <[2%positive := Store.CDashboard {| Store.dID := 7; Store.dUID := "uid"; Store.dTitle := "t";
                                      Store.dData := Store.RMap 1%positive;
                                      Store.dOrgID := 1 |}]>
    (<[1%positive := Store.CMap [("title", Store.RStr "${env}");
                                 ("self", Store.RMap 1%positive)]]> ∅).

(** A store with a document that has a title and one panel with a title
    and one target, and the dashboard struct 9 that holds it. *)
Definition sampleDashboardStruct : Store.DashboardStruct :=
  {| Store.dID := 7; Store.dUID := "uid"; Store.dTitle := "Service";
     Store.dData := Store.RMap 1%positive; Store.dOrgID := 1 |}.

Definition sampleStore : Store.store :=
  <[9%positive := Store.CDashboard sampleDashboardStruct]>
  (<[5%positive := Store.CMap [("expr", Store.RStr "up{env=${env}}")]]>
  (<[4%positive := Store.CArr [Store.RMap 5%positive]]>
  (<[3%positive := Store.CMap [("id", Store.RNum 1); ("title", Store.RStr "$env");
                               ("targets", Store.RArr 4%positive)]]>
  (<[2%positive := Store.CArr [Store.RMap 3%positive]]>
  (<[1%positive := Store.CMap [("title", Store.RStr "Service ${env}");
                               ("panels", Store.RArr 2%positive)]]> ∅))))).

(** A store with a panel in a row in a row. *)
Definition nestedStore : Store.store :=
  <[9%positive := Store.CDashboard sampleDashboardStruct]>
  (<[7%positive := Store.CMap [("title", Store.RStr "${env}")]]>
  (<[6%positive := Store.CArr [Store.RMap 7%positive]]>
  (<[5%positive := Store.CMap [("type", Store.RStr "row"); ("panels", Store.RArr 6%positive)]]>
  (<[4%positive := Store.CArr [Store.RMap 5%positive]]>
  (<[3%positive := Store.CMap [("type", Store.RStr "row"); ("panels", Store.RArr 4%positive)]]>
  (<[2%positive := Store.CArr [Store.RMap 3%positive]]>
  (<[1%positive := Store.CMap [("panels", Store.RArr 2%positive)]]> ∅))))))).

End Samples.

(** ** Further sample documents *)

Module MoreSamples.

(** A v1 dashboard whose panel 5 lies in a collapsed row and has a relative
    time of its own. *)
Definition panel5 : json :=
  JObj [("id", JNum 5); ("type", JStr "stat"); ("timeFrom", JStr "now-1h");
        ("targets", JArr [JObj [("refId", JStr "A"); ("expr", JStr "up")]])].

Definition dashboardRowOverride : json :=
  JObj [
    ("time", JObj [("from", JStr "now-6h"); ("to", JStr "now")]);
    ("panels", JArr [
       JObj [("id", JNum 2); ("type", JStr "row"); ("collapsed", JBool true);
             ("panels", JArr [panel5])]])
  ].

(** A v2 dashboard whose element has a relative time of its own. *)
Definition elementWithOverride : json :=
  JObj [("kind", JStr "Panel"); ("spec", JObj [
     ("id", JNum 1);
     ("data", JObj [("spec", JObj [
        ("queryOptions", JObj [("timeFrom", JStr "now-2h")]);
        ("queries", JArr [])])])])].

Definition dashboardV2Override : json :=
  JObj [
    ("timeSettings", JObj [("from", JStr "now-6h"); ("to", JStr "now")]);
    ("elements", JObj [("panel-1", elementWithOverride)])
  ].

(** The variable map with env = prod alone. *)
Definition envProd : gmap string value := <["env" := VString "prod"]> ∅.

End MoreSamples.
(** * Properties *)

Import GoString Regexp Interpolation.


Example test_brace :
interpolateVariables "SELECT * FROM table WHERE col = ${myVar}" [("myVar", VString "test-value")]
= "SELECT * FROM table WHERE col = test-value".
Proof. vm_compute. reflexivity. Qed.

Example test_simple :
interpolateVariables "This has $variable not $var" [("var", VString "test")]
= "This has $variable not test".
Proof. vm_compute. reflexivity. Qed.

Example test_multi :
interpolateVariables "col IN (${values})" [("values", VSlice [VString "a"; VString "b"; VString "c"])]
= "col IN (a,b,c)".
Proof. vm_compute. reflexivity. Qed.

Example test_number :
interpolateVariables "LIMIT ${limit}" [("limit", VInt 100)] = "LIMIT 100".
Proof. vm_compute. reflexivity. Qed.

Example test_special :
interpolateVariables "col = ${my.var-name}" [("my.var-name", VString "test-value")]
= "col = test-value".
Proof. vm_compute. reflexivity. Qed.

Example test_multiple :
  interpolateVariables "SELECT $field FROM $table WHERE id = ${id}"
    [("field", VString "name"); ("table", VString "users"); ("id", VString "123")]
  = "SELECT name FROM users WHERE id = 123".
Proof. vm_compute. reflexivity. Qed.

Example test_undefined_and_nil :
  interpolateVariables "up{instance=${undefined_var}}" [("defined_var", VString "value")]
  = "up{instance=${undefined_var}}"
  ∧ interpolateVariables "up{instance=${null_var}}" [("null_var", VNil)]
    = "up{instance=${null_var}}".
Proof. vm_compute. split; reflexivity. Qed.

(** The replacement is a template: [$$] is a [$], [$0] the match, a
    reference to a group that is not there is empty, and a [$] that starts
    no reference stays. *)
Example test_expand :
  expand "${v}" 0 "$$x" = "$x"
  ∧ expand "${v}" 0 "<$0>" = "<${v}>"
  ∧ expand "${v}" 0 "a$b,c" = "a,c"
  ∧ expand "${v}" 0 "${b}" = ""
  ∧ expand "${v}" 0 "${a-b}" = "${a-b}"
  ∧ expand "${v}" 0 "100$" = "100$"
  ∧ expand "${v}" 0 "^up$|^down$" = "^up$|^down$".
Proof. vm_compute. repeat split; reflexivity. Qed.

Example test_format :
  FormatInt 0 = "0" ∧ FormatInt 100 = "100" ∧ FormatInt (-5) = "-5"
  ∧ FormatBool true = "true".
Proof. vm_compute. repeat split; reflexivity. Qed.

(** ** Properties of the interpolator *)

Section ReplaceAll.
Variable p : Pattern.
Variable repl : string.

Lemma HasPrefix_split (lit s : string) :
  HasPrefix s lit = true → ∃ rest, s = lit +:+ rest.
Proof.
  revert s. induction lit as [|a lit IH]; intros s H.
  - exists s. reflexivity.
  - destruct s as [|b s]; simpl in H; [discriminate|].
    apply andb_true_iff in H as [Hab Hp].
    apply Ascii.eqb_eq in Hab. subst b.
    destruct (IH _ Hp) as [rest ->]. exists rest. reflexivity.
Qed.

(** The bytes of a match are passed over without being looked at. *)
Lemma replaceAll_skip (lit rest : string) :
  replaceAll p repl (String.length lit) (lit +:+ rest) = replaceAll p repl 0 rest.
Proof.
  induction lit as [|a lit IH]; simpl.
  - destruct rest; reflexivity.
  - exact IH.
Qed.

Lemma replaceAll_cons (c : ascii) (rest : string) :
  replaceAll p repl 0 (String c rest)
  = if matchesAt p (String c rest)
    then repl +:+ replaceAll p repl (String.length (literal p) - 1) rest
    else String c (replaceAll p repl 0 rest).
Proof. reflexivity. Qed.

Lemma replaceAll_match (src : string) :
  matchesAt p src = true →
  literal p ≠ EmptyString →
  ∃ rest, src = literal p +:+ rest ∧
          replaceAll p repl 0 src = repl +:+ replaceAll p repl 0 rest.
Proof.
  intros Hm Hne.
  assert (Hpre : HasPrefix src (literal p) = true).
  { unfold matchesAt in Hm. apply andb_true_iff in Hm. tauto. }
  destruct (HasPrefix_split _ _ Hpre) as [rest Hsrc].
  exists rest. split; [exact Hsrc|].
  destruct (literal p) as [|a lit] eqn:Hlit; [congruence|].
  subst src.
  change (String a lit +:+ rest) with (String a (lit +:+ rest)) in *.
  rewrite replaceAll_cons, Hm, Hlit.
  replace (String.length (String a lit) - 1)%nat with (String.length lit)
    by (simpl; lia).
  rewrite replaceAll_skip. reflexivity.
Qed.

(** A position where the pattern does not match is copied. *)
Lemma replaceAll_no_match (c : ascii) (rest : string) :
  matchesAt p (String c rest) = false →
  replaceAll p repl 0 (String c rest) = String c (replaceAll p repl 0 rest).
Proof. intros H. simpl. rewrite H. reflexivity. Qed.

End ReplaceAll.

Lemma collectStrings_strings (l : list string) (acc : list string) :
collectStrings (VString <$> l) acc = (acc ++ l)%list.
Proof.
revert acc. induction l as [|x l IH]; intros acc; simpl.
- rewrite app_nil_r. reflexivity.
- rewrite IH, <- app_assoc. reflexivity.
Qed.

Lemma interpolateVariables_app (text : string) (vars1 vars2 : list (string * value)) :
interpolateVariables text (vars1 ++ vars2)
= interpolateVariables (interpolateVariables text vars1) vars2.
Proof. unfold interpolateVariables. apply fold_left_app. Qed.

(** Entries whose value is nil leave the text as it is. *)
Lemma interpolateVariables_skip_nil (text : string) (vars : list (string * value)) :
interpolateVariables text vars
= interpolateVariables text (List.filter (λ kv, negb (isNil kv.2)) vars).
Proof.
revert text. induction vars as [|[k v] vars IH]; intros text; [reflexivity|].
destruct v; simpl; try apply IH.
Qed.

Lemma Permutation_short {A} (l1 l2 : list A) :
  l1 ≡ₚ l2 → (length l1 ≤ 1)%nat → l1 = l2.
Proof.
  intros HP Hlen.
  destruct l1 as [|x [|y l1]]; simpl in Hlen; [| |lia].
  - apply Permutation_nil_l. exact HP.
  - apply Permutation_singleton_l. exact HP.
Qed.

Lemma filter_bool_Permutation {A} (f : A → bool) (l1 l2 : list A) :
  l1 ≡ₚ l2 → List.filter f l1 ≡ₚ List.filter f l2.
Proof.
  induction 1 as [|x l l' _ IH|x y l|l l' l'' _ IH1 _ IH2]; simpl.
  - constructor.
  - destruct (f x); [constructor|]; exact IH.
  - destruct (f x), (f y); try reflexivity. apply perm_swap.
  - etransitivity; eassumption.
Qed.

Lemma filter_nonnil_short (m : gmap string value) :
  atMostOneValue m →
  (length (List.filter (λ kv : string * value, negb (isNil kv.2)) (map_to_list m)) ≤ 1)%nat.
Proof.
  intros Hone.
  set (f := λ kv : string * value, negb (isNil kv.2)).
  assert (Hnd : NoDup (List.filter f (map_to_list m)).*1).
  { pose proof (NoDup_fst_map_to_list m) as Hm.
    induction (map_to_list m) as [|[k v] l IH]; simpl; [constructor|].
    inversion Hm as [|? ? Hnotin Hnd']; subst.
    destruct (f (k, v)); simpl; [|auto].
    constructor; [|auto].
    intros Hin. apply Hnotin.
    apply list_elem_of_fmap in Hin as [[k' v'] [-> Hin]].
    apply list_elem_of_In, filter_In in Hin as [Hin _].
    apply list_elem_of_fmap. exists (k', v'). split; [reflexivity|].
    apply list_elem_of_In. exact Hin. }
  destruct (List.filter f (map_to_list m)) as [|[k1 v1] [|[k2 v2] l]] eqn:Hf;
    simpl; [lia|lia|exfalso].
  assert (H1 : In (k1, v1) (List.filter f (map_to_list m))) by (rewrite Hf; simpl; auto).
  assert (H2 : In (k2, v2) (List.filter f (map_to_list m))) by (rewrite Hf; simpl; auto).
  apply filter_In in H1 as [H1 Hv1], H2 as [H2 Hv2].
  apply list_elem_of_In, elem_of_map_to_list in H1, H2.
  unfold f in Hv1, Hv2. simpl in Hv1, Hv2.
  apply negb_true_iff in Hv1, Hv2.
  pose proof (Hone _ _ _ _ H1 H2 Hv1 Hv2) as ->.
  simpl in Hnd. inversion Hnd as [|? ? Hnotin _]; subst.
  apply Hnotin. left.
Qed.

(** *** Text without [$] *)

Lemma expand_dollarFree (matched template : string) :
  dollarFree template = true → expand matched 0 template = template.
Proof.
  induction template as [|c r IH]; simpl; [reflexivity|].
  intros Hf. apply andb_true_iff in Hf as [Hc Hr].
  apply negb_true_iff in Hc. rewrite Hc, (IH Hr). reflexivity.
Qed.

Lemma replaceAll_dollarFree (p : Pattern) (repl src : string) (lit : string) :
  literal p = String "$" lit → dollarFree src = true → replaceAll p repl 0 src = src.
Proof.
  intros Hlit. induction src as [|c r IH]; [reflexivity|].
  intros Hf. simpl in Hf. apply andb_true_iff in Hf as [Hc Hr].
  rewrite replaceAll_no_match; [rewrite (IH Hr); reflexivity|].
  unfold matchesAt. rewrite Hlit.
  change (HasPrefix (String c r) (String "$" lit))
    with (Ascii.eqb "$" c && HasPrefix r lit).
  rewrite Ascii.eqb_sym. apply negb_true_iff in Hc. rewrite Hc. reflexivity.
Qed.

Lemma append_empty_r (s : string) : s +:+ EmptyString = s.
Proof.
  induction s as [|c s IH]; [reflexivity|].
  change (String c (s +:+ EmptyString) = String c s). f_equal. exact IH.
Qed.

Lemma HasPrefix_refl (s : string) : HasPrefix s s = true.
Proof. induction s as [|c s IH]; simpl; [reflexivity|]. rewrite Ascii.eqb_refl. exact IH. Qed.

Lemma replaceAll_whole (p : Pattern) (repl : string) :
  wordBoundary p = false → literal p ≠ EmptyString →
  replaceAll p repl 0 (literal p) = repl.
Proof.
  intros Hwb Hne. destruct (literal p) as [|c lit] eqn:Hlit; [congruence|].
  rewrite replaceAll_cons. unfold matchesAt. rewrite Hlit, Hwb, HasPrefix_refl. simpl.
  rewrite Nat.sub_0_r.
  rewrite <- (append_empty_r lit) at 2. rewrite replaceAll_skip. simpl.
  apply append_empty_r.
Qed.

(** A value whose rendered text has no [$] is put in place of its
    placeholder as it is. *)
Lemma interpolate_rendered_value (k : string) (v : value) :
  isNil v = false → dollarFree (variableValueToString v) = true →
  interpolateVariables ("${" +:+ k +:+ "}") [(k, v)] = variableValueToString v.
Proof.
  intros Hv Hf.
  assert (Hsub : substituteVariable ("${" +:+ k +:+ "}") (k, v)
                 = ReplaceAllString (simplePattern k)
                     (ReplaceAllString (bracePattern k) ("${" +:+ k +:+ "}")
                        (variableValueToString v))
                     (variableValueToString v))
    by (destruct v; try reflexivity; discriminate).
  unfold interpolateVariables. cbn [fold_left]. rewrite Hsub.
  unfold ReplaceAllString. rewrite !expand_dollarFree by exact Hf.
  change ("${" +:+ k +:+ "}") with (literal (bracePattern k)).
  rewrite replaceAll_whole by (reflexivity || discriminate).
  apply (replaceAll_dollarFree (simplePattern k) _ _ k); [reflexivity|exact Hf].
Qed.

(** ** C5: what is scanned again, and what is not *)

(** With the variables a = [$${b}] and b = [x], visited in that order, the
    text [${a}] first becomes [${b}], the rendered value of a, and the pass
    for b then replaces that placeholder inside the substituted text. *)
Lemma C5_counterexample :
  substituteVariable "${a}" ("a", VString "$${b}") = "${b}"
  ∧ interpolateVariables "${a}" [("a", VString "$${b}"); ("b", VString "x")] = "x"
  ∧ interpolateVariables "${a}" [("a", VString "$$a!")] = "$a!!".
Proof. vm_compute. repeat split; reflexivity. Qed.

(** C5, amended. Every entry of the variable map is processed exactly once,
    in the order in which the map yields them, by one pass for [${name}]
    followed by one pass for [$name]; an entry whose value is nil changes
    nothing.  Within a pass the text put in for a match is not scanned
    again: the pass resumes in the source right after the match.  (A later
    pass does scan the text earlier passes put in.) *)
Theorem C5_each_variable_one_pass (p : Pattern) (repl src : string) :
  matchesAt p src = true →
  literal p ≠ EmptyString →
  (∃ rest, src = literal p +:+ rest ∧
           replaceAll p repl 0 src = repl +:+ replaceAll p repl 0 rest)
  ∧ (∀ text k v rest,
       interpolateVariables text ((k, v) :: rest)
       = interpolateVariables (substituteVariable text (k, v)) rest)
  ∧ (∀ text k v,
       v ≠ VNil →
       substituteVariable text (k, v)
       = ReplaceAllString (simplePattern k)
           (ReplaceAllString (bracePattern k) text (variableValueToString v))
           (variableValueToString v))
  ∧ (∀ text k, substituteVariable text (k, VNil) = text)
  ∧ (∀ text vars1 vars2,
       interpolateVariables text (vars1 ++ vars2)
       = interpolateVariables (interpolateVariables text vars1) vars2).
Proof.
  intros Hm Hne. split; [apply replaceAll_match; assumption|].
  split; [reflexivity|].
  split; [intros text k v Hv; destruct v; try reflexivity; congruence|].
  split; [reflexivity|].
  apply interpolateVariables_app.
Qed.

Lemma C5_each_variable_one_pass_witness :
  matchesAt (bracePattern "a") "${a}${a}" = true
  ∧ ∃ rest, "${a}${a}" = literal (bracePattern "a") +:+ rest
            ∧ replaceAll (bracePattern "a") "${a}" 0 "${a}${a}"
              = "${a}" +:+ replaceAll (bracePattern "a") "${a}" 0 rest.
Proof.
  split; [reflexivity|].
  destruct (C5_each_variable_one_pass (bracePattern "a") "${a}" "${a}${a}")
    as [Hpass _]; [reflexivity|discriminate|].
  exact Hpass.
Defined.

(** ** C10: the order of the map *)

(** The map with a = 1 and a-b = 2: on the text [$a-b], visiting a first
    gives [1-b] and visiting a-b first gives [2]. *)
Lemma C10_counterexample :
  interpolateVariablesMap "$a-b" Samples.overlappingNames "1-b"
  ∧ interpolateVariablesMap "$a-b" Samples.overlappingNames "2"
  ∧ "1-b" ≠ "2".
Proof.
  assert (Hperm : [("a", VString "1"); ("a-b", VString "2")]
                  ≡ₚ map_to_list Samples.overlappingNames).
  { unfold Samples.overlappingNames.
    rewrite map_to_list_insert by (vm_compute; reflexivity).
    rewrite map_to_list_insert by (vm_compute; reflexivity).
    rewrite map_to_list_empty. reflexivity. }
  split; [|split; [|discriminate]].
  - exists [("a", VString "1"); ("a-b", VString "2")].
    split; [exact Hperm|vm_compute; reflexivity].
  - exists [("a-b", VString "2"); ("a", VString "1")].
    split; [|vm_compute; reflexivity].
    unfold rangeOrder. rewrite <- Hperm. apply perm_swap.
Qed.

(** A text without [$] has no placeholder: it is the output, whatever the
    variables and their order. *)
Lemma interpolateVariables_dollarFree (text : string) (variables : list (string * value)) :
  dollarFree text = true → interpolateVariables text variables = text.
Proof.
  intros Hf. induction variables as [|[k v] vars IH]; [reflexivity|].
  change (interpolateVariables text ((k, v) :: vars))
    with (interpolateVariables (substituteVariable text (k, v)) vars).
  assert (Hsub : substituteVariable text (k, v) = text); [|rewrite Hsub; exact IH].
  assert (Hpass : ∀ repl,
            ReplaceAllString (simplePattern k) (ReplaceAllString (bracePattern k) text repl) repl
            = text).
  { intros repl. unfold ReplaceAllString.
    rewrite (replaceAll_dollarFree (bracePattern k) _ text ("{" +:+ k +:+ "}"));
      [|reflexivity|exact Hf].
    apply (replaceAll_dollarFree (simplePattern k) _ text k); [reflexivity|exact Hf]. }
  destruct v; try apply Hpass. reflexivity.
Qed.

(** C10, amended. The output is determined by the text, the map and the
    order in which the entries of the map are visited: it is the value of a
    function of these three.  When at most one variable of the map has a
    value other than nil, or when the text has no [$], every order gives the
    same output, so any two invocations agree. *)
Theorem C10_deterministic_up_to_order (text : string) (m : gmap string value)
    (out1 out2 : string) :
  atMostOneValue m ∨ dollarFree text = true →
  interpolateVariablesMap text m out1 →
  interpolateVariablesMap text m out2 →
  out1 = out2.
Proof.
  intros [Hone|Hfree] [o1 [H1 ->]] [o2 [H2 ->]];
    [|rewrite !interpolateVariables_dollarFree by exact Hfree; reflexivity].
  rewrite (interpolateVariables_skip_nil text o1), (interpolateVariables_skip_nil text o2).
  f_equal.
  set (f := λ kv : string * value, negb (isNil kv.2)).
  assert (Hp : ∀ o, rangeOrder m o → List.filter f o = List.filter f (map_to_list m)).
  { intros o Ho. apply Permutation_short.
    - apply filter_bool_Permutation. exact Ho.
    - erewrite Permutation_length; [apply (filter_nonnil_short m Hone)|].
      apply filter_bool_Permutation. exact Ho. }
  rewrite (Hp o1 H1), (Hp o2 H2). reflexivity.
Qed.

Lemma C10_deterministic_up_to_order_witness :
  atMostOneValue Samples.oneValue
  ∧ interpolateVariables "$a-$n" [("a", VString "1"); ("n", VNil)]
    = interpolateVariables "$a-$n" [("n", VNil); ("a", VString "1")].
Proof.
  assert (Hone : atMostOneValue Samples.oneValue).
  { assert (Hk : ∀ k v, Samples.oneValue !! k = Some v → isNil v = false → k = "a").
    { intros k v H Hv. unfold Samples.oneValue in H.
      apply lookup_insert_Some in H as [[<- _]|[_ H]]; [reflexivity|].
      apply lookup_insert_Some in H as [[_ <-]|[_ H]]; [discriminate|].
      rewrite lookup_empty in H. discriminate. }
    intros k1 k2 v1 v2 H1 H2 Hv1 Hv2.
    rewrite (Hk _ _ H1 Hv1), (Hk _ _ H2 Hv2). reflexivity. }
  split; [exact Hone|].
  assert (Hperm : [("a", VString "1"); ("n", VNil)] ≡ₚ map_to_list Samples.oneValue).
  { unfold Samples.oneValue. rewrite map_to_list_insert by (vm_compute; reflexivity).
    rewrite map_to_list_insert by (vm_compute; reflexivity).
    rewrite map_to_list_empty. reflexivity. }
  apply (C10_deterministic_up_to_order "$a-$n" Samples.oneValue); [left; exact Hone| |].
  - eexists. split; [exact Hperm|reflexivity].
  - eexists. split; [|reflexivity]. unfold rangeOrder. rewrite <- Hperm. apply perm_swap.
Defined.

(** ** Documents: accessors *)

Import simplejson Query.

Lemma lookupField_setField_ne (k key : string) (val : json) (m : list (string * json)) :
  k ≠ key → lookupField k (setField key val m) = lookupField k m.
Proof.
  intros Hne. induction m as [|[k' v'] m IH]; simpl.
  - destruct (String.eqb_spec key k); [congruence|reflexivity].
  - destruct (String.eqb_spec k' key) as [->|Hk]; simpl.
    + destruct (String.eqb_spec key k); [congruence|reflexivity].
    + destruct (String.eqb_spec k' k); [reflexivity|exact IH].
Qed.

Lemma lookupField_setField_eq (key : string) (val : json) (m : list (string * json)) :
  lookupField key (setField key val m) = Some val.
Proof.
  induction m as [|[k' v'] m IH]; simpl.
  - rewrite String.eqb_refl. reflexivity.
  - destruct (String.eqb_spec k' key) as [->|Hk]; simpl.
    + rewrite String.eqb_refl. reflexivity.
    + destruct (String.eqb_spec k' key); [congruence|exact IH].
Qed.

Lemma lookupField_delField_eq (key : string) (m : list (string * json)) :
  lookupField key (delField key m) = None.
Proof.
  induction m as [|[k' v'] m IH]; simpl; [reflexivity|].
  destruct (String.eqb_spec k' key) as [->|Hk]; simpl; [exact IH|].
  destruct (String.eqb_spec k' key); [congruence|exact IH].
Qed.

Lemma CheckGet_Del (j : json) (key : string) : CheckGet (Del j key) key = None.
Proof. destruct j; simpl; try reflexivity. apply lookupField_delField_eq. Qed.

Lemma CheckGet_Set_ne (j : json) (k key : string) (val : json) :
  k ≠ key → CheckGet (Set_ j key val) k = CheckGet j k.
Proof. intros Hne. destruct j; simpl; try reflexivity. apply lookupField_setField_ne, Hne. Qed.

Lemma Get_Set_eq (m : list (string * json)) (key : string) (val : json) :
  Get (Set_ (JObj m) key val) key = val.
Proof. unfold Get. simpl. rewrite lookupField_setField_eq. reflexivity. Qed.

(** *** Nesting depth *)

Lemma list_max_elem (l : list nat) (x : nat) : In x l → (x ≤ list_max l)%nat.
Proof.
  induction l as [|y l IH]; simpl; [tauto|].
  intros [->|Hin]; [lia|]. specialize (IH Hin). lia.
Qed.

Lemma depth_elem (a : list json) (x : json) :
  In x a → (depth x < depth (JArr a))%nat.
Proof.
  intros Hin. simpl. apply Nat.lt_succ_r, list_max_elem.
  apply in_map. exact Hin.
Qed.

Lemma depth_field (m : list (string * json)) (key : string) (v : json) :
  lookupField key m = Some v → (depth v < depth (JObj m))%nat.
Proof.
  intros Hl. simpl. apply Nat.lt_succ_r, list_max_elem.
  induction m as [|[k' v'] m IH]; simpl in *; [discriminate|].
  destruct (String.eqb k' key); [left; congruence|right; auto].
Qed.

(** The members of an array field lie two levels below the object. *)
Lemma depth_array_field (j : json) (key : string) (x : json) :
  In x (MustArray (Get j key)) → (depth x + 2 ≤ depth j)%nat.
Proof.
  unfold Get, CheckGet. destruct j as [| | | | |m]; simpl; try tauto.
  destruct (lookupField key m) as [v|] eqn:Hl; simpl; [|tauto].
  destruct v as [| | | |a|]; simpl; try tauto.
  intros Hin. pose proof (depth_elem a x Hin). pose proof (depth_field m key _ Hl).
  simpl in *. lia.
Qed.

Lemma fold_left_ext_elem {A B} (f g : A → B → A) (l : list B) (a : A) :
  (∀ a x, In x l → f a x = g a x) → fold_left f l a = fold_left g l a.
Proof.
  revert a. induction l as [|x l IH]; intros a Hfg; simpl; [reflexivity|].
  rewrite Hfg by (left; reflexivity). apply IH.
  intros a' y Hy. apply Hfg. right. exact Hy.
Qed.

Lemma filter_all {A} (f : A → bool) (l : list A) :
  (∀ x, f x = true) → List.filter f l = l.
Proof.
  intros Hf. induction l as [|x l IH]; simpl; [reflexivity|].
  rewrite Hf, IH. reflexivity.
Qed.

(** ** Query extraction *)

Section Extraction.
Context `{Collaborators}.

Lemma enough_nested (fuel : nat) (panels : list json) (panel : json) :
  enough (S fuel) panels → In panel panels →
  enough fuel (MustArray (Get panel "panels")).
Proof.
  intros Hen Hin x Hx.
  pose proof (depth_array_field _ _ _ Hx). specialize (Hen _ Hin). lia.
Qed.

Lemma enough_dashboard (dashboard : json) :
  enough (depth dashboard) (MustArray (Get dashboard "panels")).
Proof. intros x Hx. pose proof (depth_array_field _ _ _ Hx). lia. Qed.

(** With enough fuel, more fuel changes nothing. *)
Lemma extractQueriesFromPanels_fuel (n n' : nat) (panels : list json)
    (result : gmap Z (list json)) :
  enough n panels → (n ≤ n')%nat →
  extractQueriesFromPanels n panels result = extractQueriesFromPanels n' panels result.
Proof.
  revert n' panels result. induction n as [|n IH]; intros n' panels result Hen Hle.
  - destruct panels as [|p ps].
    + destruct n'; reflexivity.
    + specialize (Hen p (or_introl eq_refl)). lia.
  - destruct n' as [|n']; [lia|]. simpl.
    apply fold_left_ext_elem. intros r p Hp.
    destruct (isCollapsedRow p); [|reflexivity].
    apply IH; [|lia]. eapply enough_nested; eassumption.
Qed.

Lemma extractQueriesFromPanels_app (n : nat) (l1 l2 : list json) (result : gmap Z (list json)) :
  extractQueriesFromPanels n (l1 ++ l2) result
  = extractQueriesFromPanels n l2 (extractQueriesFromPanels n l1 result).
Proof. destruct n; simpl; [reflexivity|]. apply fold_left_app. Qed.

Lemma extractQueriesFromPanels_cons (n : nat) (panel : json) (rest : list json)
    (result : gmap Z (list json)) :
  extractQueriesFromPanels (S n) (panel :: rest) result
  = extractQueriesFromPanels (S n) rest
      (if isCollapsedRow panel
       then extractQueriesFromPanels n (MustArray (Get panel "panels")) result
       else <[MustInt64 (Get panel "id") := panelQueries panel]> result).
Proof. reflexivity. Qed.

(** Every entry of the result is an entry it started with or the queries of
    a visited panel, filed under the id of that panel. *)
Lemma extractQueriesFromPanels_entry (n : nat) (panels : list json)
    (result : gmap Z (list json)) (k : Z) (qs : list json) :
  extractQueriesFromPanels n panels result !! k = Some qs →
  result !! k = Some qs
  ∨ ∃ panel, visited panels panel ∧ MustInt64 (Get panel "id") = k ∧ qs = panelQueries panel.
Proof.
  revert panels result. induction n as [|n IH]; intros panels result; [left; assumption|].
  revert result. induction panels as [|p ps IHps]; intros result; [left; assumption|].
  rewrite extractQueriesFromPanels_cons. intros Hk.
  assert (Hweak : ∀ q, visited ps q → visited (p :: ps) q).
  { intros q Hq. inversion Hq; subst.
    - apply visited_here; [right|]; assumption.
    - eapply visited_nested; [right| |]; eassumption. }
  destruct (IHps _ Hk) as [Hk'|[q [Hq [Hid Hqs]]]]; [|right; exists q; auto].
  destruct (isCollapsedRow p) eqn:Hrow.
  - destruct (IH _ _ Hk') as [?|[q [Hq [Hid Hqs]]]]; [left; assumption|].
    right. exists q. split; [|auto].
    eapply visited_nested; [left; reflexivity|exact Hrow|exact Hq].
  - apply lookup_insert_Some in Hk' as [[Hid Hqs]|[_ ?]]; [|left; assumption].
    right. exists p. split; [|auto]. apply visited_here; [left; reflexivity|exact Hrow].
Qed.

Lemma extractQueriesFromPanels_keeps (n : nat) (panels : list json)
    (result : gmap Z (list json)) (k : Z) :
  is_Some (result !! k) → is_Some (extractQueriesFromPanels n panels result !! k).
Proof.
  revert panels result. induction n as [|n IH]; intros panels result; [auto|].
  revert result. induction panels as [|p ps IHps]; intros result Hk; [assumption|].
  rewrite extractQueriesFromPanels_cons. apply IHps.
  destruct (isCollapsedRow p); [apply IH, Hk|].
  rewrite lookup_insert. case_decide; [eauto|exact Hk].
Qed.

(** With enough fuel every visited panel has an entry under its id. *)
Lemma extractQueriesFromPanels_visited (n : nat) (panels : list json) (panel : json)
    (result : gmap Z (list json)) :
  visited panels panel → enough n panels →
  is_Some (extractQueriesFromPanels n panels result !! MustInt64 (Get panel "id")).
Proof.
  intros Hv. revert n result.
  induction Hv as [panels panel Hin Hrow|panels row panel Hin Hrow Hv IH]; intros n result Hen.
  - destruct n as [|n]; [specialize (Hen _ Hin); lia|].
    apply in_split in Hin as [l1 [l2 ->]].
    rewrite extractQueriesFromPanels_app, extractQueriesFromPanels_cons, Hrow.
    apply extractQueriesFromPanels_keeps. rewrite lookup_insert_eq. eauto.
  - destruct n as [|n]; [specialize (Hen _ Hin); lia|].
    pose proof (enough_nested _ _ _ Hen Hin) as Hen'.
    apply in_split in Hin as [l1 [l2 ->]].
    rewrite extractQueriesFromPanels_app, extractQueriesFromPanels_cons, Hrow.
    apply extractQueriesFromPanels_keeps. apply IH, Hen'.
Qed.

End Extraction.

Section ExtractionClaims.
Context `{Collaborators}.

Lemma visited_not_row (panels : list json) (panel : json) :
  visited panels panel → isCollapsedRow panel = false.
Proof. induction 1; assumption. Qed.

Lemma panelHasAnExpression_existsb (panel : json) :
  panelHasAnExpression panel
  = existsb (λ q, isExpressionUID (getDataSourceUidFromJson q)) (MustArray (Get panel "targets")).
Proof.
  unfold panelHasAnExpression.
  generalize (MustArray (Get panel "targets")). intros l.
  assert (Hgen : ∀ b,
    fold_left (λ (h : bool) (q : json),
                 if isExpressionUID (getDataSourceUidFromJson q) then true else h) l b
    = b || existsb (λ q, isExpressionUID (getDataSourceUidFromJson q)) l).
  { induction l as [|q l IH]; intros b; simpl; [rewrite orb_false_r; reflexivity|].
    rewrite IH. destruct (isExpressionUID (getDataSourceUidFromJson q)), b; reflexivity. }
  apply Hgen.
Qed.

Lemma fold_left_collect {A B} (skip : A → bool) (f : A → B) (l : list A) (acc : list B) :
  fold_left (λ (acc : list B) (x : A), if skip x then acc else (acc ++ [f x])%list) l acc
  = (acc ++ List.map f (List.filter (λ x, negb (skip x)) l))%list.
Proof.
  revert acc. induction l as [|x l IH]; intros acc; simpl.
  - rewrite app_nil_r. reflexivity.
  - rewrite IH. destruct (skip x); simpl; [reflexivity|].
    rewrite <- app_assoc. reflexivity.
Qed.

(** The queries of a panel are its targets without the dropped ones, each
    prepared, in their order. *)
Lemma panelQueries_filter (panel : json) :
  panelQueries panel
  = List.map (prepareQuery panel)
      (List.filter (λ q, negb (queryDropped panel q)) (MustArray (Get panel "targets"))).
Proof.
  unfold panelQueries.
  rewrite (fold_left_collect
             (λ q, negb (panelHasAnExpression panel) && MustBool (Get q "hide"))
             (prepareQuery panel)).
  simpl. f_equal. apply filter_ext. intros q.
  unfold queryDropped. rewrite <- panelHasAnExpression_existsb.
  rewrite andb_comm. reflexivity.
Qed.

Lemma groupQueriesByPanelId_entry (dashboard : json) (k : Z) (qs : list json) :
  groupQueriesByPanelId dashboard !! k = Some qs →
  ∃ panel, visited (MustArray (Get dashboard "panels")) panel
           ∧ MustInt64 (Get panel "id") = k ∧ qs = panelQueries panel.
Proof.
  intros Hk. apply extractQueriesFromPanels_entry in Hk as [Hk|Hk]; [|exact Hk].
  rewrite lookup_empty in Hk. discriminate.
Qed.

(** A visited panel that shares its id with no other visited panel has its
    queries filed under its id. *)
Lemma groupQueriesByPanelId_visited (dashboard panel : json) :
  visited (MustArray (Get dashboard "panels")) panel →
  (∀ other, visited (MustArray (Get dashboard "panels")) other →
            MustInt64 (Get other "id") = MustInt64 (Get panel "id") → other = panel) →
  groupQueriesByPanelId dashboard !! MustInt64 (Get panel "id") = Some (panelQueries panel).
Proof.
  intros Hv Huniq.
  destruct (extractQueriesFromPanels_visited (depth dashboard) _ panel ∅ Hv
              (enough_dashboard dashboard)) as [qs Hk].
  fold (groupQueriesByPanelId dashboard) in Hk. rewrite Hk.
  destruct (groupQueriesByPanelId_entry _ _ _ Hk) as [other [Hv' [Hid ->]]].
  rewrite (Huniq other Hv' Hid). reflexivity.
Qed.

(** ** C3: hidden queries *)

(** C3. In the extraction for the v1 schema, take a panel whose queries are
    extracted (one that is visited and is the only one with its id).  The
    queries filed under its id are its targets, in their order, without the
    dropped ones; a target is dropped if and only if its own hide flag is
    true and no target of the panel is an expression; so when the panel has
    an expression among its targets, every target, hidden or not, is
    retained.  And every entry of the extracted map is of this form. *)
Theorem C3_hidden_dropped_unless_expression (dashboard panel : json) :
  visited (MustArray (Get dashboard "panels")) panel →
  (∀ other, visited (MustArray (Get dashboard "panels")) other →
            MustInt64 (Get other "id") = MustInt64 (Get panel "id") → other = panel) →
  groupQueriesByPanelId dashboard !! MustInt64 (Get panel "id")
  = Some (List.map (prepareQuery panel)
            (List.filter (λ q, negb (queryDropped panel q)) (MustArray (Get panel "targets"))))
  ∧ (∀ q, queryDropped panel q = true ↔
          MustBool (Get q "hide") = true
          ∧ ∀ q', In q' (MustArray (Get panel "targets")) →
                  NodeTypeFromDatasourceUID (getDataSourceUidFromJson q') ≠ TypeCMDNode)
  ∧ (panelHasAnExpression panel = true →
     groupQueriesByPanelId dashboard !! MustInt64 (Get panel "id")
     = Some (List.map (prepareQuery panel) (MustArray (Get panel "targets"))))
  ∧ (∀ k qs, groupQueriesByPanelId dashboard !! k = Some qs →
       ∃ p, visited (MustArray (Get dashboard "panels")) p
            ∧ MustInt64 (Get p "id") = k
            ∧ qs = List.map (prepareQuery p)
                     (List.filter (λ q, negb (queryDropped p q)) (MustArray (Get p "targets")))).
Proof.
  intros Hv Huniq.
  pose proof (groupQueriesByPanelId_visited dashboard panel Hv Huniq) as Hk.
  split; [rewrite Hk, panelQueries_filter; reflexivity|]. split; [|split].
  - intros q. unfold queryDropped. rewrite andb_true_iff, negb_true_iff.
    split; intros [Hh He]; (split; [exact Hh|]).
    + intros q' Hq' Hcmd.
      assert (existsb (λ q, isExpressionUID (getDataSourceUidFromJson q))
                (MustArray (Get panel "targets")) = true); [|congruence].
      apply existsb_exists. exists q'. split; [exact Hq'|].
      unfold isExpressionUID. rewrite Hcmd. reflexivity.
    + destruct (existsb _ _) eqn:Hex; [|reflexivity].
      apply existsb_exists in Hex as [q' [Hq' Hcmd]].
      exfalso. apply (He q' Hq'). unfold isExpressionUID in Hcmd.
      destruct (NodeTypeFromDatasourceUID (getDataSourceUidFromJson q')); try discriminate.
      reflexivity.
  - intros Hexp. rewrite Hk, panelQueries_filter. do 2 f_equal.
    apply filter_all. intros q. unfold queryDropped.
    rewrite <- panelHasAnExpression_existsb, Hexp, andb_false_r. reflexivity.
  - intros k qs Hqs. destruct (groupQueriesByPanelId_entry _ _ _ Hqs) as [p [Hp [Hid ->]]].
    exists p. split; [exact Hp|]. split; [exact Hid|apply panelQueries_filter].
Qed.

(** ** C6: collapsed rows *)

Lemma extractQueriesFromPanels_fuel_eq (n n' : nat) (panels : list json)
    (result : gmap Z (list json)) :
  enough n panels → enough n' panels →
  extractQueriesFromPanels n panels result = extractQueriesFromPanels n' panels result.
Proof.
  intros Hn Hn'. destruct (Nat.le_ge_cases n n').
  - apply extractQueriesFromPanels_fuel; assumption.
  - symmetry. apply extractQueriesFromPanels_fuel; assumption.
Qed.

(** C6. For a dashboard of the v1 schema with a collapsed row among its
    panels: the extraction is that of the dashboard in which the row is
    replaced, in place, by the panels nested in it, so the queries of the
    nested panels are found through the row.  Each panel reached through
    the row has an entry under its own id, which holds the targets of a
    visited panel with that id, in their order, without the dropped ones,
    each prepared; when no other visited panel has the id these are the
    targets of the nested panel itself, so every target of it that is not
    dropped is found.  The row itself yields nothing: every entry holds the
    queries of a visited panel that is no collapsed row, and the id of the
    row has no entry unless a visited panel has that id. *)
Theorem C6_collapsed_row_yields_nested_panels (dashboard : json) (pre post : list json)
    (row : json) :
  MustArray (Get dashboard "panels") = (pre ++ row :: post)%list →
  isCollapsedRow row = true →
  groupQueriesByPanelId dashboard
  = groupQueriesByPanelId
      (Set_ dashboard "panels" (JArr (pre ++ MustArray (Get row "panels") ++ post)%list))
  ∧ (∀ panel, visited (MustArray (Get row "panels")) panel →
       (∃ p, visited (MustArray (Get dashboard "panels")) p
             ∧ MustInt64 (Get p "id") = MustInt64 (Get panel "id")
             ∧ groupQueriesByPanelId dashboard !! MustInt64 (Get panel "id")
               = Some (List.map (prepareQuery p)
                         (List.filter (λ q, negb (queryDropped p q))
                            (MustArray (Get p "targets")))))
       ∧ ((∀ other, visited (MustArray (Get dashboard "panels")) other →
                    MustInt64 (Get other "id") = MustInt64 (Get panel "id") → other = panel) →
          groupQueriesByPanelId dashboard !! MustInt64 (Get panel "id")
          = Some (List.map (prepareQuery panel)
                    (List.filter (λ q, negb (queryDropped panel q))
                       (MustArray (Get panel "targets"))))
          ∧ ∀ q, In q (MustArray (Get panel "targets")) → queryDropped panel q = false →
                 ∃ qs, groupQueriesByPanelId dashboard !! MustInt64 (Get panel "id") = Some qs
                       ∧ In (prepareQuery panel q) qs))
  ∧ (∀ k qs, groupQueriesByPanelId dashboard !! k = Some qs →
       ∃ panel, visited (MustArray (Get dashboard "panels")) panel
                ∧ isCollapsedRow panel = false
                ∧ MustInt64 (Get panel "id") = k
                ∧ qs = List.map (prepareQuery panel)
                         (List.filter (λ q, negb (queryDropped panel q))
                            (MustArray (Get panel "targets"))))
  ∧ ((∀ panel, visited (MustArray (Get dashboard "panels")) panel →
        MustInt64 (Get panel "id") ≠ MustInt64 (Get row "id")) →
     groupQueriesByPanelId dashboard !! MustInt64 (Get row "id") = None).
Proof.
  intros Hpanels Hrow.
  assert (Hentry : ∀ k qs, groupQueriesByPanelId dashboard !! k = Some qs →
       ∃ panel, visited (MustArray (Get dashboard "panels")) panel
                ∧ isCollapsedRow panel = false
                ∧ MustInt64 (Get panel "id") = k
                ∧ qs = List.map (prepareQuery panel)
                         (List.filter (λ q, negb (queryDropped panel q))
                            (MustArray (Get panel "targets")))).
  { intros k qs Hk. destruct (groupQueriesByPanelId_entry _ _ _ Hk) as [p [Hv [Hid Hqs]]].
    exists p. split; [exact Hv|]. split; [eapply visited_not_row, Hv|].
    split; [exact Hid|]. rewrite Hqs. apply panelQueries_filter. }
  assert (Hthrough : ∀ panel, visited (MustArray (Get row "panels")) panel →
            visited (MustArray (Get dashboard "panels")) panel).
  { intros panel Hv. rewrite Hpanels. eapply visited_nested; [|exact Hrow|exact Hv].
    rewrite in_app_iff. right. left. reflexivity. }
  split; [|split; [|split; [exact Hentry|]]].
  - pose proof (enough_dashboard dashboard) as Hen. rewrite Hpanels in Hen.
    destruct dashboard as [| | | | |m]; try (destruct pre; discriminate).
    set (nested := MustArray (Get row "panels")).
    unfold groupQueriesByPanelId. rewrite Get_Set_eq, Hpanels. simpl MustArray.
    set (d' := Set_ (JObj m) "panels" (JArr (pre ++ nested ++ post))).
    destruct (depth (JObj m)) as [|n] eqn:Hd.
    { specialize (Hen row). rewrite in_app_iff in Hen. simpl in Hen.
      assert (depth row < 0)%nat by auto. lia. }
    assert (Hnested : enough n nested).
    { eapply enough_nested; [exact Hen|]. rewrite in_app_iff. right. left. reflexivity. }
    rewrite extractQueriesFromPanels_app, extractQueriesFromPanels_cons, Hrow.
    rewrite (extractQueriesFromPanels_fuel n (S n) nested) by (auto; lia).
    rewrite <- !extractQueriesFromPanels_app.
    apply extractQueriesFromPanels_fuel_eq.
    + intros p Hp. rewrite !in_app_iff in Hp. destruct Hp as [Hp|[Hp|Hp]].
      * apply Hen. rewrite in_app_iff. left. exact Hp.
      * specialize (Hnested _ Hp). lia.
      * apply Hen. rewrite in_app_iff. right. right. exact Hp.
    + pose proof (enough_dashboard d') as Hen'. unfold d' in Hen' at 2.
      rewrite Get_Set_eq in Hen'. exact Hen'.
  - intros panel Hv. split.
    + destruct (extractQueriesFromPanels_visited (depth dashboard) _ panel ∅
                  (Hthrough panel Hv) (enough_dashboard dashboard)) as [qs Hk].
      fold (groupQueriesByPanelId dashboard) in Hk.
      destruct (Hentry _ _ Hk) as [p [Hp [_ [Hid Hqs]]]].
      exists p. split; [exact Hp|]. split; [exact Hid|]. rewrite Hk, Hqs. reflexivity.
    + intros Huniq.
      pose proof (groupQueriesByPanelId_visited dashboard panel (Hthrough panel Hv) Huniq)
        as Hk.
      rewrite panelQueries_filter in Hk. split; [exact Hk|].
      intros q Hq Hkept. eexists. split; [exact Hk|].
      apply in_map, filter_In. split; [exact Hq|]. rewrite Hkept. reflexivity.
  - intros Hids.
    destruct (groupQueriesByPanelId dashboard !! MustInt64 (Get row "id")) as [qs|] eqn:Hk;
      [|reflexivity].
    destruct (Hentry _ _ Hk) as [p [Hv [_ [Hid _]]]].
    exfalso. exact (Hids p Hv Hid).
Qed.

(** ** C8: exemplars *)

Lemma prepareQuery_noExemplar (panel query : json) : noExemplar (prepareQuery panel query).
Proof.
  unfold prepareQuery, noExemplar.
  destruct (CheckGet (Del query "exemplar") "datasource").
  - apply CheckGet_Del.
  - rewrite CheckGet_Set_ne by discriminate. apply CheckGet_Del.
Qed.

Lemma panelQueries_noExemplar (panel : json) : Forall noExemplar (panelQueries panel).
Proof.
  rewrite panelQueries_filter. apply List.Forall_forall. intros q Hq.
  apply in_map_iff in Hq as [q0 [<- _]]. apply prepareQuery_noExemplar.
Qed.

Lemma fold_left_invariant {A B} (P : A → Prop) (f : A → B → A) (l : list B) (a : A) :
  P a → (∀ a x, P a → P (f a x)) → P (fold_left f l a).
Proof.
  intros Ha Hf. revert a Ha. induction l as [|x l IH]; intros a Ha; simpl; auto.
Qed.

Lemma panelQueriesV2_noExemplar (hasExpression : bool) (queries : list json) :
  Forall noExemplar (panelQueriesV2 hasExpression queries).
Proof.
  unfold panelQueriesV2. apply fold_left_invariant; [constructor|].
  intros acc query Hacc.
  destruct (isNull (Get query "spec")); [exact Hacc|].
  destruct (negb hasExpression && MustBool (Get (Get query "spec") "hidden")); [exact Hacc|].
  destruct (isNull (Get (Get query "spec") "query")); [exact Hacc|].
  destruct (isNull (Get (Get (Get query "spec") "query") "spec")); [exact Hacc|].
  apply Forall_app. split; [exact Hacc|]. constructor; [|constructor].
  apply CheckGet_Del.
Qed.

Lemma elementQueriesV2_noExemplar (element : json) :
  Forall noExemplar (elementQueriesV2 element).
Proof.
  unfold elementQueriesV2.
  repeat (match goal with |- context [if ?b then _ else _] => destruct b end;
          [constructor|]).
  apply panelQueriesV2_noExemplar.
Qed.

Lemma groupQueriesByPanelIdV2_entry (dashboard : json) (k : Z) (qs : list json) :
  groupQueriesByPanelIdV2 dashboard !! k = Some qs →
  ∃ element, In element (MustMap (Get dashboard "elements")).*2
             ∧ MustInt64 (Get (Get element "spec") "id") = k
             ∧ qs = elementQueriesV2 element.
Proof.
  unfold groupQueriesByPanelIdV2.
  generalize (MustMap (Get dashboard "elements")). intros l.
  assert (Hgen : ∀ result : gmap Z (list json),
    fold_left (λ (result : gmap Z (list json)) (entry : string * json),
         <[MustInt64 (Get (Get entry.2 "spec") "id") := elementQueriesV2 entry.2]> result)
      l result !! k = Some qs →
    result !! k = Some qs
    ∨ ∃ element, In element l.*2 ∧ MustInt64 (Get (Get element "spec") "id") = k
                 ∧ qs = elementQueriesV2 element).
  { induction l as [|[name e] l IH]; intros result Hk; [left; exact Hk|].
    simpl in Hk. destruct (IH _ Hk) as [Hk'|[e' [Hin He']]].
    - apply lookup_insert_Some in Hk' as [[Hid Hqs]|[_ ?]]; [|left; assumption].
      right. exists e. split; [left; reflexivity|]. split; [exact Hid|]. symmetry. exact Hqs.
    - right. exists e'. split; [right; exact Hin|exact He']. }
  intros Hk. destruct (Hgen _ Hk) as [Hk'|?]; [|assumption].
  rewrite lookup_empty in Hk'. discriminate.
Qed.

Lemma setRequestFields_noExemplar (safeInterval safeResolution : Z)
    (reqDTO : PublicDashboardQueryDTO) (query : json) :
  noExemplar query → noExemplar (setRequestFields safeInterval safeResolution reqDTO query).
Proof.
  unfold setRequestFields, noExemplar. intros Hq.
  rewrite !CheckGet_Set_ne by discriminate. exact Hq.
Qed.

(** C8. Whatever dashboard, of the v1 or of the v2 schema, whatever panel and
    whatever request: no query of a metric request that was built has an
    exemplar field, whether or not the queries of the dashboard had one. *)
Theorem C8_no_exemplar_in_metric_request (dashboard : json)
    (publicDashboard : PublicDashboard) (panelID : Z) (reqDTO : PublicDashboardQueryDTO)
    (metricReq : MetricRequest) :
  buildMetricRequest dashboard publicDashboard panelID reqDTO = Ok metricReq →
  ∀ query, In query (Queries metricReq) → CheckGet query "exemplar" = None.
Proof.
  unfold buildMetricRequest, buildMetricRequestV2. intros Hb query Hq.
  assert (Hmap : ∀ a b qs, Forall noExemplar qs →
            In query (List.map (setRequestFields a b reqDTO) qs) → noExemplar query).
  { intros a b qs Hqs Hin. apply in_map_iff in Hin as [q0 [<- Hq0]].
    apply setRequestFields_noExemplar. rewrite List.Forall_forall in Hqs. auto. }
  destruct (negb (isNull (Get dashboard "elements"))).
  - destruct (groupQueriesByPanelIdV2 dashboard !! panelID) as [qs|] eqn:Hk; [|discriminate].
    destruct (getSafeIntervalAndMaxDataPoints _ _) as [a b].
    injection Hb as <-. simpl in Hq.
    apply groupQueriesByPanelIdV2_entry in Hk as [e [_ [_ ->]]].
    eapply Hmap; [apply elementQueriesV2_noExemplar|exact Hq].
  - destruct (groupQueriesByPanelId dashboard !! panelID) as [qs|] eqn:Hk; [|discriminate].
    destruct (getSafeIntervalAndMaxDataPoints _ _) as [a b].
    injection Hb as <-. simpl in Hq.
    apply groupQueriesByPanelId_entry in Hk as [p [_ [_ ->]]].
    eapply Hmap; [apply panelQueries_noExemplar|exact Hq].
Qed.

End ExtractionClaims.

(** *** The sample dashboard *)

Example groupQueriesByPanelId_sample :
  let result := @groupQueriesByPanelId sampleCollaborators Samples.dashboardV1 in
  result !! 1
  = Some [ JObj [("refId", JStr "A"); ("hide", JBool true); ("expr", JStr "up");
                 ("datasource", JObj [("uid", JStr "prom")])];
           JObj [("refId", JStr "B");
                 ("datasource", JObj [("type", JStr "__expr__"); ("uid", JStr "__expr__")])] ]
  ∧ result !! 2 = None
  ∧ result !! 3
    = Some [ JObj [("refId", JStr "B");
                   ("datasource", JObj [("type", JStr "public-ds"); ("uid", JStr "ds3")])] ]
  ∧ result !! 4 = Some []
  ∧ size result = 3%nat.
Proof. vm_compute. repeat split; reflexivity. Qed.

(** The panels of the sample that are visited are panels 1, 3 and 4. *)
Lemma visited_sample (panel : json) :
  visited (MustArray (Get Samples.dashboardV1 "panels")) panel →
  MustInt64 (Get panel "id") = 1 → panel = Samples.panel1.
Proof.
  intros Hv Hid. inversion Hv as [ps p Hin Hrow|ps row p Hin Hrow Hnested]; subst.
  - simpl in Hin. destruct Hin as [<-|[<-|[<-|[]]]]; [reflexivity|discriminate..].
  - simpl in Hin. destruct Hin as [<-|[<-|[<-|[]]]]; try discriminate.
    inversion Hnested as [ps p' Hin' Hrow'|ps row' p' Hin' Hrow' Hn']; subst.
    + simpl in Hin'. destruct Hin' as [<-|[]]. discriminate.
    + simpl in Hin'. destruct Hin' as [<-|[]]. discriminate.
Qed.

(** Panel 1 of the sample has a hidden query and an expression: the hidden
    query is kept. *)
Lemma C3_hidden_dropped_unless_expression_witness :
  visited (MustArray (Get Samples.dashboardV1 "panels")) Samples.panel1
  ∧ @groupQueriesByPanelId sampleCollaborators Samples.dashboardV1 !! 1
    = Some [ JObj [("refId", JStr "A"); ("hide", JBool true); ("expr", JStr "up");
                   ("datasource", JObj [("uid", JStr "prom")])];
             JObj [("refId", JStr "B");
                   ("datasource", JObj [("type", JStr "__expr__"); ("uid", JStr "__expr__")])] ].
Proof.
  assert (Hv : visited (MustArray (Get Samples.dashboardV1 "panels")) Samples.panel1)
    by (apply visited_here; [left; reflexivity|reflexivity]).
  split; [exact Hv|].
  destruct (@C3_hidden_dropped_unless_expression sampleCollaborators
              Samples.dashboardV1 Samples.panel1 Hv) as [Hk _].
  - intros other Hother Hid. apply visited_sample; assumption.
  - exact Hk.
Defined.

Lemma visited_sample_nested (panel : json) :
  visited (MustArray (Get Samples.dashboardV1 "panels")) panel →
  MustInt64 (Get panel "id") = 3 → panel = Samples.panel3.
Proof.
  intros Hv Hid. inversion Hv as [ps p Hin Hrow|ps row p Hin Hrow Hnested]; subst.
  - simpl in Hin. destruct Hin as [<-|[<-|[<-|[]]]]; discriminate.
  - simpl in Hin. destruct Hin as [<-|[<-|[<-|[]]]]; try discriminate.
    inversion Hnested as [ps p' Hin' Hrow'|ps row' p' Hin' Hrow' Hn']; subst.
    + simpl in Hin'. destruct Hin' as [<-|[]]. reflexivity.
    + simpl in Hin'. destruct Hin' as [<-|[]]. discriminate.
Qed.

(** Row 2 of the sample is collapsed: the query of panel 3, nested in it, is
    found under the id of panel 3, and the row has no entry. *)
Lemma C6_collapsed_row_yields_nested_panels_witness :
  isCollapsedRow Samples.rowOfDashboardV1 = true
  ∧ @groupQueriesByPanelId sampleCollaborators Samples.dashboardV1 !! 3
    = Some [ JObj [("refId", JStr "B");
                   ("datasource", JObj [("type", JStr "public-ds"); ("uid", JStr "ds3")])] ]
  ∧ @groupQueriesByPanelId sampleCollaborators Samples.dashboardV1 !! 2 = None
  ∧ @groupQueriesByPanelId sampleCollaborators Samples.dashboardV1
    = @groupQueriesByPanelId sampleCollaborators
        (Set_ Samples.dashboardV1 "panels"
           (JArr (firstn 1 (MustArray (Get Samples.dashboardV1 "panels"))
                  ++ MustArray (Get Samples.rowOfDashboardV1 "panels")
                  ++ skipn 2 (MustArray (Get Samples.dashboardV1 "panels")))%list)).
Proof.
  split; [reflexivity|].
  destruct (@C6_collapsed_row_yields_nested_panels sampleCollaborators Samples.dashboardV1
              (firstn 1 (MustArray (Get Samples.dashboardV1 "panels")))
              (skipn 2 (MustArray (Get Samples.dashboardV1 "panels")))
              Samples.rowOfDashboardV1 eq_refl eq_refl) as [Heq [Hnested [_ Hrow]]].
  split; [|split; [|exact Heq]].
  - destruct (Hnested Samples.panel3) as [_ Huniq].
    { apply visited_here; [left; reflexivity|reflexivity]. }
    destruct Huniq as [Hk _].
    { intros other Hother Hid. apply visited_sample_nested; assumption. }
    exact Hk.
  - apply Hrow. intros panel Hv Hid.
    inversion Hv as [ps p Hin Hr|ps row p Hin Hr Hn]; subst.
    + simpl in Hin. destruct Hin as [<-|[<-|[<-|[]]]]; discriminate.
    + simpl in Hin. destruct Hin as [<-|[<-|[<-|[]]]]; try discriminate.
      inversion Hn as [ps p' Hin' Hr'|ps row' p' Hin' Hr' Hn']; subst.
      * simpl in Hin'. destruct Hin' as [<-|[]]. discriminate.
      * simpl in Hin'. destruct Hin' as [<-|[]]. discriminate.
Defined.

(** The metric requests for panel 1 of the sample dashboards, v1 and v2. *)
Lemma C8_no_exemplar_in_metric_request_witness :
  (∃ metricReq,
     @buildMetricRequest sampleCollaborators Samples.dashboardV1 (Samples.publicDashboard false) 1
       (Samples.request "" "") = Ok metricReq
     ∧ Queries metricReq ≠ []
     ∧ ∀ query, In query (Queries metricReq) → CheckGet query "exemplar" = None)
  ∧ (∃ metricReq,
     @buildMetricRequest sampleCollaborators Samples.dashboardV2 (Samples.publicDashboard false) 1
       (Samples.request "" "") = Ok metricReq
     ∧ Queries metricReq ≠ []
     ∧ ∀ query, In query (Queries metricReq) → CheckGet query "exemplar" = None).
Proof.
  split.
  - destruct (@buildMetricRequest sampleCollaborators Samples.dashboardV1
                (Samples.publicDashboard false) 1 (Samples.request "" "")) as [mr|] eqn:Hb;
      [|vm_compute in Hb; discriminate].
    exists mr. split; [reflexivity|]. split.
    + vm_compute in Hb. injection Hb as <-. discriminate.
    + exact (@C8_no_exemplar_in_metric_request sampleCollaborators _ _ _ _ _ Hb).
  - destruct (@buildMetricRequest sampleCollaborators Samples.dashboardV2
                (Samples.publicDashboard false) 1 (Samples.request "" "")) as [mr|] eqn:Hb;
      [|vm_compute in Hb; discriminate].
    exists mr. split; [reflexivity|]. split.
    + vm_compute in Hb. injection Hb as <-. discriminate.
    + exact (@C8_no_exemplar_in_metric_request sampleCollaborators _ _ _ _ _ Hb).
Defined.

(** ** C4: the time window *)

Section TimeWindow.
Context `{Collaborators}.


(** When no panel of the dashboard's list has the id there is no
    override. *)
Lemma getPanelRelativeTimeRange_absent (dashboard : json) (panelID : Z) :
  (∀ p, In p (MustArray (Get dashboard "panels")) → MustInt64 (Get p "id") ≠ panelID) →
  getPanelRelativeTimeRange dashboard panelID = EmptyString.
Proof.
  unfold getPanelRelativeTimeRange.
  induction (MustArray (Get dashboard "panels")) as [|p ps IH]; intros Hno; [reflexivity|].
  destruct (Z.eqb_spec (MustInt64 (Get p "id")) panelID) as [Heq|_].
  - exfalso. exact (Hno p (or_introl eq_refl) Heq).
  - apply IH. intros q Hq. apply Hno. right. exact Hq.
Qed.


(** The v2 resolver has the same precedence. *)
Lemma getTimeRangeValuesOrDefaultV2_precedence (reqDTO : PublicDashboardQueryDTO) (d : json)
    (timeSelectionEnabled : bool) (panelID : Z) :
  let documentFrom := MustString (Get (Get d "timeSettings") "from") in
  let documentTo := MustString (Get (Get d "timeSettings") "to") in
  let panelFrom := getPanelRelativeTimeRangeV2 d panelID in
  (getTimeRangeValuesOrDefaultV2 d reqDTO timeSelectionEnabled panelID).1
  = (if timeSelectionEnabled
        && negb (String.eqb (From (TimeRange reqDTO)) "")
        && negb (String.eqb (To (TimeRange reqDTO)) "")
     then (From (TimeRange reqDTO), To (TimeRange reqDTO))
     else (if String.eqb panelFrom "" then documentFrom else panelFrom, documentTo)).
Proof.
  intros documentFrom documentTo panelFrom.
  unfold getTimeRangeValuesOrDefaultV2.
  fold documentFrom documentTo panelFrom.
  destruct (timeSelectionEnabled && negb (String.eqb (From (TimeRange reqDTO)) "")
            && negb (String.eqb (To (TimeRange reqDTO)) ""));
    destruct (String.eqb panelFrom ""); simpl;
    repeat match goal with
           | |- context [match ?x with Some _ => _ | None => _ end] => destruct x
           | |- context [if ?b then _ else _] => destruct b
           end; reflexivity.
Qed.

End TimeWindow.



(** ** Variable options *)

Import Slice Variables.

Section VariableOptions.
Context `{Services}.

(** [getVariableOptions] never returns the nil slice. *)
Lemma getVariableOptions_not_nil (dashboard : Dashboard) (publicDashboard : PublicDashboard)
    (variable : variableDefinition) (reqDTO : PublicDashboardVariableQueryDTO) :
  isNilSlice (getVariableOptions dashboard publicDashboard variable reqDTO).1 = false.
Proof.
  unfold getVariableOptions.
  destruct (if String.eqb (vType variable) "query" then _ else _) as [options [err|]];
    [reflexivity|].
  simpl. destruct (isNilSlice (if (len options =? 0)%nat then _ else _)) eqn:Hnil;
    [reflexivity|exact Hnil].
Qed.

(** Without a search filter a response without error is not nil. *)
Lemma GetVariableQueryResponse_no_filter (accessToken variableName : string)
    (reqDTO : PublicDashboardVariableQueryDTO) (options : slice MetricFindValue) :
  SearchFilter reqDTO = EmptyString →
  GetVariableQueryResponse accessToken variableName reqDTO = (options, None) →
  isNilSlice options = false.
Proof.
  unfold GetVariableQueryResponse. intros Hf.
  destruct (FindEnabledPublicDashboardAndDashboardByAccessToken accessToken) as [[pd d]|];
    [|discriminate].
  destruct (findVariableInDashboard d variableName) as [variable|]; [|discriminate].
  pose proof (getVariableOptions_not_nil d pd variable reqDTO) as Hnn.
  destruct (getVariableOptions d pd variable reqDTO) as [opts [err|]]; [discriminate|].
  rewrite Hf. simpl. intros [= <-]. exact Hnn.
Qed.

Lemma filter_fold_not_nil (filter : string) (l : list MetricFindValue)
    (acc : slice MetricFindValue) :
  acc ≠ None →
  fold_left (λ (filtered : slice MetricFindValue) (opt : MetricFindValue),
               if optionMatches filter opt then append filtered opt else filtered) l acc
  ≠ None.
Proof.
  revert acc. induction l as [|x l IH]; intros acc Hacc; simpl; [exact Hacc|].
  apply IH. destruct (optionMatches filter x); [discriminate|exact Hacc].
Qed.

(** The filter returns the nil slice exactly when no option matches. *)
Lemma filterVariableOptions_nil (options : slice MetricFindValue) (filter : string) :
  filterVariableOptions options filter = None
  ↔ ∀ opt, In opt (elems options) → optionMatches filter opt = false.
Proof.
  unfold filterVariableOptions.
  generalize (elems options). intros l.
  change (fold_left (λ (filtered : slice MetricFindValue) (opt : MetricFindValue),
                 if optionMatches filter opt then append filtered opt else filtered) l None
          = None ↔ ∀ opt, In opt l → optionMatches filter opt = false).
  induction l as [|x l IH]; simpl.
  - split; [intros _ opt []|reflexivity].
  - destruct (optionMatches filter x) eqn:Hx.
    + split.
      * intros Hnone. exfalso. revert Hnone. apply filter_fold_not_nil. discriminate.
      * intros Hall. specialize (Hall x (or_introl eq_refl)). congruence.
    + rewrite IH. split.
      * intros Hall opt [<-|Hin]; [exact Hx|apply Hall, Hin].
      * intros Hall opt Hin. apply Hall. right. exact Hin.
Qed.

(** ** C9: a failing datasource *)

(** C9. In the branch for variables of type query: whenever the execution of
    the query returns an error, [getQueryVariableOptions] returns the empty
    option list, not nil, and no error. *)
Theorem C9_query_failure_gives_empty_options (dashboard : Dashboard)
    (publicDashboard : PublicDashboard) (variable : variableDefinition)
    (reqDTO : PublicDashboardVariableQueryDTO) (err : Error) :
  QueryData (OrgID dashboard) false (variableMetricRequest variable reqDTO) = Err err →
  getQueryVariableOptions dashboard publicDashboard variable reqDTO = (Some [], None)
  ∧ (vType variable = "query" →
     getVariableOptions dashboard publicDashboard variable reqDTO
     = (match getCurrentValueAsOption variable with
        | Some options => Some options
        | None => Some []
        end, None)).
Proof.
  intros Hq.
  assert (Hopt : getQueryVariableOptions dashboard publicDashboard variable reqDTO
                 = (Some [], None)).
  { unfold getQueryVariableOptions.
    destruct (String.eqb (datasourceField variable "uid") ""); [reflexivity|].
    rewrite Hq. reflexivity. }
  split; [exact Hopt|].
  intros Htype. unfold getVariableOptions. rewrite Htype, Hopt. simpl.
  destruct (getCurrentValueAsOption variable); reflexivity.
Qed.

End VariableOptions.

Lemma C9_query_failure_gives_empty_options_witness :
  @QueryData Samples.servicesDatasourceDown 1 false
     (variableMetricRequest Samples.hostVariable (Samples.variableRequest ""))
  = Err (ErrExternal "datasource unavailable")
  ∧ @getQueryVariableOptions Samples.servicesDatasourceDown
      {| OrgID := 1; Data := Samples.dashboardWithVariables |} (Samples.publicDashboard true)
      Samples.hostVariable (Samples.variableRequest "")
    = (Some [], None).
Proof.
  split; [reflexivity|].
  destruct (@C9_query_failure_gives_empty_options Samples.servicesDatasourceDown
              {| OrgID := 1; Data := Samples.dashboardWithVariables |}
              (Samples.publicDashboard true)
              Samples.hostVariable (Samples.variableRequest "")
              (ErrExternal "datasource unavailable") eq_refl) as [Hempty _].
  exact Hempty.
Defined.

(** ** C2: the response is never nil -- except through the filter *)

(** C2. The custom variable env of the sample dashboard has the options dev
    and prod.  Without a search filter the response lists them; with the
    search filter zzz, which matches neither, the response is the nil slice
    and no error: [filterVariableOptions] starts from a nil slice and only
    appends on a match, after [getVariableOptions] has made sure its own
    result is not nil. *)
Theorem C2_filter_without_match_returns_nil :
  @GetVariableQueryResponse Samples.servicesDatasourceDown "token" "env"
     (Samples.variableRequest "")
  = (Some [ {| mfText := "dev"; mfValue := "dev" |}; {| mfText := "prod"; mfValue := "prod" |} ],
     None)
  ∧ @GetVariableQueryResponse Samples.servicesDatasourceDown "token" "env"
      (Samples.variableRequest "zzz")
    = (None, None)
  ∧ @GetVariableQueryResponse Samples.servicesDatasourceDown "token" "env"
      (Samples.variableRequest "PRO")
    = (Some [ {| mfText := "prod"; mfValue := "prod" |} ], None).
Proof. vm_compute. repeat split; reflexivity. Qed.

(** ** The store: what a call leaves untouched *)

Module StoreFacts.
Import Store.

Lemma json_nested_ind (P : json → Prop) :
  P JNull → (∀ b, P (JBool b)) → (∀ n, P (JNum n)) → (∀ s, P (JStr s)) →
  (∀ a, Forall P a → P (JArr a)) →
  (∀ m, Forall (λ kv : string * json, P kv.2) m → P (JObj m)) →
  ∀ j, P j.
Proof.
  intros Hnull Hbool Hnum Hstr Harr Hobj.
  fix IH 1. intros [| b | n | s | a | m];
    [exact Hnull|apply Hbool|apply Hnum|apply Hstr| |].
  - apply Harr. induction a as [|x a IHa]; constructor; [apply IH|exact IHa].
  - apply Hobj. induction m as [|[k x] m IHm]; constructor; [apply IH|exact IHm].
Qed.

Section Frame.
Variable h0 : store.

Lemma extends_refl : extends h0 h0.
Proof. split; [auto|]. intros l c Hn Hs. congruence. Qed.

Lemma extends_insert (h : store) (l : loc) (c : cell) :
  extends h0 h → h0 !! l = None → cellFresh h0 c → extends h0 (<[l := c]> h).
Proof.
  intros [Hold Hnew] Hl Hc. split.
  - intros l' c' Hl'. rewrite lookup_insert_ne by congruence. auto.
  - intros l' c' Hn. rewrite lookup_insert. case_decide as Heq.
    + intros [= <-]. exact Hc.
    + apply Hnew, Hn.
Qed.

Lemma extends_alloc (h : store) (c : cell) :
  extends h0 h → cellFresh h0 c → extends h0 (<[fresh (dom h) := c]> h).
Proof.
  intros Hext Hc. apply extends_insert; [exact Hext| |exact Hc].
  destruct (h0 !! fresh (dom h)) as [c'|] eqn:Hl; [|reflexivity].
  exfalso. apply (is_fresh (dom h)). apply elem_of_dom.
  exists c'. apply Hext. exact Hl.
Qed.

Lemma lookupKey_fresh (key : string) (m : list (string * val)) (v : val) :
  Forall (λ kv : string * val, valFresh h0 kv.2) m → lookupKey key m = Some v → valFresh h0 v.
Proof.
  induction 1 as [|[k x] m Hx _ IH]; simpl; [discriminate|].
  destruct (String.eqb k key); [intros [= <-]; exact Hx|exact IH].
Qed.

Lemma setKey_fresh (key : string) (v : val) (m : list (string * val)) :
  Forall (λ kv : string * val, valFresh h0 kv.2) m → valFresh h0 v →
  Forall (λ kv : string * val, valFresh h0 kv.2) (setKey key v m).
Proof.
  intros Hm Hv. induction Hm as [|[k x] m Hx Hm IH]; simpl.
  - constructor; [exact Hv|constructor].
  - destruct (String.eqb k key); constructor; auto.
Qed.

Lemma Get_fresh (h : store) (j : val) (key : string) :
  extends h0 h → valFresh h0 j → valFresh h0 (GetIn h j key).
Proof.
  intros [_ Hnew] Hj. destruct j as [| | | | |l]; simpl; try exact I.
  destruct (h !! l) as [[| m |]|] eqn:Hl; try exact I.
  destruct (lookupKey key m) as [v|] eqn:Hk; [|exact I].
  eapply lookupKey_fresh; [|exact Hk]. exact (Hnew l _ Hj Hl).
Qed.

Lemma arrayAt_fresh (h : store) (j : val) (i : nat) :
  extends h0 h → valFresh h0 j → valFresh h0 (arrayAt h j i).
Proof.
  intros [_ Hnew] Hj. destruct j as [| | | |l|]; simpl; try exact I.
  destruct (h !! l) as [[a| |]|] eqn:Hl; try exact I.
  destruct (a !! i) as [v|] eqn:Hi; [|exact I].
  pose proof (Hnew l _ Hj Hl) as Ha. simpl in Ha.
  rewrite Forall_lookup in Ha. exact (Ha i v Hi).
Qed.

Lemma Set_extends (h : store) (j : val) (key : string) (v : val) :
  extends h0 h → valFresh h0 j → valFresh h0 v → extends h0 (SetIn h j key v).
Proof.
  intros Hext Hj Hv. destruct j as [| | | | |l]; simpl; try exact Hext.
  destruct (h !! l) as [[| m |]|] eqn:Hl; try exact Hext.
  apply extends_insert; [exact Hext|exact Hj|].
  simpl. apply setKey_fresh; [|exact Hv]. destruct Hext as [_ Hnew]. exact (Hnew l _ Hj Hl).
Qed.

Lemma SetIndex_extends (h : store) (j : val) (i : nat) (v : val) :
  extends h0 h → valFresh h0 j → valFresh h0 v → extends h0 (SetIndex h j i v).
Proof.
  intros Hext Hj Hv. destruct j as [| | | |l|]; simpl; try exact Hext.
  destruct (h !! l) as [[a| |]|] eqn:Hl; try exact Hext.
  destruct (i <? length a)%nat; [|exact Hext].
  apply extends_insert; [exact Hext|exact Hj|].
  simpl. apply Forall_insert; [|exact Hv]. destruct Hext as [_ Hnew]. exact (Hnew l _ Hj Hl).
Qed.

Lemma Set_keeps (h1 h : store) (j : val) (key : string) (v : val) :
  sameDashboards h1 h → sameDashboards h1 (SetIn h j key v).
Proof.
  intros Hsame. destruct j as [| | | | |l]; simpl; try exact Hsame.
  destruct (h !! l) as [[| m |]|] eqn:Hl; try exact Hsame.
  intros l' d Hd. specialize (Hsame _ _ Hd).
  rewrite lookup_insert_ne by congruence. exact Hsame.
Qed.

Lemma SetIndex_keeps (h1 h : store) (j : val) (i : nat) (v : val) :
  sameDashboards h1 h → sameDashboards h1 (SetIndex h j i v).
Proof.
  intros Hsame. destruct j as [| | | |l|]; simpl; try exact Hsame.
  destruct (h !! l) as [[a| |]|] eqn:Hl; try exact Hsame.
  destruct (i <? length a)%nat; [|exact Hsame].
  intros l' d Hd. specialize (Hsame _ _ Hd).
  rewrite lookup_insert_ne by congruence. exact Hsame.
Qed.

End Frame.

(** *** The walk keeps an invariant of the store

    The walk reads with [GetIn] and by index and writes with [SetIn] and
    [SetIndex], always through values it was given or has read.  So it keeps
    every property [Inv] of the store that these writes keep, as long as the
    values it starts from satisfy a property [Ok] that reading keeps. *)
Section Invariant.
Variable Inv : store → Prop.
Variable Ok : val → Prop.
Hypothesis Ok_str : ∀ s, Ok (RStr s).
Hypothesis Ok_Get : ∀ h j key, Inv h → Ok j → Ok (GetIn h j key).
Hypothesis Ok_arrayAt : ∀ h j i, Inv h → Ok j → Ok (arrayAt h j i).
Hypothesis Inv_Set : ∀ h j key v, Inv h → Ok j → Ok v → Inv (SetIn h j key v).
Hypothesis Inv_SetIndex : ∀ h j i v, Inv h → Ok j → Ok v → Inv (SetIndex h j i v).

Lemma rangeArray_inv (j : val) (body : nat → val → store → store) (h : store) :
  (∀ i x h, Inv h → Ok x → Inv (body i x h)) →
  Inv h → Ok j → Inv (rangeArray j body h).
Proof.
  intros Hbody Hinv Hj. unfold rangeArray.
  generalize (seq 0 (arrayLen h j)). intros idx. revert h Hinv.
  induction idx as [|i idx IH]; intros h Hinv; simpl; [exact Hinv|].
  apply IH, Hbody; [exact Hinv|]. apply Ok_arrayAt; assumption.
Qed.

Lemma rangeMap_inv (j : val) (body : string → val → store → store) (h : store) :
  (∀ k x h, Inv h → Ok x → Inv (body k x h)) →
  Inv h → Ok j → Inv (rangeMap j body h).
Proof.
  intros Hbody Hinv Hj. unfold rangeMap.
  generalize (mapKeys h j). intros ks. revert h Hinv.
  induction ks as [|k ks IH]; intros h Hinv; simpl; [exact Hinv|].
  apply IH, Hbody; [exact Hinv|]. apply Ok_Get; assumption.
Qed.

Lemma inv_if (b : bool) (h1 h2 : store) : Inv h1 → Inv h2 → Inv (if b then h1 else h2).
Proof. destruct b; auto. Qed.

Section WalkFacts.
Variable variables : list (string * value).

Lemma interpolateText_inv (obj : val) (key : string) (h : store) :
  Inv h → Ok obj → Inv (interpolateText variables obj key h).
Proof.
  intros Hinv Hobj. unfold interpolateText.
  apply inv_if; [|exact Hinv]. apply Inv_Set; auto.
Qed.

Lemma interpolateStringField_inv (obj : val) (key : string) (h : store) :
  Inv h → Ok obj → Inv (interpolateStringField variables obj key h).
Proof.
  intros Hinv Hobj. unfold interpolateStringField.
  destruct (GetIn h obj key); try exact Hinv. apply Inv_Set; auto.
Qed.

Lemma interpolateFields_inv (target : val) (fields : list string) (h : store) :
  Inv h → Ok target →
  Inv (fold_left (λ h field, interpolateStringField variables target field h) fields h).
Proof.
  intros Hinv Ht. revert h Hinv.
  induction fields as [|f fs IH]; intros h Hinv; simpl; [exact Hinv|].
  apply IH, interpolateStringField_inv; assumption.
Qed.

(** The steps of the walk, taken one after the other. *)
Ltac walk :=
  repeat first
    [ assumption
    | apply Ok_str
    | apply inv_if
    | apply interpolateText_inv
    | apply interpolateStringField_inv
    | apply interpolateFields_inv
    | apply Inv_Set
    | apply Inv_SetIndex
    | apply Ok_Get ].

Lemma interpolateVariablesInTarget_inv (target : val) (h : store) :
  Inv h → Ok target → Inv (interpolateVariablesInTarget variables target h).
Proof. intros Hinv Ht. unfold interpolateVariablesInTarget. cbv zeta. walk. Qed.

Lemma rangeTargets_inv (targets : val) (h : store) :
  Inv h → Ok targets →
  Inv (rangeArray targets
         (λ i target h,
            SetIndex (interpolateVariablesInTarget variables target h) targets i target) h).
Proof.
  intros Hinv Ht. apply rangeArray_inv; [|exact Hinv|exact Ht].
  intros i x h' Hinv' Hx. apply Inv_SetIndex; [|exact Ht|exact Hx].
  apply interpolateVariablesInTarget_inv; assumption.
Qed.

Lemma interpolateVariablesInPanel_inv (fuel : nat) (panel : val) (h : store) :
  Inv h → Ok panel → Inv (interpolateVariablesInPanel variables fuel panel h).
Proof.
  revert panel h. induction fuel as [|fuel IH]; intros panel h Hinv Hp; [exact Hinv|].
  simpl. apply inv_if.
  - apply rangeArray_inv.
    + intros i x h' Hinv' Hx. apply Inv_SetIndex; [apply IH; assumption| |exact Hx].
      walk; apply rangeTargets_inv; walk.
    + walk; apply rangeTargets_inv; walk.
    + walk; apply rangeTargets_inv; walk.
  - walk; apply rangeTargets_inv; walk.
Qed.

Lemma interpolateVariablesInElementV2_inv (element : val) (h : store) :
  Inv h → Ok element → Inv (interpolateVariablesInElementV2 variables element h).
Proof.
  intros Hinv He. unfold interpolateVariablesInElementV2. cbv zeta.
  walk; apply rangeTargets_inv; walk.
Qed.

Lemma interpolateVariablesInDashboard_inv (fuel : nat) (dashboard : val) (h : store) :
  Inv h → Ok dashboard → Inv (interpolateVariablesInDashboard variables fuel dashboard h).
Proof.
  intros Hinv Hd. unfold interpolateVariablesInDashboard. cbv zeta.
  assert (Hpanels : ∀ h1, Inv h1 →
    Inv (if negb (isNullVal (GetIn h1 dashboard "panels"))
         then rangeArray (GetIn h1 dashboard "panels")
                (λ i panel h,
                   SetIndex (interpolateVariablesInPanel variables fuel panel h)
                     (GetIn h1 dashboard "panels") i panel) h1
         else h1)).
  { intros h1 H1. apply inv_if; [|exact H1].
    apply rangeArray_inv; [|exact H1|walk].
    intros i x h' Hinv' Hx. apply Inv_SetIndex; [|walk|exact Hx].
    apply interpolateVariablesInPanel_inv; assumption. }
  apply inv_if.
  - apply rangeMap_inv.
    + intros k x h' Hinv' Hx. apply Inv_Set; [| |exact Hx].
      * apply interpolateVariablesInElementV2_inv; assumption.
      * apply Ok_Get; [|exact Hd]. apply Hpanels. walk.
    + apply Hpanels. walk.
    + apply Ok_Get; [|exact Hd]. apply Hpanels. walk.
  - apply Hpanels. walk.
Qed.

End WalkFacts.
End Invariant.

(** The walk over a document outside [h0] leaves [h0] as it is, and leaves
    every dashboard struct as it is. *)
Lemma interpolateVariablesInDashboard_extends (h0 h1 : store)
    (variables : list (string * value)) (fuel : nat) (dashboard : val) (h : store) :
  extends h0 h → sameDashboards h1 h → valFresh h0 dashboard →
  extends h0 (interpolateVariablesInDashboard variables fuel dashboard h)
  ∧ sameDashboards h1 (interpolateVariablesInDashboard variables fuel dashboard h).
Proof.
  intros Hext Hsame Hd.
  apply (interpolateVariablesInDashboard_inv
           (λ h, extends h0 h ∧ sameDashboards h1 h) (valFresh h0)).
  - intros s. exact I.
  - intros h' j key [Hext' _] Hj. apply Get_fresh; assumption.
  - intros h' j i [Hext' _] Hj. apply arrayAt_fresh; assumption.
  - intros h' j key v [Hext' Hsame'] Hj Hv.
    split; [apply Set_extends; assumption|apply Set_keeps; assumption].
  - intros h' j i v [Hext' Hsame'] Hj Hv.
    split; [apply SetIndex_extends; assumption|apply SetIndex_keeps; assumption].
  - split; assumption.
  - exact Hd.
Qed.

Section Alloc.
Variable h0 : store.

(** What [NewJson] builds lies outside [h0]. *)
Lemma allocEach_extends {A} (allocOne : A → store → val * store) (a : list A) :
  Forall (λ x, ∀ h v h', extends h0 h → allocOne x h = (v, h') →
                         extends h0 h' ∧ valFresh h0 v) a →
  ∀ h vs h', extends h0 h → allocEach allocOne a h = (vs, h') →
             extends h0 h' ∧ Forall (valFresh h0) vs ∧ length vs = length a.
Proof.
  induction 1 as [|x a Hx _ IH]; intros h vs h' Hext Halloc; simpl in Halloc.
  - injection Halloc as <- <-. auto.
  - destruct (allocOne x h) as [v h1] eqn:H1.
    destruct (allocEach allocOne a h1) as [vs' h2] eqn:H2.
    injection Halloc as <- <-.
    destruct (Hx _ _ _ Hext H1) as [Hext1 Hv].
    destruct (IH _ _ _ Hext1 H2) as [Hext2 [Hvs Hlen]].
    split; [exact Hext2|]. split; [constructor; assumption|]. simpl. congruence.
Qed.

Lemma NewJson_extends (t : json) :
  ∀ h v h', extends h0 h → NewJson t h = (v, h') → extends h0 h' ∧ valFresh h0 v.
Proof.
  induction t as [| b | n | s | a IHa | m IHm] using json_nested_ind;
    intros h v h' Hext Halloc; simpl in Halloc;
    try (injection Halloc as <- <-; split; [exact Hext|exact I]).
  - destruct (allocEach NewJson a h) as [vs h1] eqn:H1.
    injection Halloc as <- <-.
    destruct (allocEach_extends NewJson a IHa _ _ _ Hext H1) as [Hext1 [Hvs _]].
    assert (Hnone : h0 !! fresh (dom h1) = None).
    { destruct (h0 !! fresh (dom h1)) as [c'|] eqn:Hl; [|reflexivity].
      exfalso. apply (is_fresh (dom h1)). apply elem_of_dom.
      exists c'. apply Hext1. exact Hl. }
    split; [|exact Hnone]. apply extends_alloc; assumption.
  - destruct (allocEach (λ kv : string * json, NewJson kv.2) m h) as [vs h1] eqn:H1.
    injection Halloc as <- <-.
    destruct (allocEach_extends (λ kv : string * json, NewJson kv.2) m IHm _ _ _ Hext H1)
      as [Hext1 [Hvs _]].
    assert (Hnone : h0 !! fresh (dom h1) = None).
    { destruct (h0 !! fresh (dom h1)) as [c'|] eqn:Hl; [|reflexivity].
      exfalso. apply (is_fresh (dom h1)). apply elem_of_dom.
      exists c'. apply Hext1. exact Hl. }
    split; [|exact Hnone]. apply extends_alloc; [exact Hext1|].
    simpl. clear -Hvs. revert vs Hvs.
    generalize (m.*1). intros ks. induction ks as [|k ks IH]; intros vs Hvs; simpl;
      [constructor|].
    destruct Hvs as [|v vs Hv Hvs]; constructor; [exact Hv|apply IH, Hvs].
Qed.

End Alloc.

(** *** Encoding *)

(** A document that was encoded is no deeper than the fuel spent. *)
Lemma encodeWith_depth (n : nat) (h : store) (v : val) (t : json) :
  encodeWith n h v = Some t → (simplejson.depth t ≤ n)%nat.
Proof.
  revert v t. induction n as [|n IH]; intros v t Henc.
  - destruct v; simpl in Henc; simplify_eq; simpl; lia.
  - destruct v as [| | | |l|l]; simpl in Henc; simplify_eq; simpl; try lia.
    + destruct (h !! l) as [[a| |]|]; try discriminate.
      destruct (mapM (encodeWith n h) a) as [ts|] eqn:Hm; [|discriminate].
      simpl in Henc. injection Henc as <-. simpl. apply le_n_S.
      apply list_max_le. apply mapM_Some in Hm.
      clear -Hm IH. induction Hm as [|x y a ts Hxy _ IHm]; simpl; constructor; eauto.
    + destruct (h !! l) as [[| m |]|]; try discriminate.
      destruct (mapM _ m) as [ts|] eqn:Hm; [|discriminate].
      simpl in Henc. injection Henc as <-. simpl. apply le_n_S.
      apply list_max_le. apply mapM_Some in Hm.
      clear -Hm IH. induction Hm as [|[k x] [k' y] a ts Hxy _ IHm]; simpl; constructor; auto.
      simpl in Hxy. destruct (encodeWith n h x) as [y'|] eqn:Hx; [|discriminate].
      simpl in Hxy. injection Hxy as _ <-. simpl. eauto.
Qed.

(** More fuel and more cells do not change what a value encodes to. *)
Lemma encodeWith_mono (n n' : nat) (h h' : store) (v : val) (t : json) :
  (∀ l c, h !! l = Some c → h' !! l = Some c) → (n ≤ n')%nat →
  encodeWith n h v = Some t → encodeWith n' h' v = Some t.
Proof.
  intros Hsub. revert n' v t. induction n as [|n IH]; intros n' v t Hle Henc.
  - destruct v; simpl in Henc; simplify_eq; destruct n'; reflexivity.
  - destruct n' as [|n']; [lia|].
    destruct v as [| | | |l|l]; simpl in Henc |- *; try exact Henc.
    + destruct (h !! l) as [[a| |]|] eqn:Hl; try discriminate.
      rewrite (Hsub _ _ Hl).
      destruct (mapM (encodeWith n h) a) as [ts|] eqn:Hm; [|discriminate].
      simpl in Henc. injection Henc as <-.
      assert (Hm' : mapM (encodeWith n' h') a = Some ts).
      { apply mapM_Some. apply mapM_Some in Hm.
        eapply Forall2_impl; [exact Hm|]. intros x y Hxy. apply IH; [lia|exact Hxy]. }
      rewrite Hm'. reflexivity.
    + destruct (h !! l) as [[| m |]|] eqn:Hl; try discriminate.
      rewrite (Hsub _ _ Hl).
      destruct (mapM _ m) as [ts|] eqn:Hm; [|discriminate].
      simpl in Henc. injection Henc as <-.
      assert (Hm' : mapM (λ kv : string * val, pair kv.1 <$> encodeWith n' h' kv.2) m
                    = Some ts).
      { apply mapM_Some. apply mapM_Some in Hm.
        eapply Forall2_impl; [exact Hm|]. intros [k x] [k' y] Hxy. simpl in *.
        destruct (encodeWith n h x) as [y'|] eqn:Hx; [|discriminate].
        rewrite (IH n' x y' ltac:(lia) Hx). exact Hxy. }
      rewrite Hm'. reflexivity.
Qed.

Lemma encodeWith_det (n n' : nat) (h : store) (v : val) (t t' : json) :
  encodeWith n h v = Some t → encodeWith n' h v = Some t' → t = t'.
Proof.
  intros Ht Ht'. destruct (Nat.le_ge_cases n n') as [Hle|Hle].
  - pose proof (encodeWith_mono n n' h h v t (λ l c H, H) Hle Ht). congruence.
  - pose proof (encodeWith_mono n' n h h v t' (λ l c H, H) Hle Ht'). congruence.
Qed.

(** The fuel a document needs is its depth. *)
Lemma encodeWith_min (n : nat) (h : store) (v : val) (t : json) :
  encodeWith n h v = Some t → encodeWith (simplejson.depth t) h v = Some t.
Proof.
  revert v t. induction n as [|n IH]; intros v t Henc.
  - destruct v; simpl in Henc; simplify_eq; reflexivity.
  - destruct v as [| | | |l|l]; simpl in Henc; simplify_eq; try reflexivity.
    + destruct (h !! l) as [[a| |]|] eqn:Hl; try discriminate.
      destruct (mapM (encodeWith n h) a) as [ts|] eqn:Hm; [|discriminate].
      simpl in Henc. injection Henc as <-. simpl. rewrite Hl.
      assert (Hm' : mapM (encodeWith (list_max (List.map simplejson.depth ts)) h) a = Some ts).
      { apply mapM_Some. apply mapM_Some in Hm.
        assert (Hbound : Forall (λ y, simplejson.depth y
                                      ≤ list_max (List.map simplejson.depth ts))%nat ts).
        { apply List.Forall_forall. intros y Hy. apply list_max_elem, in_map, Hy. }
        revert Hbound. generalize (list_max (List.map simplejson.depth ts)). intros k Hbound.
        clear Hl. induction Hm as [|x y a ts Hxy _ IHm]; constructor.
        - apply (encodeWith_mono (simplejson.depth y) k h h); [auto| |apply IH, Hxy].
          exact (List.Forall_inv Hbound).
        - apply IHm. exact (List.Forall_inv_tail Hbound). }
      rewrite Hm'. reflexivity.
    + destruct (h !! l) as [[| m |]|] eqn:Hl; try discriminate.
      destruct (mapM _ m) as [ts|] eqn:Hm; [|discriminate].
      simpl in Henc. injection Henc as <-. simpl. rewrite Hl.
      set (k := list_max (List.map (λ kv : string * json, simplejson.depth kv.2) ts)).
      assert (Hm' : mapM (λ kv : string * val, pair kv.1 <$> encodeWith k h kv.2) m = Some ts).
      { apply mapM_Some. apply mapM_Some in Hm.
        assert (Hbound : Forall (λ kv : string * json, simplejson.depth kv.2 ≤ k)%nat ts).
        { apply List.Forall_forall. intros y Hy. unfold k.
          apply list_max_elem. apply (in_map (λ kv : string * json, simplejson.depth kv.2)), Hy. }
        clearbody k.
        clear Hl. induction Hm as [|[key x] [key' y] m ts Hxy _ IHm]; constructor.
        - simpl in *. destruct (encodeWith n h x) as [y'|] eqn:Hx; [|discriminate].
          simpl in Hxy. injection Hxy as <- <-.
          rewrite (encodeWith_mono (simplejson.depth y') k h h x y'); [reflexivity|auto| |].
          + exact (List.Forall_inv Hbound).
          + apply IH, Hx.
        - apply IHm. exact (List.Forall_inv_tail Hbound). }
      rewrite Hm'. reflexivity.
Qed.

(** Encoding a part of a document does not read the cell of the whole. *)
Lemma encodeWith_delete (n : nat) (h : store) (l : loc) (whole : val) (t : json) :
  (whole = RArr l ∨ whole = RMap l) →
  encodeWith n h whole = Some t →
  ∀ k x s, encodeWith k h x = Some s → (simplejson.depth s < simplejson.depth t)%nat →
           encodeWith k (delete l h) x = Some s.
Proof.
  intros Hwhole Ht.
  assert (Hself : ∀ k x s, (x = RArr l ∨ x = RMap l) → encodeWith k h x = Some s → s = t).
  { intros k x s Hx Hs.
    assert (x = whole); [|subst; eapply encodeWith_det; eassumption].
    destruct n; [destruct Hwhole; subst; discriminate|].
    destruct k; [destruct Hx; subst; discriminate|].
    destruct Hwhole, Hx; subst; simpl in Ht, Hs; try reflexivity;
      destruct (h !! l) as [[| |]|]; discriminate. }
  induction k as [|k IH]; intros x s Hs Hlt.
  - destruct x; simpl in Hs |- *; simplify_eq; reflexivity.
  - destruct x as [| | | |l'|l']; simpl in Hs |- *; try exact Hs.
    + destruct (decide (l' = l)) as [->|Hne].
      { pose proof (Hself (S k) (RArr l) s (or_introl eq_refl) Hs). subst. lia. }
      rewrite lookup_delete_ne by congruence.
      destruct (h !! l') as [[a| |]|] eqn:Hl; try discriminate.
      destruct (mapM (encodeWith k h) a) as [ts|] eqn:Hm; [|discriminate].
      simpl in Hs. injection Hs as <-.
      assert (Hm' : mapM (encodeWith k (delete l h)) a = Some ts).
      { apply mapM_Some. apply mapM_Some in Hm.
        assert (Hbound : Forall (λ y, simplejson.depth y < simplejson.depth t)%nat ts).
        { apply List.Forall_forall. intros y Hy.
          pose proof (depth_elem ts y Hy). lia. }
        clear Hlt Hl. induction Hm as [|x y a ts Hxy _ IHm]; constructor.
        - apply IH; [exact Hxy|]. exact (List.Forall_inv Hbound).
        - apply IHm. exact (List.Forall_inv_tail Hbound). }
      rewrite Hm'. reflexivity.
    + destruct (decide (l' = l)) as [->|Hne].
      { pose proof (Hself (S k) (RMap l) s (or_intror eq_refl) Hs). subst. lia. }
      rewrite lookup_delete_ne by congruence.
      destruct (h !! l') as [[| m |]|] eqn:Hl; try discriminate.
      destruct (mapM _ m) as [ts|] eqn:Hm; [|discriminate].
      simpl in Hs. injection Hs as <-.
      assert (Hm' : mapM (λ kv : string * val, pair kv.1 <$> encodeWith k (delete l h) kv.2) m
                    = Some ts).
      { apply mapM_Some. apply mapM_Some in Hm.
        assert (Hbound : Forall (λ kv : string * json,
                                   simplejson.depth kv.2 < simplejson.depth t)%nat ts).
        { apply List.Forall_forall. intros [key y] Hy. simpl.
          assert (simplejson.depth y < simplejson.depth (JObj ts))%nat; [|lia].
          simpl. apply Nat.lt_succ_r, list_max_elem.
          apply (in_map (λ kv : string * json, simplejson.depth kv.2) ts (key, y)), Hy. }
        clear Hlt Hl. induction Hm as [|[key x] [key' y] m ts Hxy _ IHm]; constructor.
        - simpl in *. destruct (encodeWith k h x) as [y'|] eqn:Hx; [|discriminate].
          simpl in Hxy. injection Hxy as <- <-.
          rewrite (IH x y' Hx); [reflexivity|]. exact (List.Forall_inv Hbound).
        - apply IHm. exact (List.Forall_inv_tail Hbound). }
      rewrite Hm'. reflexivity.
Qed.

(** A document that encodes is no deeper than the store has cells. *)
Lemma encodeWith_size (h : store) :
  ∀ n v t, encodeWith n h v = Some t → (simplejson.depth t ≤ size h)%nat.
Proof.
  remember (size h) as m eqn:Hm. revert h Hm.
  induction m as [m IHm] using lt_wf_ind. intros h Hm n v t Henc.
  assert (Hcell : ∀ l c, h !! l = Some c → (size (delete l h) < m)%nat).
  { intros l c Hl. subst m. rewrite <- (insert_delete_id h l c Hl) at 2.
    rewrite map_size_insert_None by apply lookup_delete_eq. lia. }
  destruct n as [|n]; [destruct v; simpl in Henc; simplify_eq; simpl; lia|].
  destruct v as [| | | |l|l]; simpl in Henc; simplify_eq; simpl; try lia.
  - destruct (h !! l) as [[a| |]|] eqn:Hl; try discriminate.
    destruct (mapM (encodeWith n h) a) as [ts|] eqn:Hmap; [|discriminate].
    simpl in Henc. injection Henc as <-.
    specialize (Hcell _ _ Hl).
    assert (Hwhole : encodeWith (S n) h (RArr l) = Some (JArr ts))
      by (simpl; rewrite Hl, Hmap; reflexivity).
    assert (list_max (List.map simplejson.depth ts) ≤ size (delete l h))%nat; [|simpl; lia].
    apply list_max_le, List.Forall_map, List.Forall_forall. intros y Hy.
    apply mapM_Some in Hmap.
    pose proof Hy as Hi. apply list_elem_of_In, list_elem_of_lookup in Hi as [i Hi].
    destruct (Forall2_lookup_r _ _ _ _ _ Hmap Hi) as [x [_ Hx]].
    eapply (IHm _ Hcell (delete l h) eq_refl n x y).
    eapply encodeWith_delete; [left; reflexivity|exact Hwhole|exact Hx|].
    apply depth_elem, Hy.
  - destruct (h !! l) as [[| fields |]|] eqn:Hl; try discriminate.
    destruct (mapM _ fields) as [ts|] eqn:Hmap; [|discriminate].
    simpl in Henc. injection Henc as <-.
    specialize (Hcell _ _ Hl).
    assert (Hwhole : encodeWith (S n) h (RMap l) = Some (JObj ts))
      by (simpl; rewrite Hl, Hmap; reflexivity).
    assert (list_max (List.map (λ kv : string * json, simplejson.depth kv.2) ts)
            ≤ size (delete l h))%nat; [|simpl; lia].
    apply list_max_le, List.Forall_map, List.Forall_forall. intros [key y] Hy. simpl.
    apply mapM_Some in Hmap.
    pose proof Hy as Hi. apply list_elem_of_In, list_elem_of_lookup in Hi as [i Hi].
    destruct (Forall2_lookup_r _ _ _ _ _ Hmap Hi) as [[key' x] [_ Hx]].
    simpl in Hx. destruct (encodeWith n h x) as [y'|] eqn:Hx'; [|discriminate].
    simpl in Hx. injection Hx as _ ->.
    eapply (IHm _ Hcell (delete l h) eq_refl n x y).
    eapply encodeWith_delete; [right; reflexivity|exact Hwhole|exact Hx'|].
    assert (simplejson.depth y < simplejson.depth (JObj ts))%nat; [|exact H].
    simpl. apply Nat.lt_succ_r, list_max_elem.
    apply (in_map (λ kv : string * json, simplejson.depth kv.2) ts (key, y)), Hy.
Qed.

(** [Encode] has the fuel for every document that encodes at all: it fails
    only on a store in which no amount of fuel succeeds, that is on a cycle
    (or on a reference to no cell). *)
Lemma Encode_complete (n : nat) (h : store) (v : val) (t : json) :
  encodeWith n h v = Some t → Encode h v = Some t.
Proof.
  intros Henc. unfold Encode.
  eapply encodeWith_mono; [intros l c H; exact H| |apply (encodeWith_min _ _ _ _ Henc)].
  pose proof (encodeWith_size h n v t Henc). lia.
Qed.

Lemma Encode_None (h : store) (v : val) :
  Encode h v = None ↔ ∀ n, encodeWith n h v = None.
Proof.
  split.
  - intros Hnone n. destruct (encodeWith n h v) as [t|] eqn:Hn; [|reflexivity].
    rewrite (Encode_complete _ _ _ _ Hn) in Hnone. discriminate.
  - intros Hall. apply Hall.
Qed.

(** *** The copy encodes to the document it was built from *)

Lemma within_alloc (h : store) (c : cell) : within h (<[fresh (dom h) := c]> h).
Proof.
  intros l c' Hl. rewrite lookup_insert_ne; [exact Hl|].
  intros <-. apply (is_fresh (dom h)). apply elem_of_dom. eauto.
Qed.

Lemma allocEach_encodes {A} (allocOne : A → store → val * store) (tree : A → json)
    (a : list A) :
  Forall (λ x, ∀ h v h', allocOne x h = (v, h') → within h h' ∧ encodesTo h' v (tree x)) a →
  ∀ h vs h', allocEach allocOne a h = (vs, h') →
             within h h' ∧ Forall2 (λ v x, encodesTo h' v (tree x)) vs a.
Proof.
  induction 1 as [|x a Hx _ IH]; intros h vs h' Halloc; simpl in Halloc.
  - injection Halloc as <- <-. split; [intros l c Hl; exact Hl|constructor].
  - destruct (allocOne x h) as [v h1] eqn:H1.
    destruct (allocEach allocOne a h1) as [vs' h2] eqn:H2.
    injection Halloc as <- <-.
    destruct (Hx _ _ _ H1) as [Hw1 Hv]. destruct (IH _ _ _ H2) as [Hw2 Hvs].
    split; [intros l c Hl; auto|].
    constructor; [|exact Hvs].
    intros h3 n Hw3 Hn. apply Hv; [|exact Hn]. intros l c Hl. auto.
Qed.

Lemma encodesTo_each {A} (tree : A → json) (h1 h2 : store) (k : nat)
    (vs : list val) (a : list A) :
  Forall2 (λ v x, encodesTo h1 v (tree x)) vs a →
  (list_max (List.map (λ x, simplejson.depth (tree x)) a) ≤ k)%nat →
  within h1 h2 →
  Forall2 (λ v x, encodeWith k h2 v = Some (tree x)) vs a.
Proof.
  intros Hvs Hk Hw. apply list_max_le, List.Forall_map in Hk.
  induction Hvs as [|v x vs a Hv _ IH]; constructor.
  - apply Hv; [exact Hw|]. inversion Hk; assumption.
  - apply IH. inversion Hk; assumption.
Qed.

Lemma NewJson_encodes (t : json) :
  ∀ h v h', NewJson t h = (v, h') → within h h' ∧ encodesTo h' v t.
Proof.
  induction t as [| b | n | s | a IHa | m IHm] using json_nested_ind;
    intros h v h' Halloc; simpl in Halloc;
    try (injection Halloc as <- <-; split; [intros l c Hl; exact Hl|];
         intros h2 k _ _; destruct k; reflexivity).
  - destruct (allocEach NewJson a h) as [vs h1] eqn:H1.
    injection Halloc as <- <-.
    destruct (allocEach_encodes NewJson (λ x, x) a IHa _ _ _ H1) as [Hw Hvs].
    pose proof (within_alloc h1 (CArr vs)) as Hw1.
    split; [intros l c Hl; auto|].
    intros h2 k Hw2 Hk. simpl in Hk. destruct k as [|k]; [lia|]. simpl.
    rewrite (Hw2 (fresh (dom h1)) (CArr vs)) by apply lookup_insert_eq.
    assert (Hm : mapM (encodeWith k h2) vs = Some a).
    { apply mapM_Some.
      apply (encodesTo_each (λ x, x) h1 h2 k vs a Hvs); [exact (le_S_n _ _ Hk)|].
      intros l c Hl. auto. }
    rewrite Hm. reflexivity.
  - destruct (allocEach (λ kv : string * json, NewJson kv.2) m h) as [vs h1] eqn:H1.
    injection Halloc as <- <-.
    destruct (allocEach_encodes (λ kv : string * json, NewJson kv.2) snd m IHm _ _ _ H1)
      as [Hw Hvs].
    pose proof (within_alloc h1 (CMap (zip m.*1 vs))) as Hw1.
    split; [intros l c Hl; auto|].
    intros h2 k Hw2 Hk. simpl in Hk. destruct k as [|k]; [lia|]. simpl.
    rewrite (Hw2 (fresh (dom h1)) (CMap (zip m.*1 vs))) by apply lookup_insert_eq.
    assert (Hm : mapM (λ kv : string * val, pair kv.1 <$> encodeWith k h2 kv.2) (zip m.*1 vs)
                 = Some m).
    { apply mapM_Some.
      assert (Heach : Forall2 (λ v kv, encodeWith k h2 v = Some kv.2) vs m).
      { apply (encodesTo_each snd h1 h2 k vs m Hvs); [exact (le_S_n _ _ Hk)|].
        intros l c Hl. auto. }
      clear -Heach. induction Heach as [|v [key x] vs m Hv _ IH]; simpl; constructor.
      - simpl in *. rewrite Hv. reflexivity.
      - exact IH. }
    rewrite Hm. reflexivity.
Qed.

End StoreFacts.

(** ** C1: the caller's dashboard *)

Import Store StoreFacts.

(** C1. Take any store, a dashboard in it whose document encodes, to a text
    the decoder accepts, and any variable map.  The call leaves every cell
    of the caller's store as it was, the dashboard struct and its document
    included, so the document encodes to the same text after the call as
    before.  The dashboard returned is another one: a new struct at a
    location the caller's store did not have, whose document was built anew
    from the encoded text (it encodes to that same text before the
    interpolation), and all that the copy refers to, before and after the
    interpolation, lies outside the caller's store. *)
Theorem C1_original_dashboard_untouched `{Collaborators} (variables : list (string * value))
    (h : store) (dashboard : loc) (d : DashboardStruct) (dashboardJSON : json) :
  h !! dashboard = Some (CDashboard d) →
  Encode h (dData d) = Some dashboardJSON →
  Decodes dashboardJSON = true →
  ∃ result h' copiedData h1,
    applyTemplateVariables variables h dashboard = Some (result, h')
    ∧ (∀ l c, h !! l = Some c → h' !! l = Some c)
    ∧ Encode h' (dData d) = Some dashboardJSON
    ∧ result ≠ dashboard
    ∧ h !! result = None
    ∧ extends h h'
    ∧ copyDashboard h d = Some (dashboardJSON, result, copiedData, h1)
    ∧ Encode h1 copiedData = Some dashboardJSON
    ∧ valFresh h copiedData
    ∧ h' !! result
      = Some (CDashboard {| dID := dID d; dUID := dUID d; dTitle := dTitle d;
                            dData := copiedData; dOrgID := dOrgID d |}).
Proof.
  intros Hd Henc Hdec. unfold applyTemplateVariables, copyDashboard.
  rewrite Hd, Henc, Hdec. cbn [negb]. set (t := dashboardJSON) in *.
  destruct (NewJson t h) as [copiedData h1] eqn:Hnew.
  destruct (NewJson_extends h t h copiedData h1 (extends_refl h) Hnew) as [Hext1 Hfresh].
  destruct (NewJson_encodes t h copiedData h1 Hnew) as [Hw1 Hcopy].
  set (result := fresh (dom h1)).
  set (copy := {| dID := dID d; dUID := dUID d; dTitle := dTitle d;
                  dData := copiedData; dOrgID := dOrgID d |}).
  set (h2 := <[result := CDashboard copy]> h1).
  assert (Hext2 : extends h h2) by (apply extends_alloc; assumption).
  assert (Hw2 : within h1 h2) by apply within_alloc.
  assert (Hres : h !! result = None).
  { destruct (h !! result) as [c|] eqn:Hl; [|reflexivity].
    exfalso. apply (is_fresh (dom h1)). apply elem_of_dom. exists c. apply Hext1, Hl. }
  destruct (interpolateVariablesInDashboard_extends h h2 variables
              (simplejson.depth t) copiedData h2 Hext2) as [Hext3 Hsame];
    [intros l c Hl; exact Hl|exact Hfresh|].
  set (h3 := interpolateVariablesInDashboard variables (simplejson.depth t) copiedData h2)
    in *.
  exists result, h3, copiedData, h2. split; [reflexivity|].
  split; [apply Hext3|]. split; [|split; [congruence|]].
  - unfold Encode in *. eapply encodeWith_mono; [apply Hext3| |exact Henc].
    apply le_n_S, map_subseteq_size, map_subseteq_spec. apply Hext3.
  - split; [exact Hres|]. split; [exact Hext3|]. split; [reflexivity|].
    split; [|split; [exact Hfresh|]].
    + unfold Encode. apply Hcopy; [exact Hw2|].
      pose proof (encodeWith_depth _ _ _ _ Henc) as Hdepth.
      assert (size h ≤ size h2)%nat; [|lia].
      apply map_subseteq_size, map_subseteq_spec. apply Hext2.
    + apply Hsame. unfold h2. apply lookup_insert_eq.
Qed.

(** The sample store: the copy is new, and the original encodes as before. *)
Lemma C1_original_dashboard_untouched_witness :
  Samples.sampleStore !! 9%positive = Some (CDashboard Samples.sampleDashboardStruct)
  ∧ ∃ dashboardJSON,
      Encode Samples.sampleStore (dData Samples.sampleDashboardStruct) = Some dashboardJSON
      ∧ @Decodes sampleCollaborators dashboardJSON = true
      ∧ ∃ result h',
          @applyTemplateVariables sampleCollaborators [("env", VString "prod")]
            Samples.sampleStore 9%positive
          = Some (result, h')
          ∧ result ≠ 9%positive
          ∧ Encode h' (dData Samples.sampleDashboardStruct) = Some dashboardJSON.
Proof.
  split; [reflexivity|].
  destruct (Encode Samples.sampleStore (dData Samples.sampleDashboardStruct))
    as [dashboardJSON|] eqn:Henc; [|vm_compute in Henc; discriminate].
  assert (Hdec : @Decodes sampleCollaborators dashboardJSON = true).
  { vm_compute in Henc. injection Henc as <-. vm_compute. reflexivity. }
  exists dashboardJSON. split; [reflexivity|]. split; [exact Hdec|].
  destruct (@C1_original_dashboard_untouched sampleCollaborators [("env", VString "prod")]
              Samples.sampleStore 9%positive Samples.sampleDashboardStruct dashboardJSON
              eq_refl Henc Hdec)
    as (result & h' & copiedData & h1 & Happly & _ & Hsame & Hne & _).
  exists result, h'. split; [exact Happly|]. split; [exact Hne|exact Hsame].
Defined.

(** The policy for a document that cannot be copied: when it does not
    encode, or encodes to a text that the decoder does not accept, the call
    returns the dashboard it was given and leaves the store as it is. *)
Lemma applyTemplateVariables_fails_soft `{Collaborators} (variables : list (string * value))
    (h : store) (dashboard : loc) (d : DashboardStruct) :
  h !! dashboard = Some (CDashboard d) →
  match Encode h (dData d) with
  | Some dashboardJSON => Decodes dashboardJSON = false
  | None => True
  end →
  applyTemplateVariables variables h dashboard = Some (dashboard, h).
Proof.
  intros Hd Hfail. unfold applyTemplateVariables, copyDashboard. rewrite Hd.
  destruct (Encode h (dData d)) as [t|]; [|reflexivity]. rewrite Hfail. reflexivity.
Qed.

(** A dashboard whose document contains itself does not encode, and the
    call returns the dashboard it was given, not a copy. *)
Example applyTemplateVariables_circular :
  Encode Samples.circularStore (RMap 1%positive) = None
  ∧ @applyTemplateVariables sampleCollaborators [("env", VString "prod")]
      Samples.circularStore 2%positive
    = Some (2%positive, Samples.circularStore).
Proof. vm_compute. split; reflexivity. Qed.

(** The sample store: the copy holds the interpolated document, the
    original is as it was. *)
Example applyTemplateVariables_sample :
  match @applyTemplateVariables sampleCollaborators [("env", VString "prod")]
          Samples.sampleStore 9%positive with
  | Some (result, h') =>
      match h' !! result with
      | Some (CDashboard copy) =>
          Encode h' (dData copy)
          = Some (JObj [("title", JStr "Service prod");
                        ("panels", JArr [
                           JObj [("id", JNum 1); ("title", JStr "prod");
                                 ("targets", JArr [JObj [("expr", JStr "up{env=prod}")]])]])])
          ∧ Encode h' (RMap 1%positive)
            = Some (JObj [("title", JStr "Service ${env}");
                          ("panels", JArr [
                             JObj [("id", JNum 1); ("title", JStr "$env");
                                   ("targets", JArr [JObj [("expr", JStr "up{env=${env}}")]])]])])
      | _ => False
      end
  | None => False
  end.
Proof. vm_compute. split; reflexivity. Qed.

(** A row nested in a row: the walk reaches the innermost panel. *)
Example applyTemplateVariables_nested :
  match @applyTemplateVariables sampleCollaborators [("env", VString "prod")]
          Samples.nestedStore 9%positive with
  | Some (result, h') =>
      match h' !! result with
      | Some (CDashboard copy) =>
          Encode h' (dData copy)
          = Some (JObj [("panels", JArr [
                     JObj [("type", JStr "row"); ("panels", JArr [
                        JObj [("type", JStr "row"); ("panels", JArr [
                           JObj [("title", JStr "prod")]])]])]])])
      | _ => False
      end
  | None => False
  end.
Proof. vm_compute. reflexivity. Qed.

(** ** The walk has the fuel it needs

    The walk over the panels recurses into nested panels with one unit of
    fuel less.  The fuel [applyTemplateVariables] gives it is the depth of
    the document, and that is enough: with more fuel the walk does the
    same.  The argument: the walk only writes strings into objects and
    writes back to an array what it has read from it, so whatever encoded
    before the walk, at some depth, encodes at that depth during the walk
    too. *)

Module WalkFuel.
Import Store StoreFacts.

Lemma fieldsKept_refl (m : list (string * val)) : fieldsKept m m.
Proof. apply List.Forall_forall. intros kv Hkv. left. exact Hkv. Qed.

Lemma fieldsKept_trans (m1 m2 m3 : list (string * val)) :
  fieldsKept m1 m2 → fieldsKept m2 m3 → fieldsKept m1 m3.
Proof.
  unfold fieldsKept. rewrite !List.Forall_forall. intros H12 H23 kv Hkv.
  destruct (H23 kv Hkv) as [Hin|Hstr]; [apply H12, Hin|right; exact Hstr].
Qed.

Lemma fieldsKept_setKey (key : string) (s : string) (m : list (string * val)) :
  fieldsKept m (setKey key (RStr s) m).
Proof.
  unfold fieldsKept. induction m as [|[k v] m IH]; simpl.
  - constructor; [right; eauto|constructor].
  - destruct (String.eqb k key).
    + constructor; [right; eauto|].
      apply List.Forall_forall. intros kv Hkv. left. right. exact Hkv.
    + constructor; [left; left; reflexivity|].
      eapply List.Forall_impl; [|exact IH]. intros kv [Hin|Hstr]; [left; right; exact Hin|].
      right. exact Hstr.
Qed.

Lemma benign_refl (h : store) : benign h h.
Proof.
  intros l. destruct (h !! l) as [[a|m|d]|]; auto.
  exists m. split; [reflexivity|apply fieldsKept_refl].
Qed.

Lemma benign_trans (h1 h2 h3 : store) : benign h1 h2 → benign h2 h3 → benign h1 h3.
Proof.
  intros H12 H23 l. specialize (H12 l). specialize (H23 l).
  destruct (h1 !! l) as [[a|m|d]|].
  - rewrite H12 in H23. exact H23.
  - destruct H12 as [m2 [Hm2 Hk2]]. rewrite Hm2 in H23.
    destruct H23 as [m3 [Hm3 Hk3]]. exists m3. split; [exact Hm3|].
    eapply fieldsKept_trans; eassumption.
  - rewrite H12 in H23. exact H23.
  - rewrite H12 in H23. exact H23.
Qed.

Lemma benign_SetIn_str (h : store) (j : val) (key s : string) :
  benign h (SetIn h j key (RStr s)).
Proof.
  destruct j as [| | | | |l]; simpl; try apply benign_refl.
  destruct (h !! l) as [[| m |]|] eqn:Hl; try apply benign_refl.
  intros l'. destruct (decide (l' = l)) as [->|Hne].
  - rewrite Hl, lookup_insert_eq. eexists. split; [reflexivity|apply fieldsKept_setKey].
  - rewrite lookup_insert_ne by congruence.
    destruct (h !! l') as [[a|m'|d]|]; auto.
    exists m'. split; [reflexivity|apply fieldsKept_refl].
Qed.

(** Writing back to an array what was read from it changes nothing. *)
Lemma SetIndex_back (h h' : store) (j : val) (i : nat) :
  benign h h' → SetIndex h' j i (arrayAt h j i) = h'.
Proof.
  intros Hb. destruct j as [| | | |l|]; simpl; try reflexivity.
  specialize (Hb l). destruct (h !! l) as [[a|m|d]|].
  - rewrite Hb. destruct (i <? length a)%nat eqn:Hi; [|reflexivity].
    apply Nat.ltb_lt in Hi. destruct (lookup_lt_is_Some_2 a i Hi) as [x Hx].
    rewrite Hx, (list_insert_id a i x Hx). apply insert_id. exact Hb.
  - destruct Hb as [m' [-> _]]. reflexivity.
  - rewrite Hb. reflexivity.
  - rewrite Hb. reflexivity.
Qed.

Lemma arrayLen_benign (h h' : store) (j : val) : benign h h' → arrayLen h' j = arrayLen h j.
Proof.
  intros Hb. destruct j as [| | | |l|]; simpl; try reflexivity.
  specialize (Hb l). destruct (h !! l) as [[a|m|d]|].
  - rewrite Hb. reflexivity.
  - destruct Hb as [m' [-> _]]. reflexivity.
  - rewrite Hb. reflexivity.
  - rewrite Hb. reflexivity.
Qed.

Section Benign.
Variable variables : list (string * value).

Lemma interpolateText_benign (obj : val) (key : string) (h : store) :
  benign h (interpolateText variables obj key h).
Proof.
  unfold interpolateText. destruct (negb (isNullVal (GetIn h obj key)));
    [apply benign_SetIn_str|apply benign_refl].
Qed.

Lemma interpolateStringField_benign (obj : val) (key : string) (h : store) :
  benign h (interpolateStringField variables obj key h).
Proof.
  unfold interpolateStringField.
  destruct (GetIn h obj key); try apply benign_refl. apply benign_SetIn_str.
Qed.

Lemma interpolateFields_benign (target : val) (fields : list string) (h : store) :
  benign h (fold_left (λ h field, interpolateStringField variables target field h) fields h).
Proof.
  revert h. induction fields as [|f fs IH]; intros h; simpl; [apply benign_refl|].
  eapply benign_trans; [apply interpolateStringField_benign|apply IH].
Qed.

Lemma interpolateVariablesInTarget_benign (target : val) (h : store) :
  benign h (interpolateVariablesInTarget variables target h).
Proof.
  unfold interpolateVariablesInTarget. cbv zeta.
  destruct (negb (isNullVal _)); [|apply interpolateFields_benign].
  eapply benign_trans; [apply interpolateFields_benign|apply interpolateStringField_benign].
Qed.

(** A loop that walks each element and writes it back. *)
Lemma rangeArray_benign (arr : val) (walk : val → store → store) (h : store) :
  (∀ x h, benign h (walk x h)) →
  benign h (rangeArray arr (λ i x h, SetIndex (walk x h) arr i x) h).
Proof.
  intros Hwalk. unfold rangeArray.
  generalize (seq 0 (arrayLen h arr)). intros idx.
  assert (Hgen : ∀ hc, benign h hc →
    benign h (fold_left (λ h i, SetIndex (walk (arrayAt h arr i) h) arr i (arrayAt h arr i))
                idx hc)); [|apply Hgen, benign_refl].
  induction idx as [|i idx IH]; intros hc Hc; simpl; [exact Hc|].
  apply IH. rewrite SetIndex_back by apply Hwalk.
  eapply benign_trans; [exact Hc|apply Hwalk].
Qed.

Lemma interpolateVariablesInPanel_benign (fuel : nat) (panel : val) (h : store) :
  benign h (interpolateVariablesInPanel variables fuel panel h).
Proof.
  revert panel h. induction fuel as [|fuel IH]; intros panel h; [apply benign_refl|].
  simpl.
  set (h1 := interpolateText variables panel "title" h).
  set (h2 := interpolateText variables panel "description" h1).
  set (h3 := if negb (isNullVal (GetIn h2 panel "datasource")) then _ else h2).
  set (h4 := if negb (isNullVal (GetIn h3 panel "targets")) then _ else h3).
  assert (H2 : benign h h2).
  { eapply benign_trans; apply interpolateText_benign. }
  assert (H3 : benign h h3).
  { eapply benign_trans; [exact H2|]. subst h3.
    destruct (negb (isNullVal (GetIn h2 panel "datasource")));
      [apply interpolateStringField_benign|apply benign_refl]. }
  assert (H4 : benign h h4).
  { eapply benign_trans; [exact H3|]. subst h4.
    destruct (negb (isNullVal (GetIn h3 panel "targets"))); [|apply benign_refl].
    apply (rangeArray_benign _ (interpolateVariablesInTarget variables)).
    intros x hx. apply interpolateVariablesInTarget_benign. }
  destruct (negb (isNullVal (GetIn h4 panel "panels"))); [|exact H4].
  eapply benign_trans; [exact H4|].
  apply (rangeArray_benign _ (interpolateVariablesInPanel variables fuel)).
  intros x hx. apply IH.
Qed.

End Benign.

(** *** What encodes, encodes during the walk *)

Lemma fits_scalar (n : nat) (h : store) (v : val) :
  (∀ l, v ≠ RArr l) → (∀ l, v ≠ RMap l) → fits n h v.
Proof.
  intros Ha Hm. unfold fits.
  destruct v as [| | | |l|l];
    [| | | |exfalso; exact (Ha l eq_refl)|exfalso; exact (Hm l eq_refl)];
    destruct n; simpl; eauto.
Qed.

Lemma fits_mono (n n' : nat) (h : store) (v : val) :
  (n ≤ n')%nat → fits n h v → fits n' h v.
Proof.
  intros Hle [t Ht]. exists t. eapply encodeWith_mono; [|exact Hle|exact Ht]. auto.
Qed.

Lemma fits_array (n : nat) (h : store) (l : loc) :
  fits (S n) h (RArr l) ↔ ∃ a, h !! l = Some (CArr a) ∧ Forall (fits n h) a.
Proof.
  unfold fits. simpl. split.
  - intros Hs. destruct (h !! l) as [[a| |]|]; try (destruct Hs; discriminate).
    exists a. split; [reflexivity|]. apply fmap_is_Some in Hs.
    apply mapM_is_Some in Hs. exact Hs.
  - intros [a [-> Ha]]. apply fmap_is_Some, mapM_is_Some. exact Ha.
Qed.

Lemma fits_map (n : nat) (h : store) (l : loc) :
  fits (S n) h (RMap l)
  ↔ ∃ m, h !! l = Some (CMap m) ∧ Forall (λ kv : string * val, fits n h kv.2) m.
Proof.
  unfold fits. simpl. split.
  - intros Hs. destruct (h !! l) as [[| m |]|]; try (destruct Hs; discriminate).
    exists m. split; [reflexivity|]. apply fmap_is_Some in Hs.
    apply mapM_is_Some in Hs. eapply List.Forall_impl; [|exact Hs].
    intros kv Hkv. simpl in Hkv. apply fmap_is_Some in Hkv. exact Hkv.
  - intros [m [-> Hm]]. apply fmap_is_Some, mapM_is_Some.
    eapply List.Forall_impl; [|exact Hm]. intros kv Hkv. simpl. apply fmap_is_Some. exact Hkv.
Qed.

Lemma fits_zero (h : store) (v : val) :
  fits 0 h v → (∀ l, v ≠ RArr l) ∧ (∀ l, v ≠ RMap l).
Proof. intros [t Ht]. destruct v; simpl in Ht; try discriminate; split; discriminate. Qed.

Lemma fits_benign (h h' : store) :
  benign h h' → ∀ n v, fits n h v → fits n h' v.
Proof.
  intros Hb. induction n as [|n IH]; intros v Hv.
  - destruct (fits_zero _ _ Hv). apply fits_scalar; assumption.
  - destruct v as [| | | |l|l]; try (apply fits_scalar; discriminate).
    + apply fits_array in Hv as [a [Hl Ha]]. apply fits_array.
      specialize (Hb l). rewrite Hl in Hb. exists a. split; [exact Hb|].
      eapply List.Forall_impl; [|exact Ha]. intros x Hx. apply IH, Hx.
    + apply fits_map in Hv as [m [Hl Hm]]. apply fits_map.
      specialize (Hb l). rewrite Hl in Hb. destruct Hb as [m' [Hl' Hkept]].
      exists m'. split; [exact Hl'|].
      unfold fieldsKept in Hkept. rewrite List.Forall_forall in Hkept, Hm |- *.
      intros kv Hkv. destruct (Hkept kv Hkv) as [Hin|[s Hs]].
      * apply IH, Hm, Hin.
      * rewrite Hs. apply fits_scalar; discriminate.
Qed.

Lemma lookupKey_In (key : string) (m : list (string * val)) (v : val) :
  lookupKey key m = Some v → ∃ k, In (k, v) m.
Proof.
  induction m as [|[k x] m IH]; simpl; [discriminate|].
  destruct (String.eqb k key).
  - intros [= <-]. exists k. left. reflexivity.
  - intros Hl. destruct (IH Hl) as [k' Hk']. exists k'. right. exact Hk'.
Qed.

Lemma fits_GetIn (n : nat) (h : store) (j : val) (key : string) :
  fits (S n) h j → fits n h (GetIn h j key).
Proof.
  intros Hj. destruct j as [| | | | |l]; simpl; try (apply fits_scalar; discriminate).
  apply fits_map in Hj as [m [-> Hm]].
  destruct (lookupKey key m) as [v|] eqn:Hk; [|apply fits_scalar; discriminate].
  destruct (lookupKey_In _ _ _ Hk) as [k Hin].
  rewrite List.Forall_forall in Hm. exact (Hm _ Hin).
Qed.

Lemma fits_arrayAt (n : nat) (h : store) (j : val) (i : nat) :
  fits n h j → fits n h (arrayAt h j i).
Proof.
  intros Hj. destruct j as [| | | |l|]; simpl; try (apply fits_scalar; discriminate).
  destruct n as [|n]; [destruct (fits_zero _ _ Hj) as [Ha _]; exfalso; exact (Ha l eq_refl)|].
  apply fits_array in Hj as [a [-> Ha]].
  destruct (a !! i) as [x|] eqn:Hi; [|apply fits_scalar; discriminate].
  apply (fits_mono n); [lia|]. rewrite Forall_lookup in Ha. exact (Ha i x Hi).
Qed.

(** *** More fuel, the same walk *)

Section Fuel.
Variable variables : list (string * value).

Lemma rangeArray_fuel (arr : val) (walk1 walk2 : val → store → store) (h : store) :
  (∀ x hc, benign hc (walk1 x hc)) →
  (∀ i hc, benign h hc → walk1 (arrayAt hc arr i) hc = walk2 (arrayAt hc arr i) hc) →
  rangeArray arr (λ i x h, SetIndex (walk1 x h) arr i x) h
  = rangeArray arr (λ i x h, SetIndex (walk2 x h) arr i x) h.
Proof.
  intros Hb Heq. unfold rangeArray.
  generalize (seq 0 (arrayLen h arr)). intros idx.
  assert (Hgen : ∀ hc, benign h hc →
    fold_left (λ h i, SetIndex (walk1 (arrayAt h arr i) h) arr i (arrayAt h arr i)) idx hc
    = fold_left (λ h i, SetIndex (walk2 (arrayAt h arr i) h) arr i (arrayAt h arr i)) idx hc);
    [|apply Hgen, benign_refl].
  induction idx as [|i idx IH]; intros hc Hc; simpl; [reflexivity|].
  rewrite <- (Heq i hc Hc). apply IH.
  rewrite SetIndex_back by apply Hb.
  eapply benign_trans; [exact Hc|apply Hb].
Qed.

Lemma interpolateVariablesInPanel_scalar (fuel : nat) (panel : val) (h : store) :
  (∀ l, panel ≠ RMap l) → interpolateVariablesInPanel variables fuel panel h = h.
Proof.
  intros Hm. destruct fuel as [|fuel]; [reflexivity|].
  destruct panel as [| | | | |l]; try reflexivity. exfalso. exact (Hm l eq_refl).
Qed.

(** A panel that encodes with the fuel [n] is walked in the same way with
    any fuel from [n] on. *)
Lemma interpolateVariablesInPanel_fuel (n : nat) :
  ∀ panel h m m', fits n h panel → (n ≤ m)%nat → (n ≤ m')%nat →
    interpolateVariablesInPanel variables m panel h
    = interpolateVariablesInPanel variables m' panel h.
Proof.
  induction n as [|n IH]; intros panel h m m' Hfit Hm Hm'.
  - destruct (fits_zero _ _ Hfit) as [_ Hnomap].
    rewrite !interpolateVariablesInPanel_scalar by exact Hnomap. reflexivity.
  - destruct m as [|m]; [lia|]. destruct m' as [|m']; [lia|]. simpl.
    set (h1 := interpolateText variables panel "title" h).
    set (h2 := interpolateText variables panel "description" h1).
    set (h3 := if negb (isNullVal (GetIn h2 panel "datasource")) then _ else h2).
    set (h4 := if negb (isNullVal (GetIn h3 panel "targets")) then _ else h3).
    assert (H4 : benign h h4).
    { eapply benign_trans; [apply interpolateText_benign|]. fold h1.
      eapply benign_trans; [apply interpolateText_benign|]. fold h2.
      eapply benign_trans.
      - instantiate (1 := h3). subst h3.
        destruct (negb (isNullVal (GetIn h2 panel "datasource")));
          [apply interpolateStringField_benign|apply benign_refl].
      - subst h4. destruct (negb (isNullVal (GetIn h3 panel "targets"))); [|apply benign_refl].
        apply (rangeArray_benign _ (interpolateVariablesInTarget variables)).
        intros x hx. apply interpolateVariablesInTarget_benign. }
    destruct (negb (isNullVal (GetIn h4 panel "panels"))); [|reflexivity].
    apply (rangeArray_fuel _ (interpolateVariablesInPanel variables m)
             (interpolateVariablesInPanel variables m')).
    + intros x hc. apply interpolateVariablesInPanel_benign.
    + intros i hc Hc. apply IH; [|lia|lia].
      apply fits_arrayAt. apply (fits_benign h4 hc Hc).
      apply fits_GetIn. apply (fits_benign h h4 H4). exact Hfit.
Qed.

(** A document that encodes with the fuel [n] is walked in the same way
    with any fuel from [n] on. *)
Lemma interpolateVariablesInDashboard_fuel (n m : nat) (dashboard : val) (h : store) :
  fits n h dashboard → (n ≤ m)%nat →
  interpolateVariablesInDashboard variables n dashboard h
  = interpolateVariablesInDashboard variables m dashboard h.
Proof.
  intros Hfit Hm. unfold interpolateVariablesInDashboard. cbv zeta.
  set (h1 := interpolateText variables dashboard "title" h).
  assert (H1 : benign h h1) by apply interpolateText_benign.
  assert (Hpanels :
    (if negb (isNullVal (GetIn h1 dashboard "panels"))
     then rangeArray (GetIn h1 dashboard "panels")
            (λ i panel h, SetIndex (interpolateVariablesInPanel variables n panel h)
                            (GetIn h1 dashboard "panels") i panel) h1
     else h1)
    = (if negb (isNullVal (GetIn h1 dashboard "panels"))
       then rangeArray (GetIn h1 dashboard "panels")
              (λ i panel h, SetIndex (interpolateVariablesInPanel variables m panel h)
                              (GetIn h1 dashboard "panels") i panel) h1
       else h1)).
  { destruct (negb (isNullVal (GetIn h1 dashboard "panels"))); [|reflexivity].
    apply (rangeArray_fuel _ (interpolateVariablesInPanel variables n)
             (interpolateVariablesInPanel variables m)).
    - intros x hc. apply interpolateVariablesInPanel_benign.
    - intros i hc Hc.
      destruct n as [|n].
      + destruct (fits_zero _ _ Hfit) as [_ Hnomap].
        assert (Hnull : GetIn h1 dashboard "panels" = RNull).
        { destruct dashboard as [| | | | |l]; try reflexivity.
          exfalso. exact (Hnomap l eq_refl). }
        rewrite Hnull. simpl.
        rewrite !interpolateVariablesInPanel_scalar by discriminate. reflexivity.
      + apply (interpolateVariablesInPanel_fuel n); [|lia|lia].
        apply fits_arrayAt. apply (fits_benign h1 hc Hc).
        apply fits_GetIn. apply (fits_benign h h1 H1). exact Hfit. }
  rewrite Hpanels. reflexivity.
Qed.

(** The walk of [applyTemplateVariables] over the copy does not run out of
    fuel: with any more fuel it gives the same store. *)
Lemma applyTemplateVariables_fuel `{Collaborators} (h : store) (d : DashboardStruct)
    (dashboardJSON : json)
    (dashboardCopy : loc) (copiedData : val) (h1 : store) (m : nat) :
  copyDashboard h d = Some (dashboardJSON, dashboardCopy, copiedData, h1) →
  (simplejson.depth dashboardJSON ≤ m)%nat →
  interpolateVariablesInDashboard variables (simplejson.depth dashboardJSON) copiedData h1
  = interpolateVariablesInDashboard variables m copiedData h1.
Proof.
  unfold copyDashboard. intros Hcopy Hm.
  destruct (Encode h (dData d)) as [t|]; [|discriminate].
  destruct (Decodes t); cbn [negb] in Hcopy; [|discriminate].
  destruct (NewJson t h) as [v h'] eqn:Hnew.
  injection Hcopy as <- <- <- <-.
  apply interpolateVariablesInDashboard_fuel; [|exact Hm].
  destruct (NewJson_encodes t h v h' Hnew) as [_ Henc].
  exists t. apply Henc; [apply within_alloc|lia].
Qed.

End Fuel.

End WalkFuel.

(** ** The interpolator: placeholders in their context *)

Import Placeholders.

Lemma append_assoc (a b c : string) : (a +:+ b) +:+ c = a +:+ (b +:+ c).
Proof.
  induction a as [|x a IH]; [reflexivity|].
  change (String x ((a +:+ b) +:+ c) = String x (a +:+ (b +:+ c))). f_equal. exact IH.
Qed.

Lemma append_inj_l (a b c : string) : a +:+ b = a +:+ c → b = c.
Proof.
  induction a as [|x a IH]; [auto|].
  change (String x (a +:+ b) = String x (a +:+ c) → b = c). intros [= Heq]. auto.
Qed.

Lemma dollarFree_app (a b : string) :
  dollarFree (a +:+ b) = dollarFree a && dollarFree b.
Proof.
  induction a as [|x a IH]; [reflexivity|].
  change (negb (Ascii.eqb x "$") && dollarFree (a +:+ b)
          = negb (Ascii.eqb x "$") && dollarFree a && dollarFree b).
  rewrite IH, andb_assoc. reflexivity.
Qed.

Lemma HasPrefix_app (lit rest : string) : HasPrefix (lit +:+ rest) lit = true.
Proof.
  induction lit as [|x lit IH]; [destruct rest; reflexivity|].
  change (Ascii.eqb x x && HasPrefix (lit +:+ rest) lit = true).
  rewrite Ascii.eqb_refl. exact IH.
Qed.

Lemma byteAt_app (lit rest : string) :
  byteAt (String.length lit) (lit +:+ rest) = byteAt 0 rest.
Proof. induction lit as [|x lit IH]; [reflexivity|exact IH]. Qed.

Lemma wordOnly_dollarFree (s : string) : wordOnly s = true → dollarFree s = true.
Proof.
  induction s as [|c s IH]; [reflexivity|]. simpl.
  intros Hw. apply andb_true_iff in Hw as [Hc Hs]. rewrite (IH Hs), andb_true_r.
  destruct (Ascii.eqb_spec c "$") as [->|]; [discriminate|reflexivity].
Qed.

Lemma wordOnly_lastByte (c : ascii) (s : string) :
  wordOnly s = true → s ≠ EmptyString → isWordAt (lastByte (String c s)) = true.
Proof.
  revert c. induction s as [|d s IH]; intros c Hw Hne; [congruence|].
  simpl in Hw. apply andb_true_iff in Hw as [Hd Hs].
  change (lastByte (String c (String d s))) with (lastByte (String d s)).
  destruct s as [|e s]; [exact Hd|]. apply IH; [exact Hs|discriminate].
Qed.

Lemma HasPrefix_brace_word (c : ascii) (r x : string) :
  Ascii.eqb "{" c = false → HasPrefix (String "$" (String c r)) ("${" +:+ x) = false.
Proof.
  intros Hc. change ("${" +:+ x) with (String "$" (String "{" x)).
  cbn [HasPrefix]. rewrite Hc, andb_false_r. reflexivity.
Qed.

(** A [$]-free stretch at the start of the source is copied by a pass for a
    pattern that starts with [$]. *)
Lemma replaceAll_prefix (p : Pattern) (repl pre s lit : string) :
  literal p = String "$" lit → dollarFree pre = true →
  replaceAll p repl 0 (pre +:+ s) = pre +:+ replaceAll p repl 0 s.
Proof.
  intros Hlit. induction pre as [|c r IH]; [reflexivity|].
  intros Hf. simpl in Hf. apply andb_true_iff in Hf as [Hc Hr].
  change (String c r +:+ s) with (String c (r +:+ s)).
  rewrite replaceAll_no_match; [rewrite (IH Hr); reflexivity|].
  unfold matchesAt. rewrite Hlit.
  change (HasPrefix (String c (r +:+ s)) (String "$" lit))
    with (Ascii.eqb "$" c && HasPrefix (r +:+ s) lit).
  rewrite Ascii.eqb_sym. apply negb_true_iff in Hc. rewrite Hc. reflexivity.
Qed.

Lemma substituteVariable_prefix (pre s : string) (kv : string * value) :
  dollarFree pre = true →
  substituteVariable (pre +:+ s) kv = pre +:+ substituteVariable s kv.
Proof.
  intros Hf. destruct kv as [k v].
  assert (Hpass : ∀ repl,
            ReplaceAllString (simplePattern k)
              (ReplaceAllString (bracePattern k) (pre +:+ s) repl) repl
            = pre +:+ ReplaceAllString (simplePattern k)
                        (ReplaceAllString (bracePattern k) s repl) repl).
  { intros repl. unfold ReplaceAllString.
    rewrite (replaceAll_prefix (bracePattern k) _ pre s ("{" +:+ k +:+ "}"));
      [|reflexivity|exact Hf].
    apply (replaceAll_prefix (simplePattern k) _ pre _ k); [reflexivity|exact Hf]. }
  destruct v; try apply Hpass. reflexivity.
Qed.

(** X1. Interpolation never changes the text before the first [$]: a
    stretch without [$] at the start of the text is copied to the output,
    and the rest is interpolated as if it stood alone, whatever the
    variables. *)
Theorem text_before_first_dollar_kept (pre s : string) (variables : list (string * value)) :
  dollarFree pre = true →
  interpolateVariables (pre +:+ s) variables = pre +:+ interpolateVariables s variables.
Proof.
  intros Hf. revert s. induction variables as [|kv vars IH]; intros s; [reflexivity|].
  change (interpolateVariables (substituteVariable (pre +:+ s) kv) vars
          = pre +:+ interpolateVariables (substituteVariable s kv) vars).
  rewrite substituteVariable_prefix by exact Hf. apply IH.
Qed.

Lemma text_before_first_dollar_kept_witness :
  dollarFree "rate(" = true
  ∧ interpolateVariables ("rate(" +:+ "$metric[5m])") [("metric", VString "up")]
    = "rate(" +:+ interpolateVariables "$metric[5m])" [("metric", VString "up")].
Proof.
  split; [reflexivity|].
  apply (text_before_first_dollar_kept "rate(" "$metric[5m])" [("metric", VString "up")]).
  reflexivity.
Defined.

Lemma substituteVariable_passes (text k : string) (v : value) :
  isNil v = false →
  substituteVariable text (k, v)
  = ReplaceAllString (simplePattern k)
      (ReplaceAllString (bracePattern k) text (variableValueToString v))
      (variableValueToString v).
Proof. intros Hv. destruct v; try reflexivity. discriminate. Qed.

(** X2. A placeholder [${name}] between two stretches of text without [$]
    is replaced by the rendered value of the variable, when that has no [$]
    either, and the text around it is kept: the surrounding query is not
    touched. *)
Theorem brace_placeholder_replaced_in_context (pre post k : string) (v : value) :
  isNil v = false →
  dollarFree (variableValueToString v) = true →
  dollarFree pre = true → dollarFree post = true →
  interpolateVariables (pre +:+ "${" +:+ k +:+ "}" +:+ post) [(k, v)]
  = pre +:+ variableValueToString v +:+ post.
Proof.
  intros Hv Hval Hpre Hpost.
  rewrite text_before_first_dollar_kept by exact Hpre. f_equal.
  unfold interpolateVariables. cbn [fold_left].
  rewrite substituteVariable_passes by exact Hv.
  unfold ReplaceAllString. rewrite !expand_dollarFree by exact Hval.
  set (repl := variableValueToString v) in *.
  assert (Hsrc : "${" +:+ k +:+ "}" +:+ post = literal (bracePattern k) +:+ post).
  { unfold bracePattern. cbn [literal]. rewrite <- !append_assoc. reflexivity. }
  rewrite Hsrc.
  destruct (replaceAll_match (bracePattern k) repl (literal (bracePattern k) +:+ post))
    as [rest [Hrest ->]].
  - unfold matchesAt. rewrite HasPrefix_app. reflexivity.
  - discriminate.
  - apply append_inj_l in Hrest. subst rest.
    rewrite (replaceAll_dollarFree (bracePattern k) _ post ("{" +:+ k +:+ "}"))
      by (reflexivity || exact Hpost).
    apply (replaceAll_dollarFree (simplePattern k) _ _ k); [reflexivity|].
    rewrite dollarFree_app, Hval, Hpost. reflexivity.
Qed.

Lemma brace_placeholder_replaced_in_context_witness :
  interpolateVariables ("up{job=" +:+ "${" +:+ "job" +:+ "}" +:+ "} > 0") [("job", VString "api")]
  = "up{job=" +:+ "api" +:+ "} > 0".
Proof.
  apply (brace_placeholder_replaced_in_context "up{job=" "} > 0" "job" (VString "api"));
    reflexivity.
Defined.

(** X3. The word boundary of the form [$name], for a name made of letters,
    digits and underscores: between two stretches of text without [$] the
    placeholder is replaced when the text goes on with a byte that is no
    word byte, or ends; it is left as it is when a word byte follows, so
    [$var] is not replaced inside [$variable]. *)
Theorem simple_placeholder_word_boundary (pre post k : string) (v : value) :
  wordOnly k = true → k ≠ EmptyString →
  isNil v = false →
  dollarFree (variableValueToString v) = true →
  dollarFree pre = true → dollarFree post = true →
  interpolateVariables (pre +:+ "$" +:+ k +:+ post) [(k, v)]
  = if isWordAt (byteAt 0 post)
    then pre +:+ "$" +:+ k +:+ post
    else pre +:+ variableValueToString v +:+ post.
Proof.
  intros Hk Hne Hv Hval Hpre Hpost.
  rewrite text_before_first_dollar_kept by exact Hpre.
  assert (Hgoal : interpolateVariables ("$" +:+ k +:+ post) [(k, v)]
                  = if isWordAt (byteAt 0 post) then "$" +:+ k +:+ post
                    else variableValueToString v +:+ post);
    [|rewrite Hgoal; destruct (isWordAt (byteAt 0 post)); reflexivity].
  unfold interpolateVariables. cbn [fold_left].
  rewrite substituteVariable_passes by exact Hv.
  unfold ReplaceAllString. rewrite !expand_dollarFree by exact Hval.
  set (repl := variableValueToString v) in *.
  assert (Htail : dollarFree (k +:+ post) = true).
  { rewrite dollarFree_app, (wordOnly_dollarFree k Hk), Hpost. reflexivity. }
  (* the pass for the brace form finds nothing *)
  assert (Hbrace : replaceAll (bracePattern k) repl 0 ("$" +:+ k +:+ post)
                   = "$" +:+ k +:+ post).
  { change ("$" +:+ k +:+ post) with (String "$" (k +:+ post)).
    rewrite replaceAll_no_match.
    - f_equal. apply (replaceAll_dollarFree (bracePattern k) _ _ ("{" +:+ k +:+ "}"));
        [reflexivity|exact Htail].
    - unfold matchesAt, bracePattern. cbn [literal wordBoundary].
      destruct k as [|c k']; [congruence|].
      simpl in Hk. apply andb_true_iff in Hk as [Hc _].
      assert (Hno : HasPrefix (String "$" (String c k' +:+ post))
                      ("${" +:+ String c k' +:+ "}") = false);
        [|rewrite Hno; reflexivity].
      apply (HasPrefix_brace_word c (k' +:+ post)).
      destruct (Ascii.eqb_spec "{" c) as [<-|]; [discriminate|reflexivity]. }
  rewrite Hbrace.
  assert (Hsrc : "$" +:+ k +:+ post = literal (simplePattern k) +:+ post).
  { unfold simplePattern. cbn [literal]. rewrite <- !append_assoc. reflexivity. }
  assert (Hm : matchesAt (simplePattern k) ("$" +:+ k +:+ post)
               = negb (isWordAt (byteAt 0 post))).
  { rewrite Hsrc. unfold matchesAt. rewrite HasPrefix_app, byteAt_app.
    unfold simplePattern. cbn [wordBoundary literal andb].
    change ("$" +:+ k) with (String "$" k).
    rewrite (wordOnly_lastByte "$" k Hk Hne). reflexivity. }
  destruct (isWordAt (byteAt 0 post)) eqn:Hnext.
  - change ("$" +:+ k +:+ post) with (String "$" (k +:+ post)) in *.
    rewrite replaceAll_no_match by exact Hm. f_equal.
    apply (replaceAll_dollarFree (simplePattern k) _ _ k); [reflexivity|exact Htail].
  - destruct (replaceAll_match (simplePattern k) repl ("$" +:+ k +:+ post))
      as [rest [Hrest ->]]; [exact Hm|discriminate|].
    rewrite Hsrc in Hrest. apply append_inj_l in Hrest. subst rest. f_equal.
    apply (replaceAll_dollarFree (simplePattern k) _ _ k); [reflexivity|exact Hpost].
Qed.

Lemma simple_placeholder_word_boundary_witness :
  interpolateVariables ("This has " +:+ "$" +:+ "var" +:+ "iable") [("var", VString "test")]
  = "This has " +:+ "$" +:+ "var" +:+ "iable"
  ∧ interpolateVariables ("not " +:+ "$" +:+ "var" +:+ ".") [("var", VString "test")]
    = "not " +:+ "test" +:+ ".".
Proof.
  split.
  - apply (simple_placeholder_word_boundary "This has " "iable" "var" (VString "test"));
      reflexivity || discriminate.
  - apply (simple_placeholder_word_boundary "not " "." "var" (VString "test"));
      reflexivity || discriminate.
Defined.

Lemma collectStrings_elements (l : list value) (acc : list string) :
  collectStrings l acc = (acc ++ stringElements l)%list.
Proof.
  revert acc. induction l as [|x l IH]; intros acc; simpl.
  - rewrite app_nil_r. reflexivity.
  - destruct x; simpl; rewrite IH; try reflexivity.
    rewrite <- app_assoc. reflexivity.
Qed.

(** X4. A multi-value variable is rendered as its string elements joined by
    commas, whatever else the sequence holds: an element that is no string
    (a number, a boolean, null, a nested sequence) is left out, and a
    sequence without any string is rendered as the empty text. *)
Theorem multi_value_renders_its_strings (l : list value) :
  variableValueToString (VSlice l) = Join (stringElements l) ",".
Proof.
  unfold variableValueToString. rewrite collectStrings_elements. simpl app.
  destruct (stringElements l); reflexivity.
Qed.

(** ** C7: how a value is rendered, and how it is put in *)









(** ** The extraction: what is filed, under which id, and what it fails on *)

Import QueryNotions.

Lemma lookupField_delField_ne (k key : string) (m : list (string * json)) :
  k ≠ key → lookupField k (delField key m) = lookupField k m.
Proof.
  intros Hne. induction m as [|[k' v'] m IH]; simpl; [reflexivity|].
  destruct (String.eqb_spec k' key) as [->|Hk]; simpl.
  - destruct (String.eqb_spec key k); [congruence|exact IH].
  - destruct (String.eqb_spec k' k); [reflexivity|exact IH].
Qed.

Lemma CheckGet_Del_ne (j : json) (k key : string) :
  k ≠ key → CheckGet (Del j key) k = CheckGet j k.
Proof. intros Hne. destruct j; simpl; try reflexivity. apply lookupField_delField_ne, Hne. Qed.

(** A map filled by insertions, one per element of a list: under a key is
    what the last element with that key put there. *)
Lemma fold_insert_lookup {A B} (f : A → Z) (g : A → B) (l : list A) (r : gmap Z B) (k : Z) :
  fold_left (λ r x, <[f x := g x]> r) l r !! k
  = match last (List.filter (λ x, f x =? k) l) with
    | Some x => Some (g x)
    | None => r !! k
    end.
Proof.
  revert r. induction l as [|x l IH]; intros r; [reflexivity|].
  cbn [fold_left List.filter]. rewrite IH.
  destruct (Z.eqb_spec (f x) k) as [Hk|Hk].
  - destruct (List.filter (λ x, f x =? k) l) as [|y l'] eqn:Hf.
    + simpl. rewrite Hk, lookup_insert_eq. reflexivity.
    + change (last (x :: y :: l')) with (last (y :: l')).
      destruct (last (y :: l')) eqn:Hl; [reflexivity|].
      apply last_None in Hl. discriminate.
  - destruct (last (List.filter (λ x, f x =? k) l)); [reflexivity|].
    apply lookup_insert_ne. exact Hk.
Qed.

Section ExtractionOrder.
Context `{Collaborators}.

Lemma fold_left_flat_map {A B C} (step : C → B → C) (expand_ : A → list B) (l : list A) (c : C) :
  fold_left step (flat_map expand_ l) c
  = fold_left (λ c x, fold_left step (expand_ x) c) l c.
Proof.
  revert c. induction l as [|x l IH]; intros c; [reflexivity|].
  simpl. rewrite fold_left_app. apply IH.
Qed.

(** The extraction is the filing of the panels in their visiting order. *)
Lemma extractQueriesFromPanels_visitOrder (n : nat) (panels : list json)
    (result : gmap Z (list json)) :
  extractQueriesFromPanels n panels result
  = fold_left (λ result panel, <[MustInt64 (Get panel "id") := panelQueries panel]> result)
      (visitOrder n panels) result.
Proof.
  revert panels result. induction n as [|n IH]; intros panels result; [reflexivity|].
  cbn [extractQueriesFromPanels visitOrder]. rewrite fold_left_flat_map.
  apply fold_left_ext_elem. intros r p _.
  destruct (isCollapsedRow p); [apply IH|reflexivity].
Qed.

(** With enough fuel the visiting order lists the visited panels. *)
Lemma visitOrder_visited (n : nat) (panels : list json) (panel : json) :
  enough n panels → (In panel (visitOrder n panels) ↔ visited panels panel).
Proof.
  revert panels. induction n as [|n IH]; intros panels Hen.
  - destruct panels as [|p ps]; [|specialize (Hen p (or_introl eq_refl)); lia].
    split; [intros []|]. intros Hv. inversion Hv; subst; contradiction.
  - cbn [visitOrder]. rewrite in_flat_map. split.
    + intros [p [Hp Hin]]. destruct (isCollapsedRow p) eqn:Hrow.
      * eapply visited_nested; [exact Hp|exact Hrow|].
        apply IH; [eapply enough_nested; eassumption|exact Hin].
      * destruct Hin as [<-|[]]. apply visited_here; assumption.
    + intros Hv. inversion Hv as [? ? Hin Hrow|? row ? Hin Hrow Hnested]; subst.
      * exists panel. rewrite Hrow. split; [exact Hin|left; reflexivity].
      * exists row. rewrite Hrow. split; [exact Hin|].
        apply IH; [eapply enough_nested; eassumption|exact Hnested].
Qed.

(** X5. The extraction for the v1 schema files the queries of each visited
    panel under the id of the panel, in the order of the document with a
    collapsed row replaced by the panels nested in it; when several visited
    panels share an id, the last of them in that order is the one whose
    queries are found under the id, and an id that no visited panel has is
    not in the map. *)
Theorem last_panel_with_an_id_wins (dashboard : json) (panelID : Z) :
  let order := visitOrder (depth dashboard) (MustArray (Get dashboard "panels")) in
  (∀ panel, In panel order ↔ visited (MustArray (Get dashboard "panels")) panel)
  ∧ groupQueriesByPanelId dashboard !! panelID
    = panelQueries <$> last (List.filter (λ panel, MustInt64 (Get panel "id") =? panelID) order).
Proof.
  intros order. split.
  - intros panel. apply visitOrder_visited, enough_dashboard.
  - unfold groupQueriesByPanelId. rewrite extractQueriesFromPanels_visitOrder.
    rewrite (fold_insert_lookup (λ panel, MustInt64 (Get panel "id")) panelQueries).
    fold order. rewrite lookup_empty.
    destruct (last _); reflexivity.
Qed.

(** X6. What the extraction does to a query it files: every query found in
    the map of the v1 schema comes from a target of a visited panel with
    that id, and differs from the target in two fields only.  The exemplar
    field is gone.  The datasource is the target's own when the target has
    the key; a target without it, if it is an object, gets the datasource of
    type public-ds with the uid of the datasource of its panel.  Every other
    field is as in the target. *)
Theorem extracted_query_keeps_its_fields (dashboard : json) (panelID : Z)
    (queries : list json) (query : json) :
  groupQueriesByPanelId dashboard !! panelID = Some queries →
  In query queries →
  ∃ panel target,
    visited (MustArray (Get dashboard "panels")) panel
    ∧ MustInt64 (Get panel "id") = panelID
    ∧ In target (MustArray (Get panel "targets"))
    ∧ (∀ key, key ≠ "exemplar" → key ≠ "datasource" →
              CheckGet query key = CheckGet target key)
    ∧ CheckGet query "exemplar" = None
    ∧ CheckGet query "datasource"
      = match CheckGet target "datasource", target with
        | Some datasource, _ => Some datasource
        | None, JObj _ =>
            Some (JObj [("type", JStr "public-ds");
                        ("uid", JStr (getDataSourceUidFromJson panel))])
        | None, _ => None
        end.
Proof.
  intros Hk Hq.
  destruct (groupQueriesByPanelId_entry _ _ _ Hk) as [panel [Hv [Hid ->]]].
  rewrite panelQueries_filter in Hq.
  apply in_map_iff in Hq as [target [<- Ht]]. apply filter_In in Ht as [Ht _].
  exists panel, target. repeat split; try assumption.
  - intros key He Hd. unfold prepareQuery.
    destruct (CheckGet (Del target "exemplar") "datasource").
    + apply CheckGet_Del_ne. exact He.
    + rewrite CheckGet_Set_ne by exact Hd. apply CheckGet_Del_ne. exact He.
  - apply prepareQuery_noExemplar.
  - unfold prepareQuery. rewrite (CheckGet_Del_ne target "datasource" "exemplar") by discriminate.
    destruct (CheckGet target "datasource") as [ds|] eqn:Hds.
    + rewrite CheckGet_Del_ne by discriminate. exact Hds.
    + destruct target; try reflexivity. simpl. rewrite lookupField_setField_eq. reflexivity.
Qed.

Lemma groupQueriesByPanelIdV2_lookup (dashboard : json) (k : Z) :
  groupQueriesByPanelIdV2 dashboard !! k
  = elementQueriesV2
      <$> last (List.filter (λ element, MustInt64 (Get (Get element "spec") "id") =? k)
                  (MustMap (Get dashboard "elements")).*2).
Proof.
  unfold groupQueriesByPanelIdV2.
  generalize (MustMap (Get dashboard "elements")). intros l.
  assert (Hfold : ∀ result : gmap Z (list json),
    fold_left (λ (result : gmap Z (list json)) (entry : string * json),
         <[MustInt64 (Get (Get entry.2 "spec") "id") := elementQueriesV2 entry.2]> result)
      l result
    = fold_left (λ result element,
         <[MustInt64 (Get (Get element "spec") "id") := elementQueriesV2 element]> result)
      l.*2 result).
  { induction l as [|e l IH]; intros result; [reflexivity|]. simpl. apply IH. }
  rewrite Hfold.
  rewrite (fold_insert_lookup (λ element, MustInt64 (Get (Get element "spec") "id"))
             elementQueriesV2).
  rewrite lookup_empty. destruct (last _); reflexivity.
Qed.

Lemma last_filter_None {A} (f : A → bool) (l : list A) :
  last (List.filter f l) = None ↔ ∀ x, In x l → f x = false.
Proof.
  rewrite last_None. split.
  - intros Hnil x Hx. destruct (f x) eqn:Hfx; [|reflexivity].
    assert (Hin : In x (List.filter f l)) by (apply filter_In; auto).
    rewrite Hnil in Hin. destruct Hin.
  - intros Hall. induction l as [|x l IH]; [reflexivity|]. simpl.
    rewrite (Hall x (or_introl eq_refl)). apply IH. intros y Hy. apply Hall. right. exact Hy.
Qed.

(** X7. The one way in which building a metric request fails is that the
    panel is not found.  For a document of the v1 schema (one without
    elements) that is so exactly when no visited panel, at the top level or
    inside collapsed rows, has the requested id; for a document of the v2
    schema exactly when no element has it in its spec. *)
Theorem metric_request_fails_only_on_missing_panel (dashboard : json)
    (publicDashboard : PublicDashboard) (panelID : Z) (reqDTO : PublicDashboardQueryDTO) :
  (∀ err, buildMetricRequest dashboard publicDashboard panelID reqDTO = Err err →
          err = ErrPanelNotFound)
  ∧ (buildMetricRequest dashboard publicDashboard panelID reqDTO = Err ErrPanelNotFound
     ↔ if isNull (Get dashboard "elements")
       then ∀ panel, visited (MustArray (Get dashboard "panels")) panel →
                     MustInt64 (Get panel "id") ≠ panelID
       else ∀ element, In element (MustMap (Get dashboard "elements")).*2 →
                       MustInt64 (Get (Get element "spec") "id") ≠ panelID).
Proof.
  unfold buildMetricRequest, buildMetricRequestV2.
  destruct (isNull (Get dashboard "elements")) eqn:Hv2; cbn [negb].
  - (* v1 *)
    destruct (groupQueriesByPanelId dashboard !! panelID) as [qs|] eqn:Hk.
    + destruct (getSafeIntervalAndMaxDataPoints _ _) as [a b].
      split; [discriminate|]. split; [discriminate|].
      intros Hnone. exfalso.
      destruct (groupQueriesByPanelId_entry _ _ _ Hk) as [p [Hp [Hid _]]].
      exact (Hnone p Hp Hid).
    + split; [intros err [= <-]; reflexivity|]. split; [|reflexivity].
      intros _ panel Hp Hid.
      destruct (extractQueriesFromPanels_visited (depth dashboard) _ panel ∅ Hp
                  (enough_dashboard dashboard)) as [qs Hqs].
      fold (groupQueriesByPanelId dashboard) in Hqs. congruence.
  - (* v2 *)
    rewrite groupQueriesByPanelIdV2_lookup.
    destruct (last _) as [element|] eqn:Hlast; cbn [fmap option_fmap option_map].
    + destruct (getSafeIntervalAndMaxDataPoints _ _) as [a b].
      split; [discriminate|]. split; [discriminate|].
      intros Hnone. exfalso.
      assert (Hin : In element
                (List.filter (λ element, MustInt64 (Get (Get element "spec") "id") =? panelID)
                   (MustMap (Get dashboard "elements")).*2)).
      { apply list_elem_of_In, last_Some_elem_of. exact Hlast. }
      apply filter_In in Hin as [Hin Hid]. apply Z.eqb_eq in Hid.
      exact (Hnone element Hin Hid).
    + split; [intros err [= <-]; reflexivity|]. split; [|reflexivity].
      intros _ element Hin Hid.
      apply last_filter_None with (x := element) in Hlast; [|exact Hin].
      apply Z.eqb_neq in Hlast. contradiction.
Qed.

Lemma Get_setRequestFields (a b : Z) (reqDTO : PublicDashboardQueryDTO)
    (m : list (string * json)) :
  let query := setRequestFields a b reqDTO (JObj m) in
  Get query "intervalMs" = JNum a
  ∧ Get query "maxDataPoints" = JNum b
  ∧ Get query "queryCachingTTL" = JNum (QueryCachingTTL reqDTO).
Proof.
  unfold setRequestFields, Get. cbn [Set_ CheckGet].
  rewrite !lookupField_setField_eq.
  rewrite (lookupField_setField_ne "maxDataPoints" "queryCachingTTL") by discriminate.
  rewrite (lookupField_setField_ne "intervalMs" "queryCachingTTL") by discriminate.
  rewrite (lookupField_setField_ne "intervalMs" "maxDataPoints") by discriminate.
  rewrite !lookupField_setField_eq. auto.
Qed.

(** X8. Every query object of a metric request that was built, for the v1
    or the v2 schema, carries the interval and the resolution that the
    service computed as safe for the request and the time range of the
    metric request, and the caching time of the request, under intervalMs,
    maxDataPoints and queryCachingTTL, whatever the dashboard had there; and
    the range of the metric request is a pair of integers in decimal. *)
Theorem metric_request_carries_safe_interval (dashboard : json)
    (publicDashboard : PublicDashboard) (panelID : Z) (reqDTO : PublicDashboardQueryDTO)
    (metricReq : MetricRequest) :
  buildMetricRequest dashboard publicDashboard panelID reqDTO = Ok metricReq →
  let ts := {| tsFrom := mrFrom metricReq; tsTo := mrTo metricReq |} in
  (∃ from to, mrFrom metricReq = FormatInt from ∧ mrTo metricReq = FormatInt to)
  ∧ ∀ m, In (JObj m) (Queries metricReq) →
      Get (JObj m) "intervalMs" = JNum (getSafeIntervalAndMaxDataPoints reqDTO ts).1
      ∧ Get (JObj m) "maxDataPoints" = JNum (getSafeIntervalAndMaxDataPoints reqDTO ts).2
      ∧ Get (JObj m) "queryCachingTTL" = JNum (QueryCachingTTL reqDTO).
Proof.
  assert (Hgen : ∀ (ts : TimeSettings) (queries : list json),
    (∃ from to, tsFrom ts = FormatInt from ∧ tsTo ts = FormatInt to) →
    (let '(safeInterval, safeResolution) := getSafeIntervalAndMaxDataPoints reqDTO ts in
     Ok {| mrFrom := tsFrom ts; mrTo := tsTo ts;
           Queries := List.map (setRequestFields safeInterval safeResolution reqDTO) queries |})
    = Ok metricReq →
    let ts := {| tsFrom := mrFrom metricReq; tsTo := mrTo metricReq |} in
    (∃ from to, mrFrom metricReq = FormatInt from ∧ mrTo metricReq = FormatInt to)
    ∧ ∀ m, In (JObj m) (Queries metricReq) →
        Get (JObj m) "intervalMs" = JNum (getSafeIntervalAndMaxDataPoints reqDTO ts).1
        ∧ Get (JObj m) "maxDataPoints" = JNum (getSafeIntervalAndMaxDataPoints reqDTO ts).2
        ∧ Get (JObj m) "queryCachingTTL" = JNum (QueryCachingTTL reqDTO)).
  { intros ts queries Hts Hreq.
    destruct (getSafeIntervalAndMaxDataPoints reqDTO ts) as [a b] eqn:Hsafe.
    injection Hreq as <-. cbn [mrFrom mrTo Queries].
    split; [exact Hts|].
    assert (Heta : {| tsFrom := tsFrom ts; tsTo := tsTo ts |} = ts) by (destruct ts; reflexivity).
    rewrite Heta, Hsafe. cbn [fst snd].
    intros m Hin. apply in_map_iff in Hin as [q [Hq _]].
    destruct q as [| | | | |m0]; try discriminate.
    rewrite <- Hq. apply Get_setRequestFields. }
  unfold buildMetricRequest, buildMetricRequestV2.
  destruct (negb (isNull (Get dashboard "elements"))).
  - destruct (groupQueriesByPanelIdV2 dashboard !! panelID) as [qs|]; [|discriminate].
    apply Hgen. unfold buildTimeSettingsV2.
    destruct (getTimeRangeValuesOrDefaultV2 _ _ _ _) as [[from to] tz]. eauto.
  - destruct (groupQueriesByPanelId dashboard !! panelID) as [qs|]; [|discriminate].
    apply Hgen. unfold buildTimeSettings.
    destruct (getTimeRangeValuesOrDefault _ _ _ _) as [[from to] tz]. eauto.
Qed.

Lemma delField_absent (key : string) (m : list (string * json)) :
  lookupField key m = None → delField key m = m.
Proof.
  induction m as [|[k v] m IH]; simpl; [reflexivity|].
  destruct (String.eqb k key); [discriminate|]. intros Hl. rewrite (IH Hl). reflexivity.
Qed.

Lemma Del_absent (j : json) (key : string) : CheckGet j key = None → Del j key = j.
Proof.
  destruct j; simpl; try reflexivity. intros Hl. rewrite (delField_absent _ _ Hl). reflexivity.
Qed.

Lemma anyExpressionV2_existsb (queries : list json) :
  anyExpressionV2 queries
  = existsb (λ query,
               negb (isNull (Get query "spec"))
               && negb (isNull (Get (Get query "spec") "query"))
               && isExpressionUID
                    (getDataSourceUidFromJsonSchemaV2 (Get (Get query "spec") "query")))
      queries.
Proof.
  induction queries as [|q l IH]; [reflexivity|]. cbn [anyExpressionV2 existsb].
  rewrite IH.
  destruct (isNull (Get q "spec")); [reflexivity|].
  destruct (isNull (Get (Get q "spec") "query")); [reflexivity|].
  destruct (isExpressionUID _); reflexivity.
Qed.

Lemma Get_null (key : string) : Get JNull key = JNull.
Proof. reflexivity. Qed.

(** X9. The rule for hidden queries in the v2 schema.  The queries filed
    for an element are the queries under spec.data.spec.queries, in their
    order, that have a spec, a query kind and a query spec and are not
    dropped, each as the spec of its query kind without exemplar and with a
    datasource; a query is dropped when its spec is hidden and no query of
    the element is an expression, so an element with an expression keeps
    its hidden queries.  An element without that list has no queries. *)
Theorem hidden_queries_of_v2_elements (element : json) :
  let queries := MustArray (GetPath element ["spec"; "data"; "spec"; "queries"]) in
  elementQueriesV2 element
  = List.map preparedQueryV2
      (List.filter (λ query, queryUsableV2 query && negb (queryDroppedV2 element query)) queries)
  ∧ panelHasAnExpressionSchemaV2 element
    = existsb (λ query,
                 negb (isNull (Get query "spec"))
                 && negb (isNull (Get (Get query "spec") "query"))
                 && isExpressionUID
                      (getDataSourceUidFromJsonSchemaV2 (Get (Get query "spec") "query")))
        queries
  ∧ (panelHasAnExpressionSchemaV2 element = true →
     elementQueriesV2 element = List.map preparedQueryV2 (List.filter queryUsableV2 queries)).
Proof.
  intros queries.
  assert (Hfold : ∀ hasExpression l acc,
    fold_left
      (λ (panelQueries : list json) (query : json),
         let panelQuerySpec := Get query "spec" in
         if isNull panelQuerySpec then panelQueries
         else if negb hasExpression && MustBool (Get panelQuerySpec "hidden") then panelQueries
         else
           let dataQueryKind := Get panelQuerySpec "query" in
           if isNull dataQueryKind then panelQueries
           else
             let dataQuerySpec := Get dataQueryKind "spec" in
             if isNull dataQuerySpec then panelQueries
             else
               let dataQuerySpec := Del dataQuerySpec "exemplar" in
               let group := MustString (Get dataQueryKind "group") in
               let dataQuerySpec :=
                 match CheckGet dataQuerySpec "datasource" with
                 | Some _ => dataQuerySpec
                 | None =>
                     let uid := getDataSourceUidFromJsonSchemaV2 dataQueryKind in
                     Set_ dataQuerySpec "datasource"
                       (JObj [("type", JStr group); ("uid", JStr uid)])
                 end in
               let dataQuerySpec := Del dataQuerySpec "exemplar" in
               (panelQueries ++ [dataQuerySpec])%list) l acc
    = (acc ++ List.map preparedQueryV2
                (List.filter (λ query,
                    queryUsableV2 query
                    && negb (MustBool (Get (Get query "spec") "hidden") && negb hasExpression))
                   l))%list).
  { intros hasExpression l. induction l as [|q l IH]; intros acc.
    - simpl. rewrite app_nil_r. reflexivity.
    - cbn [fold_left List.filter]. cbv zeta. rewrite IH. unfold queryUsableV2.
      destruct (isNull (Get q "spec")); [reflexivity|].
      rewrite (andb_comm (negb hasExpression)).
      destruct (MustBool (Get (Get q "spec") "hidden") && negb hasExpression).
      { rewrite andb_false_r. reflexivity. }
      destruct (isNull (Get (Get q "spec") "query")); [reflexivity|].
      destruct (isNull (Get (Get (Get q "spec") "query") "spec")); [reflexivity|].
      cbn [negb andb List.map]. rewrite <- app_assoc. cbn [app]. f_equal. f_equal.
      unfold preparedQueryV2.
      destruct (CheckGet (Del (Get (Get (Get q "spec") "query") "spec") "exemplar") "datasource").
      + apply Del_absent, CheckGet_Del.
      + apply Del_absent. rewrite CheckGet_Set_ne by discriminate. apply CheckGet_Del. }
  assert (Hqs : elementQueriesV2 element
                = panelQueriesV2 (panelHasAnExpressionSchemaV2 element) queries).
  { unfold elementQueriesV2, queries, GetPath. cbn [fold_left].
    destruct (isNull (Get element "spec")) eqn:H1.
    { destruct (Get element "spec"); try discriminate. reflexivity. }
    destruct (isNull (Get (Get element "spec") "data")) eqn:H2.
    { destruct (Get (Get element "spec") "data"); try discriminate. reflexivity. }
    destruct (isNull (Get (Get (Get element "spec") "data") "spec")) eqn:H3.
    { destruct (Get (Get (Get element "spec") "data") "spec"); try discriminate. reflexivity. }
    destruct (isNull (Get (Get (Get (Get element "spec") "data") "spec") "queries")) eqn:H4.
    { destruct (Get (Get (Get (Get element "spec") "data") "spec") "queries");
        try discriminate. reflexivity. }
    reflexivity. }
  assert (Hexp : panelHasAnExpressionSchemaV2 element = anyExpressionV2 queries).
  { unfold panelHasAnExpressionSchemaV2, queries, GetPath. cbn [fold_left].
    destruct (isNull (Get element "spec")) eqn:H1.
    { destruct (Get element "spec"); try discriminate. reflexivity. }
    destruct (isNull (Get (Get element "spec") "data")) eqn:H2.
    { destruct (Get (Get element "spec") "data"); try discriminate. reflexivity. }
    destruct (isNull (Get (Get (Get element "spec") "data") "spec")) eqn:H3.
    { destruct (Get (Get (Get element "spec") "data") "spec"); try discriminate. reflexivity. }
    destruct (isNull (Get (Get (Get (Get element "spec") "data") "spec") "queries")) eqn:H4.
    { destruct (Get (Get (Get (Get element "spec") "data") "spec") "queries");
        try discriminate. reflexivity. }
    reflexivity. }
  assert (Hall : elementQueriesV2 element
    = List.map preparedQueryV2
        (List.filter (λ query, queryUsableV2 query && negb (queryDroppedV2 element query))
           queries)).
  { rewrite Hqs. unfold panelQueriesV2. rewrite Hfold. reflexivity. }
  split; [exact Hall|]. split; [rewrite Hexp; apply anyExpressionV2_existsb|].
  intros Hhas. rewrite Hall. f_equal. apply filter_ext. intros q.
  unfold queryDroppedV2. rewrite Hhas, andb_false_r, andb_true_r. reflexivity.
Qed.

End ExtractionOrder.

(** ** The time window: panels in rows, and the v2 schema *)

Section TimeMore.
Context `{Collaborators}.

(** X10. The relative time of a panel is looked up among the panels at the
    top level of the dashboard only.  For a panel id that no top-level panel
    has -- as for a panel that lies inside a collapsed row, whose queries
    the extraction does find -- there is no override: with time selection
    disabled the window is the one of the dashboard, whatever [timeFrom] the
    nested panel has. *)
Theorem relative_time_of_top_level_panels_only (reqDTO : PublicDashboardQueryDTO)
    (dashboard : json) (panelID : Z) :
  (∀ p, In p (MustArray (Get dashboard "panels")) → MustInt64 (Get p "id") ≠ panelID) →
  getPanelRelativeTimeRange dashboard panelID = EmptyString
  ∧ (getTimeRangeValuesOrDefault reqDTO dashboard false panelID).1
    = (MustString (Get (Get dashboard "time") "from"),
       MustString (Get (Get dashboard "time") "to")).
Proof.
  intros Hno. pose proof (getPanelRelativeTimeRange_absent dashboard panelID Hno) as Hrel.
  split; [exact Hrel|].
  unfold getTimeRangeValuesOrDefault, GetPath. cbn [fold_left]. rewrite Hrel.
  cbn [andb String.eqb negb].
  destruct (LoadLocation _); reflexivity.
Qed.

Lemma Get_path_null (path : list string) : GetPath JNull path = JNull.
Proof. induction path as [|k path IH]; [reflexivity|exact IH]. Qed.

(** The override of a v2 element is what lies under
    spec.data.spec.queryOptions.timeFrom of the first element, in the order
    of the range over the elements, whose spec has the id. *)
Lemma getPanelRelativeTimeRangeV2_first (dashboard : json) (panelID : Z)
    (pre post : list (string * json)) (name : string) (element : json) :
  MustMap (Get dashboard "elements") = (pre ++ (name, element) :: post)%list →
  (∀ e, In e pre → MustInt64 (Get (Get e.2 "spec") "id") ≠ panelID) →
  MustInt64 (Get (Get element "spec") "id") = panelID →
  getPanelRelativeTimeRangeV2 dashboard panelID
  = MustString (GetPath element ["spec"; "data"; "spec"; "queryOptions"; "timeFrom"]).
Proof.
  intros Hel Hpre Hid. unfold getPanelRelativeTimeRangeV2.
  destruct (isNull (Get dashboard "elements")) eqn:Hnull.
  { destruct (Get dashboard "elements"); try discriminate. destruct pre; discriminate. }
  rewrite Hel. clear Hel Hnull. induction pre as [|[n e] pre IH].
  - cbn [app]. rewrite Hid, Z.eqb_refl. cbn [negb]. unfold GetPath. cbn [fold_left].
    destruct (Get element "spec"); try reflexivity.
    destruct (Get (JObj m) "data"); try reflexivity.
    destruct (Get (JObj m0) "spec"); try reflexivity.
    destruct (Get (JObj m1) "queryOptions"); try reflexivity.
    destruct (Get (JObj m2) "timeFrom"); reflexivity.
  - cbn [app]. destruct (Z.eqb_spec (MustInt64 (Get (Get e "spec") "id")) panelID) as [Heq|_].
    + exfalso. exact (Hpre (n, e) (or_introl eq_refl) Heq).
    + cbn [negb]. apply IH. intros q Hq. apply Hpre. right. exact Hq.
Qed.

(** X11. The time window of the v2 schema.  When time selection is enabled
    and the request gives both from and to, these are the window.
    Otherwise to is that of the time settings of the dashboard, and from is
    the relative time of the element with the requested id, found under
    spec.data.spec.queryOptions.timeFrom, when that is a string that is not
    empty, else that of the time settings. *)
Theorem time_window_precedence_v2 (reqDTO : PublicDashboardQueryDTO) (dashboard : json)
    (timeSelectionEnabled : bool) (panelID : Z)
    (pre post : list (string * json)) (name : string) (element : json) :
  MustMap (Get dashboard "elements") = (pre ++ (name, element) :: post)%list →
  (∀ e, In e pre → MustInt64 (Get (Get e.2 "spec") "id") ≠ panelID) →
  MustInt64 (Get (Get element "spec") "id") = panelID →
  let documentFrom := MustString (Get (Get dashboard "timeSettings") "from") in
  let documentTo := MustString (Get (Get dashboard "timeSettings") "to") in
  let elementFrom :=
    MustString (GetPath element ["spec"; "data"; "spec"; "queryOptions"; "timeFrom"]) in
  (getTimeRangeValuesOrDefaultV2 dashboard reqDTO timeSelectionEnabled panelID).1
  = (if timeSelectionEnabled
        && negb (String.eqb (From (TimeRange reqDTO)) "")
        && negb (String.eqb (To (TimeRange reqDTO)) "")
     then (From (TimeRange reqDTO), To (TimeRange reqDTO))
     else (if String.eqb elementFrom "" then documentFrom else elementFrom, documentTo)).
Proof.
  intros Hel Hpre Hid documentFrom documentTo elementFrom.
  rewrite getTimeRangeValuesOrDefaultV2_precedence.
  rewrite (getPanelRelativeTimeRangeV2_first dashboard panelID pre post name element Hel Hpre Hid).
  reflexivity.
Qed.

End TimeMore.

(** Panel 5 of the sample lies in a collapsed row and has the relative time
    now-1h: its queries are found, and its window is that of the
    dashboard. *)
Lemma relative_time_of_top_level_panels_only_witness :
  is_Some (@groupQueriesByPanelId sampleCollaborators MoreSamples.dashboardRowOverride !! 5)
  ∧ MustString (Get MoreSamples.panel5 "timeFrom") = "now-1h"
  ∧ (@getTimeRangeValuesOrDefault sampleCollaborators (Samples.request "" "")
       MoreSamples.dashboardRowOverride false 5).1
    = ("now-6h", "now").
Proof.
  split; [vm_compute; eauto|]. split; [reflexivity|].
  destruct (@relative_time_of_top_level_panels_only sampleCollaborators (Samples.request "" "")
              MoreSamples.dashboardRowOverride 5) as [_ Hwin].
  - simpl. intros p [<-|[]]. discriminate.
  - exact Hwin.
Defined.

Lemma time_window_precedence_v2_witness :
  (@getTimeRangeValuesOrDefaultV2 sampleCollaborators MoreSamples.dashboardV2Override
     (Samples.request "now-5m" "now-1m") false 1).1
  = ("now-2h", "now")
  ∧ (@getTimeRangeValuesOrDefaultV2 sampleCollaborators MoreSamples.dashboardV2Override
       (Samples.request "now-5m" "now-1m") true 1).1
    = ("now-5m", "now-1m").
Proof.
  split.
  - apply (@time_window_precedence_v2 sampleCollaborators (Samples.request "now-5m" "now-1m")
             MoreSamples.dashboardV2Override false 1 [] [] "panel-1"
             MoreSamples.elementWithOverride); [reflexivity|intros e []|reflexivity].
  - apply (@time_window_precedence_v2 sampleCollaborators (Samples.request "now-5m" "now-1m")
             MoreSamples.dashboardV2Override true 1 [] [] "panel-1"
             MoreSamples.elementWithOverride); [reflexivity|intros e []|reflexivity].
Defined.

(** Panel 3 of the sample dashboard has no datasource in its second target:
    the query filed for it has the datasource of the panel. *)
Lemma extracted_query_keeps_its_fields_witness :
  let query :=
    JObj [("refId", JStr "B");
          ("datasource", JObj [("type", JStr "public-ds"); ("uid", JStr "ds3")])] in
  ∃ panel target,
    visited (MustArray (Get Samples.dashboardV1 "panels")) panel
    ∧ MustInt64 (Get panel "id") = 3
    ∧ In target (MustArray (Get panel "targets"))
    ∧ (∀ key, key ≠ "exemplar" → key ≠ "datasource" →
              CheckGet query key = CheckGet target key)
    ∧ CheckGet query "exemplar" = None
    ∧ CheckGet query "datasource"
      = match CheckGet target "datasource", target with
        | Some datasource, _ => Some datasource
        | None, JObj _ =>
            Some (JObj [("type", JStr "public-ds");
                        ("uid", JStr (@getDataSourceUidFromJson panel))])
        | None, _ => None
        end.
Proof.
  intros query.
  apply (@extracted_query_keeps_its_fields sampleCollaborators Samples.dashboardV1 3 [query]).
  - vm_compute. reflexivity.
  - left. reflexivity.
Defined.

(** The metric request for panel 1 of the sample dashboard carries the
    interval, the resolution and the caching time of the request. *)
Lemma metric_request_carries_safe_interval_witness :
  ∃ metricReq,
    @buildMetricRequest sampleCollaborators Samples.dashboardV1 (Samples.publicDashboard false) 1
      (Samples.request "" "") = Ok metricReq
    ∧ Queries metricReq ≠ []
    ∧ ∀ m, In (JObj m) (Queries metricReq) →
        Get (JObj m) "intervalMs" = JNum 1000
        ∧ Get (JObj m) "maxDataPoints" = JNum 100
        ∧ Get (JObj m) "queryCachingTTL" = JNum 60.
Proof.
  destruct (@buildMetricRequest sampleCollaborators Samples.dashboardV1
              (Samples.publicDashboard false) 1 (Samples.request "" "")) as [mr|] eqn:Hb;
    [|vm_compute in Hb; discriminate].
  exists mr. split; [reflexivity|]. split.
  - vm_compute in Hb. injection Hb as <-. discriminate.
  - destruct (@metric_request_carries_safe_interval sampleCollaborators _ _ _ _ _ Hb)
      as [_ Hfields].
    exact Hfields.
Defined.

(** ** sanitizeData *)

Import Sanitize.

Lemma delField_comm (a b : string) (m : list (string * json)) :
  delField a (delField b m) = delField b (delField a m).
Proof.
  induction m as [|[k v] m IH]; [reflexivity|]. simpl.
  destruct (String.eqb k b) eqn:Hb, (String.eqb k a) eqn:Ha; simpl;
    rewrite ?Hb, ?Ha, ?IH; reflexivity.
Qed.

Lemma delField_setField (a key : string) (val : json) (m : list (string * json)) :
  a ≠ key → lookupField key m = None →
  delField a (setField key val m) = setField key val (delField a m).
Proof.
  intros Hne. induction m as [|[k v] m IH]; simpl.
  - intros _. destruct (String.eqb_spec key a); [congruence|reflexivity].
  - destruct (String.eqb_spec k key) as [->|Hk]; [discriminate|]. intros Hl. simpl.
    destruct (String.eqb k a); simpl.
    + apply IH, Hl.
    + destruct (String.eqb_spec k key); [congruence|]. rewrite (IH Hl). reflexivity.
Qed.

Lemma Del_comm (j : json) (a b : string) : Del (Del j b) a = Del (Del j a) b.
Proof. destruct j; simpl; try reflexivity. rewrite delField_comm. reflexivity. Qed.

Lemma Del_Set (j : json) (a key : string) (val : json) :
  a ≠ key → CheckGet j key = None → Del (Set_ j key val) a = Set_ (Del j a) key val.
Proof.
  intros Hne Hl. destruct j; simpl; try reflexivity.
  rewrite delField_setField by assumption. reflexivity.
Qed.

Lemma Get_Del_ne (j : json) (k key : string) : k ≠ key → Get (Del j key) k = Get j k.
Proof. intros Hne. unfold Get. rewrite CheckGet_Del_ne by exact Hne. reflexivity. Qed.

Lemma Get_Set_ne (j : json) (k key : string) (val : json) :
  k ≠ key → Get (Set_ j key val) k = Get j k.
Proof. intros Hne. unfold Get. rewrite CheckGet_Set_ne by exact Hne. reflexivity. Qed.

Lemma CheckGet_sanitizeTarget (target : json) (key : string) :
  key ≠ "expr" → key ≠ "query" → key ≠ "rawSql" →
  CheckGet (sanitizeTarget target) key = CheckGet target key.
Proof.
  intros He Hq Hr. unfold sanitizeTarget. rewrite !CheckGet_Del_ne by assumption. reflexivity.
Qed.

Lemma Get_sanitizeTarget (target : json) (key : string) :
  key ≠ "expr" → key ≠ "query" → key ≠ "rawSql" →
  Get (sanitizeTarget target) key = Get target key.
Proof. intros He Hq Hr. unfold Get. rewrite CheckGet_sanitizeTarget by assumption. reflexivity. Qed.

Lemma sanitizeTarget_noQueryText (target : json) : noQueryText (sanitizeTarget target).
Proof.
  unfold noQueryText, sanitizeTarget. repeat split.
  - rewrite !CheckGet_Del_ne by discriminate. apply CheckGet_Del.
  - rewrite CheckGet_Del_ne by discriminate. apply CheckGet_Del.
  - apply CheckGet_Del.
Qed.

Lemma Get_sanitizeTargets (panel : json) (key : string) :
  key ≠ "targets" → Get (sanitizeTargets panel) key = Get panel key.
Proof.
  intros Hne. unfold sanitizeTargets.
  destruct (Get panel "targets"); try reflexivity. apply Get_Set_ne, Hne.
Qed.

Lemma targets_sanitizeTargets (panel : json) :
  MustArray (Get (sanitizeTargets panel) "targets")
  = List.map sanitizeTarget (MustArray (Get panel "targets")).
Proof.
  unfold sanitizeTargets. destruct (Get panel "targets") as [| | | |a|] eqn:Ht;
    try (rewrite Ht; reflexivity).
  destruct panel as [| | | | |m]; try discriminate. rewrite Get_Set_eq. reflexivity.
Qed.

Lemma Get_sanitizeDataWith (fuel : nat) (data : json) (key : string) :
  key ≠ "panels" → Get (sanitizeDataWith fuel data) key = Get data key.
Proof.
  intros Hne. destruct fuel as [|fuel]; [reflexivity|]. simpl.
  destruct (Get data "panels"); try reflexivity. apply Get_Set_ne, Hne.
Qed.

Lemma isCollapsedRow_sanitizePanelWith (fuel : nat) (panel : json) :
  isCollapsedRow (sanitizePanelWith fuel panel) = isCollapsedRow panel.
Proof.
  unfold sanitizePanelWith. destruct (isCollapsedRow panel) eqn:Hrow.
  - rewrite <- Hrow. unfold isCollapsedRow.
    rewrite !Get_sanitizeDataWith by discriminate. reflexivity.
  - rewrite <- Hrow. unfold isCollapsedRow.
    rewrite !Get_sanitizeTargets by discriminate. reflexivity.
Qed.

Lemma panels_sanitizeDataWith (fuel : nat) (data : json) :
  MustArray (Get (sanitizeDataWith (S fuel) data) "panels")
  = List.map (sanitizePanelWith fuel) (MustArray (Get data "panels")).
Proof.
  simpl. destruct (Get data "panels") as [| | | |a|] eqn:Hp; try (rewrite Hp; reflexivity).
  destruct data as [| | | | |m]; try discriminate. rewrite Get_Set_eq. reflexivity.
Qed.

Lemma flat_map_map {A B C} (f : A → B) (g : B → list C) (l : list A) :
  flat_map g (List.map f l) = flat_map (λ x, g (f x)) l.
Proof. induction l as [|x l IH]; [reflexivity|]. simpl. rewrite IH. reflexivity. Qed.

Lemma map_flat_map {A B C} (f : B → C) (g : A → list B) (l : list A) :
  List.map f (flat_map g l) = flat_map (λ x, List.map f (g x)) l.
Proof.
  induction l as [|x l IH]; [reflexivity|]. simpl. rewrite List.map_app, IH. reflexivity.
Qed.

Lemma flat_map_ext_elem {A B} (f g : A → list B) (l : list A) :
  (∀ x, In x l → f x = g x) → flat_map f l = flat_map g l.
Proof.
  induction l as [|x l IH]; intros Hfg; [reflexivity|]. simpl.
  rewrite (Hfg x (or_introl eq_refl)), IH; [reflexivity|].
  intros y Hy. apply Hfg. right. exact Hy.
Qed.

(** The panels visited in the sanitized list are the visited panels, each
    with its targets sanitized, in the same order. *)
Lemma visitOrder_sanitize (m fuel : nat) (panels : list json) :
  enough fuel panels →
  visitOrder m (List.map (sanitizePanelWith fuel) panels)
  = List.map sanitizeTargets (visitOrder m panels).
Proof.
  revert fuel panels. induction m as [|m IH]; intros fuel panels Hen; [reflexivity|].
  cbn [visitOrder]. rewrite flat_map_map, map_flat_map.
  apply flat_map_ext_elem. intros p Hp.
  rewrite isCollapsedRow_sanitizePanelWith.
  unfold sanitizePanelWith. destruct (isCollapsedRow p) eqn:Hrow; [|reflexivity].
  destruct fuel as [|fuel]; [specialize (Hen p Hp); lia|].
  rewrite panels_sanitizeDataWith. apply IH.
  eapply enough_nested; eassumption.
Qed.

Lemma visitOrder_sound (m : nat) (panels : list json) (panel : json) :
  In panel (visitOrder m panels) → visited panels panel.
Proof.
  revert panels. induction m as [|m IH]; intros panels; [intros []|].
  cbn [visitOrder]. rewrite in_flat_map. intros [p [Hp Hin]].
  destruct (isCollapsedRow p) eqn:Hrow.
  - eapply visited_nested; [exact Hp|exact Hrow|]. apply IH, Hin.
  - destruct Hin as [<-|[]]. apply visited_here; assumption.
Qed.

Lemma panels_sanitizeData (data : json) :
  MustArray (Get (sanitizeData data) "panels")
  = List.map (sanitizePanelWith (Nat.pred (depth data))) (MustArray (Get data "panels")).
Proof.
  unfold sanitizeData. destruct (depth data) as [|n] eqn:Hd.
  - destruct data as [| | | | |m]; try reflexivity; discriminate.
  - apply panels_sanitizeDataWith.
Qed.

Lemma enough_pred_dashboard (data : json) :
  enough (Nat.pred (depth data)) (MustArray (Get data "panels")).
Proof. intros x Hx. pose proof (depth_array_field _ _ _ Hx). lia. Qed.

(** X12. [sanitizeData] removes the text of the queries: in the sanitized
    dashboard, every target of every visited panel (a panel at the top
    level, or inside collapsed rows, that is no collapsed row itself) has
    no expr, no query and no rawSql field.  Nothing else is lost: a visited
    panel of the sanitized dashboard is a visited panel of the dashboard
    with every field but the targets as it was, and its targets are the
    targets of that panel, in their order, each with every other field as it
    was. *)
Theorem sanitized_targets_have_no_query_text (data panel' : json) :
  visited (MustArray (Get (sanitizeData data) "panels")) panel' →
  (∀ target', In target' (MustArray (Get panel' "targets")) → noQueryText target')
  ∧ ∃ panel,
      visited (MustArray (Get data "panels")) panel
      ∧ (∀ key, key ≠ "targets" → Get panel' key = Get panel key)
      ∧ Forall2
          (λ target' target,
             ∀ key, key ≠ "expr" → key ≠ "query" → key ≠ "rawSql" →
                    CheckGet target' key = CheckGet target key)
          (MustArray (Get panel' "targets")) (MustArray (Get panel "targets")).
Proof.
  intros Hv.
  apply (visitOrder_visited (depth (sanitizeData data))) in Hv; [|apply enough_dashboard].
  rewrite panels_sanitizeData, visitOrder_sanitize in Hv by apply enough_pred_dashboard.
  apply in_map_iff in Hv as [panel [<- Hin]].
  apply visitOrder_sound in Hin. rewrite targets_sanitizeTargets. split.
  - intros target' Ht. apply in_map_iff in Ht as [target [<- _]].
    apply sanitizeTarget_noQueryText.
  - exists panel. split; [exact Hin|]. split; [intros key; apply Get_sanitizeTargets|].
    induction (MustArray (Get panel "targets")) as [|t ts IH]; constructor; [|exact IH].
    intros key. apply CheckGet_sanitizeTarget.
Qed.

(** *** Sanitizing does not deepen a document *)

Lemma list_max_le_map {A} (f g : A → nat) (l : list A) :
  (∀ x, In x l → (f x ≤ g x)%nat) →
  (list_max (List.map f l) ≤ list_max (List.map g l))%nat.
Proof.
  induction l as [|x l IH]; intros Hfg; simpl; [lia|].
  pose proof (Hfg x (or_introl eq_refl)).
  assert (list_max (List.map f l) ≤ list_max (List.map g l))%nat
    by (apply IH; intros y Hy; apply Hfg; right; exact Hy).
  lia.
Qed.

Lemma depth_delField (key : string) (m : list (string * json)) :
  (list_max (List.map (λ kv, depth kv.2) (delField key m))
   ≤ list_max (List.map (λ kv, depth kv.2) m))%nat.
Proof.
  induction m as [|[k v] m IH]; simpl; [lia|].
  destruct (String.eqb k key); simpl; lia.
Qed.

Lemma depth_Del (j : json) (key : string) : (depth (Del j key) ≤ depth j)%nat.
Proof.
  destruct j; simpl; try lia. apply le_n_S, depth_delField.
Qed.

Lemma depth_setField (key : string) (val old : json) (m : list (string * json)) :
  lookupField key m = Some old → (depth val ≤ depth old)%nat →
  (list_max (List.map (λ kv, depth kv.2) (setField key val m))
   ≤ list_max (List.map (λ kv, depth kv.2) m))%nat.
Proof.
  intros Hl Hle. induction m as [|[k v] m IH]; simpl in *; [discriminate|].
  destruct (String.eqb k key); simpl.
  - injection Hl as ->. lia.
  - specialize (IH Hl). lia.
Qed.

Lemma depth_Set (j : json) (key : string) (val old : json) :
  CheckGet j key = Some old → (depth val ≤ depth old)%nat →
  (depth (Set_ j key val) ≤ depth j)%nat.
Proof.
  destruct j; simpl; try discriminate. intros Hl Hle.
  apply le_n_S. eapply depth_setField; eassumption.
Qed.

Lemma depth_sanitizeTarget (target : json) : (depth (sanitizeTarget target) ≤ depth target)%nat.
Proof.
  unfold sanitizeTarget.
  pose proof (depth_Del target "expr").
  pose proof (depth_Del (Del target "expr") "query").
  pose proof (depth_Del (Del (Del target "expr") "query") "rawSql"). lia.
Qed.

Lemma Get_array_CheckGet (j : json) (key : string) (a : list json) :
  Get j key = JArr a → CheckGet j key = Some (JArr a).
Proof. unfold Get. destruct (CheckGet j key); [intros ->; reflexivity|discriminate]. Qed.

Lemma depth_sanitizeTargets (panel : json) : (depth (sanitizeTargets panel) ≤ depth panel)%nat.
Proof.
  unfold sanitizeTargets. destruct (Get panel "targets") as [| | | |a|] eqn:Ht; try lia.
  eapply depth_Set; [apply Get_array_CheckGet, Ht|].
  simpl. apply le_n_S. rewrite List.map_map.
  apply list_max_le_map. intros x _. apply depth_sanitizeTarget.
Qed.

Lemma depth_sanitizeDataWith (fuel : nat) (data : json) :
  (depth (sanitizeDataWith fuel data) ≤ depth data)%nat.
Proof.
  revert data. induction fuel as [|fuel IH]; intros data; [simpl; lia|]. simpl.
  destruct (Get data "panels") as [| | | |a|] eqn:Hp; try lia.
  eapply depth_Set; [apply Get_array_CheckGet, Hp|].
  simpl. apply le_n_S. rewrite List.map_map.
  apply list_max_le_map. intros x _.
  destruct (isCollapsedRow x); [apply IH|apply depth_sanitizeTargets].
Qed.

Lemma depth_sanitizePanelWith (fuel : nat) (panel : json) :
  (depth (sanitizePanelWith fuel panel) ≤ depth panel)%nat.
Proof.
  unfold sanitizePanelWith.
  destruct (isCollapsedRow panel); [apply depth_sanitizeDataWith|apply depth_sanitizeTargets].
Qed.

Lemma visitOrder_fuel (n n' : nat) (panels : list json) :
  enough n panels → (n ≤ n')%nat → visitOrder n panels = visitOrder n' panels.
Proof.
  revert n' panels. induction n as [|n IH]; intros n' panels Hen Hle.
  - destruct panels as [|p ps].
    + destruct n'; reflexivity.
    + specialize (Hen p (or_introl eq_refl)). lia.
  - destruct n' as [|n']; [lia|]. cbn [visitOrder].
    apply flat_map_ext_elem. intros p Hp.
    destruct (isCollapsedRow p); [|reflexivity].
    apply IH; [|lia]. eapply enough_nested; eassumption.
Qed.

Lemma visitOrder_fuel_eq (n n' : nat) (panels : list json) :
  enough n panels → enough n' panels → visitOrder n panels = visitOrder n' panels.
Proof.
  intros Hn Hn'. destruct (Nat.le_ge_cases n n').
  - apply visitOrder_fuel; assumption.
  - symmetry. apply visitOrder_fuel; assumption.
Qed.

(** The panels of the sanitized dashboard, in visiting order. *)
Lemma visitOrder_sanitizeData (data : json) :
  visitOrder (depth (sanitizeData data)) (MustArray (Get (sanitizeData data) "panels"))
  = List.map sanitizeTargets (visitOrder (depth data) (MustArray (Get data "panels"))).
Proof.
  rewrite (visitOrder_fuel_eq (depth (sanitizeData data)) (depth data));
    [|apply enough_dashboard|].
  - rewrite panels_sanitizeData. apply visitOrder_sanitize, enough_pred_dashboard.
  - rewrite panels_sanitizeData. intros p Hp.
    apply in_map_iff in Hp as [p0 [<- Hp0]].
    pose proof (depth_sanitizePanelWith (Nat.pred (depth data)) p0).
    pose proof (enough_dashboard data p0 Hp0). lia.
Qed.

Section SanitizeAndExtract.
Context `{Collaborators}.

Lemma getDataSourceUidFromJson_sanitizeTarget (target : json) :
  getDataSourceUidFromJson (sanitizeTarget target) = getDataSourceUidFromJson target.
Proof.
  unfold getDataSourceUidFromJson. rewrite Get_sanitizeTarget by discriminate. reflexivity.
Qed.

Lemma getDataSourceUidFromJson_sanitizeTargets (panel : json) :
  getDataSourceUidFromJson (sanitizeTargets panel) = getDataSourceUidFromJson panel.
Proof.
  unfold getDataSourceUidFromJson. rewrite Get_sanitizeTargets by discriminate. reflexivity.
Qed.

Lemma prepareQuery_sanitize (panel target : json) :
  prepareQuery (sanitizeTargets panel) (sanitizeTarget target)
  = sanitizeTarget (prepareQuery panel target).
Proof.
  unfold prepareQuery. rewrite getDataSourceUidFromJson_sanitizeTargets.
  assert (Hdel : Del (sanitizeTarget target) "exemplar"
                 = sanitizeTarget (Del target "exemplar")).
  { unfold sanitizeTarget.
    rewrite (Del_comm _ "exemplar" "rawSql"), (Del_comm _ "exemplar" "query"),
      (Del_comm _ "exemplar" "expr"). reflexivity. }
  rewrite Hdel, CheckGet_sanitizeTarget by discriminate.
  destruct (CheckGet (Del target "exemplar") "datasource") eqn:Hds; [reflexivity|].
  generalize dependent (Del target "exemplar"). intros query _ Hds.
  unfold sanitizeTarget. cbv zeta.
  rewrite (Del_Set query "expr") by (discriminate || exact Hds).
  rewrite (Del_Set (Del query "expr") "query")
    by (discriminate || (rewrite CheckGet_Del_ne by discriminate; exact Hds)).
  rewrite (Del_Set (Del (Del query "expr") "query") "rawSql")
    by (discriminate || (rewrite !CheckGet_Del_ne by discriminate; exact Hds)).
  reflexivity.
Qed.

Lemma existsb_map {A B} (f : B → bool) (g : A → B) (l : list A) :
  existsb f (List.map g l) = existsb (λ x, f (g x)) l.
Proof. induction l as [|x l IH]; [reflexivity|]. simpl. rewrite IH. reflexivity. Qed.

Lemma existsb_pointwise {A} (f g : A → bool) (l : list A) :
  (∀ x, f x = g x) → existsb f l = existsb g l.
Proof. intros Hfg. induction l as [|x l IH]; [reflexivity|]. simpl. rewrite Hfg, IH. reflexivity. Qed.

Lemma filter_map_comm {A B} (f : B → bool) (g : A → B) (l : list A) :
  List.filter f (List.map g l) = List.map g (List.filter (λ x, f (g x)) l).
Proof.
  induction l as [|x l IH]; [reflexivity|]. simpl.
  destruct (f (g x)); simpl; rewrite IH; reflexivity.
Qed.

Lemma queryDropped_sanitize (panel target : json) :
  queryDropped (sanitizeTargets panel) (sanitizeTarget target) = queryDropped panel target.
Proof.
  unfold queryDropped. rewrite Get_sanitizeTarget by discriminate.
  rewrite targets_sanitizeTargets, existsb_map. do 2 f_equal.
  apply existsb_pointwise. intros q. rewrite getDataSourceUidFromJson_sanitizeTarget. reflexivity.
Qed.

(** The queries of a sanitized panel are the queries of the panel,
    sanitized. *)
Lemma panelQueries_sanitizeTargets (panel : json) :
  panelQueries (sanitizeTargets panel) = List.map sanitizeTarget (panelQueries panel).
Proof.
  rewrite !panelQueries_filter, targets_sanitizeTargets, filter_map_comm, !List.map_map.
  erewrite filter_ext; [|intros q; rewrite queryDropped_sanitize; reflexivity].
  apply map_ext. intros q. apply prepareQuery_sanitize.
Qed.

(** X13. Extraction after sanitizing: the queries found in the sanitized
    dashboard are those found in the dashboard, under the same panel ids,
    in the same order, each without its expr, query and rawSql fields.  So
    sanitizing changes neither which panels are found nor which queries are
    dropped as hidden, and no query text can be read back from the
    sanitized dashboard. *)
Theorem extraction_after_sanitizing (data : json) :
  groupQueriesByPanelId (sanitizeData data)
  = List.map sanitizeTarget <$> groupQueriesByPanelId data.
Proof.
  apply map_eq. intros k. rewrite lookup_fmap.
  unfold groupQueriesByPanelId. rewrite !extractQueriesFromPanels_visitOrder.
  rewrite !(fold_insert_lookup (λ panel, MustInt64 (Get panel "id")) panelQueries).
  rewrite !lookup_empty, visitOrder_sanitizeData, filter_map_comm.
  erewrite filter_ext; [|intros p; rewrite Get_sanitizeTargets by discriminate; reflexivity].
  rewrite fmap_last.
  destruct (last _) as [p|]; [|reflexivity].
  cbn. rewrite panelQueries_sanitizeTargets. reflexivity.
Qed.

End SanitizeAndExtract.

(** Panel 1 of the sample dashboard, sanitized: its first target has lost
    its expr. *)
Lemma sanitized_targets_have_no_query_text_witness :
  visited (MustArray (Get (sanitizeData Samples.dashboardV1) "panels"))
    (sanitizeTargets Samples.panel1)
  ∧ CheckGet (sanitizeTarget
                (JObj [("refId", JStr "A"); ("hide", JBool true); ("exemplar", JBool true);
                       ("expr", JStr "up"); ("datasource", JObj [("uid", JStr "prom")])]))
      "expr" = None.
Proof.
  assert (Hv : visited (MustArray (Get (sanitizeData Samples.dashboardV1) "panels"))
                 (sanitizeTargets Samples.panel1)).
  { apply visited_here; [left; reflexivity|reflexivity]. }
  split; [exact Hv|].
  destruct (sanitized_targets_have_no_query_text Samples.dashboardV1
              (sanitizeTargets Samples.panel1) Hv) as [Hno _].
  apply Hno. left. reflexivity.
Defined.

(** ** Variable options: lookup, parsing and filtering *)

Import VariableNotions.

Section VariableLookup.
Context `{Services}.

Lemma decodeVariable_name (varJSON : json) (variable : variableDefinition) :
  decodeVariable varJSON = Some variable →
  vName variable = MustString (Get varJSON "name").
Proof.
  unfold decodeVariable. intros Hd.
  destruct (decodeString (Get varJSON "name")) as [name|] eqn:Hname; [|discriminate].
  assert (Hn : name = MustString (Get varJSON "name")).
  { destruct (Get varJSON "name"); simpl in Hname; simplify_eq; reflexivity. }
  simpl in Hd.
  repeat match type of Hd with
         | context [mbind _ ?x] => destruct x; simpl in Hd; [|discriminate]
         end.
  injection Hd as <-. exact Hn.
Qed.

(** X14. The lookup of a variable goes through templating.list of the
    dashboard and stops at the first entry whose name is the requested one.
    It fails with ErrVariableNotFound exactly when no entry has the name
    (also when there is no templating section or no list), and otherwise
    only with ErrInternalServerError.  When that first entry spells the
    keys as the struct tags do, the definition returned is the decoding of
    the entry and has the requested name. *)
Theorem variable_lookup_finds_first_by_name (dashboard : Dashboard) (variableName : string) :
  let entries := MustArray (GetPath (Data dashboard) ["templating"; "list"]) in
  (findVariableInDashboard dashboard variableName = Err ErrVariableNotFound
   ↔ ∀ entry, In entry entries → MustString (Get entry "name") ≠ variableName)
  ∧ (∀ variable,
       findVariableInDashboard dashboard variableName = Ok variable →
       ∃ pre entry post,
         entries = (pre ++ entry :: post)%list
         ∧ (∀ e, In e pre → MustString (Get e "name") ≠ variableName)
         ∧ MustString (Get entry "name") = variableName
         ∧ (spelledAsTags entry = true →
            vName variable = variableName ∧ decodeVariable entry = Some variable))
  ∧ (∀ err,
       findVariableInDashboard dashboard variableName = Err err →
       err = ErrVariableNotFound ∨ err = ErrInternalServerError).
Proof.
  intros entries.
  set (loop := fix loop (vars : list json) : result variableDefinition :=
     match vars with
     | [] => Err ErrVariableNotFound
     | varJSON :: rest =>
         let name := MustString (Get varJSON "name") in
         if String.eqb name variableName then
           match decodeVariable varJSON with
           | Some variable => Ok variable
           | None => Err ErrInternalServerError
           end
         else loop rest
     end).
  assert (Hfind : findVariableInDashboard dashboard variableName = loop entries).
  { unfold findVariableInDashboard, entries, GetPath. cbn [fold_left]. fold loop.
    destruct (isNull (Get (Data dashboard) "templating")) eqn:H1.
    { destruct (Get (Data dashboard) "templating"); try discriminate. reflexivity. }
    destruct (isNull (Get (Get (Data dashboard) "templating") "list")) eqn:H2.
    { destruct (Get (Get (Data dashboard) "templating") "list"); try discriminate.
      reflexivity. }
    reflexivity. }
  rewrite Hfind. clearbody entries. clear Hfind.
  split; [|split].
  - induction entries as [|e l IH]; simpl.
    + split; [intros _ entry []|reflexivity].
    + destruct (String.eqb_spec (MustString (Get e "name")) variableName) as [Heq|Hne].
      * split.
        -- destruct (decodeVariable e); discriminate.
        -- intros Hall. exfalso. exact (Hall e (or_introl eq_refl) Heq).
      * rewrite IH. split.
        -- intros Hall entry [<-|Hin]; [exact Hne|apply Hall, Hin].
        -- intros Hall entry Hin. apply Hall. right. exact Hin.
  - intros variable. induction entries as [|e l IH]; simpl; [discriminate|].
    destruct (String.eqb_spec (MustString (Get e "name")) variableName) as [Heq|Hne].
    + destruct (decodeVariable e) as [v|] eqn:Hd; [|discriminate].
      intros [= ->]. exists [], e, l. split; [reflexivity|]. split; [intros ? []|].
      split; [exact Heq|]. intros _. split; [|exact Hd].
      rewrite (decodeVariable_name _ _ Hd). exact Heq.
    + intros Hl. destruct (IH Hl) as [pre [entry [post [-> [Hpre Hd]]]]].
      exists (e :: pre), entry, post. split; [reflexivity|]. split; [|exact Hd].
      intros x [<-|Hx]; [exact Hne|apply Hpre, Hx].
  - intros err. induction entries as [|e l IH]; simpl.
    + intros [= <-]. left. reflexivity.
    + destruct (String.eqb (MustString (Get e "name")) variableName); [|exact IH].
      destruct (decodeVariable e); [discriminate|]. intros [= <-]. right. reflexivity.
Qed.

Lemma branch_no_error (dashboard : Dashboard) (publicDashboard : PublicDashboard)
    (variable : variableDefinition) (reqDTO : PublicDashboardVariableQueryDTO) :
  (getQueryVariableOptions dashboard publicDashboard variable reqDTO).2 = None
  ∧ (getCustomVariableOptions variable).2 = None
  ∧ (getConstantVariableOptions variable).2 = None
  ∧ (getStaticVariableOptions variable).2 = None
  ∧ (getIntervalVariableOptions variable).2 = None.
Proof.
  repeat split.
  - unfold getQueryVariableOptions.
    destruct (String.eqb (datasourceField variable "uid") ""); [reflexivity|].
    destruct (QueryData _ _ _); reflexivity.
  - unfold getCustomVariableOptions. destruct (vQuery variable); reflexivity.
  - unfold getConstantVariableOptions. destruct (negb _); reflexivity.
  - unfold getIntervalVariableOptions. destruct (0 <? _)%nat; reflexivity.
Qed.

Lemma getVariableOptions_no_error (dashboard : Dashboard) (publicDashboard : PublicDashboard)
    (variable : variableDefinition) (reqDTO : PublicDashboardVariableQueryDTO) :
  (getVariableOptions dashboard publicDashboard variable reqDTO).2 = None.
Proof.
  destruct (branch_no_error dashboard publicDashboard variable reqDTO)
    as [Hq [Hc [Hk [Hs Hi]]]].
  unfold getVariableOptions.
  destruct (String.eqb (vType variable) "query").
  { destruct (getQueryVariableOptions _ _ _ _) as [o e]; simpl in Hq; subst e. reflexivity. }
  destruct (String.eqb (vType variable) "custom").
  { destruct (getCustomVariableOptions _) as [o e]; simpl in Hc; subst e. reflexivity. }
  destruct (String.eqb (vType variable) "constant").
  { destruct (getConstantVariableOptions _) as [o e]; simpl in Hk; subst e. reflexivity. }
  destruct (String.eqb (vType variable) "interval").
  { destruct (getIntervalVariableOptions _) as [o e]; simpl in Hi; subst e. reflexivity. }
  destruct (getStaticVariableOptions _) as [o e]; simpl in Hs; subst e. reflexivity.
Qed.

(** X15. The options of a variable never fail: whatever the type of the
    variable, whatever its definition and whatever the datasource answers,
    [getVariableOptions] returns no error and a slice that is not nil.  So
    the only errors of [GetVariableQueryResponse] are those of the lookup of
    the public dashboard and of the lookup of the variable, and a response
    with an error carries the nil slice. *)
Theorem variable_options_never_fail (accessToken variableName : string)
    (reqDTO : PublicDashboardVariableQueryDTO) :
  (∀ dashboard publicDashboard variable,
     (getVariableOptions dashboard publicDashboard variable reqDTO).2 = None
     ∧ isNilSlice (getVariableOptions dashboard publicDashboard variable reqDTO).1 = false)
  ∧ (∀ options err,
       GetVariableQueryResponse accessToken variableName reqDTO = (options, Some err) →
       options = None
       ∧ (FindEnabledPublicDashboardAndDashboardByAccessToken accessToken = Err err
          ∨ ∃ publicDashboard dashboard,
              FindEnabledPublicDashboardAndDashboardByAccessToken accessToken
              = Ok (publicDashboard, dashboard)
              ∧ findVariableInDashboard dashboard variableName = Err err)).
Proof.
  split.
  - intros dashboard publicDashboard variable.
    split; [apply getVariableOptions_no_error|apply getVariableOptions_not_nil].
  - intros options err. unfold GetVariableQueryResponse.
    destruct (FindEnabledPublicDashboardAndDashboardByAccessToken accessToken)
      as [[pd d]|e] eqn:Hfind.
    + destruct (findVariableInDashboard d variableName) as [variable|e] eqn:Hvar.
      * pose proof (getVariableOptions_no_error d pd variable reqDTO) as Hno.
        destruct (getVariableOptions d pd variable reqDTO) as [opts e]. simpl in Hno. subst e.
        discriminate.
      * intros [= <- <-]. split; [reflexivity|]. right. eauto.
    + intros [= <- <-]. split; [reflexivity|]. left. reflexivity.
Qed.

End VariableLookup.

(** *** Custom variables *)

Lemma without_app (p : ascii → bool) (a b : string) :
  without p (a +:+ b) = without p a && without p b.
Proof.
  induction a as [|c a IH]; [reflexivity|].
  change (negb (p c) && without p (a +:+ b) = negb (p c) && without p a && without p b).
  rewrite IH, andb_assoc. reflexivity.
Qed.

Lemma without_weaken (p q : ascii → bool) (s : string) :
  (∀ c, q c = true → p c = true) → without p s = true → without q s = true.
Proof.
  intros Hpq. induction s as [|c s IH]; [reflexivity|]. simpl.
  intros Hw. apply andb_true_iff in Hw as [Hc Hs]. rewrite (IH Hs), andb_true_r.
  destruct (q c) eqn:Hq; [|reflexivity]. rewrite (Hpq c Hq) in Hc. discriminate.
Qed.

Lemma trimRight_without (s : string) : without isSpace s = true → trimRight s = s.
Proof.
  induction s as [|c s IH]; [reflexivity|]. simpl.
  intros Hw. apply andb_true_iff in Hw as [Hc Hs]. rewrite (IH Hs).
  apply negb_true_iff in Hc. rewrite Hc. destruct s; reflexivity.
Qed.

Lemma TrimSpace_without (s : string) : without isSpace s = true → TrimSpace s = s.
Proof.
  intros Hw. unfold TrimSpace.
  assert (Hl : trimLeft s = s).
  { destruct s as [|c s]; [reflexivity|]. simpl in *.
    apply andb_true_iff in Hw as [Hc _]. apply negb_true_iff in Hc. rewrite Hc. reflexivity. }
  rewrite Hl. apply trimRight_without, Hw.
Qed.

Lemma splitByte_piece (sep : ascii) (t rest cur : string) :
  without (λ c, Ascii.eqb c sep) t = true →
  splitByte sep (t +:+ rest) cur = splitByte sep rest (cur +:+ t).
Proof.
  revert cur. induction t as [|c t IH]; intros cur Hw.
  - rewrite append_empty_r. reflexivity.
  - simpl in Hw. apply andb_true_iff in Hw as [Hc Ht]. apply negb_true_iff in Hc.
    change (String c t +:+ rest) with (String c (t +:+ rest)).
    cbn [splitByte]. rewrite Hc, (IH _ Ht), append_assoc. reflexivity.
Qed.

(** Splitting what was joined gives the pieces back, when no piece holds
    the separator. *)
Lemma Split_Join (t : string) (ts : list string) (cur : string) :
  Forall (λ s, without (λ c, Ascii.eqb c ",") s = true) (t :: ts) →
  splitByte "," (Join (t :: ts) ",") cur = (cur +:+ t) :: ts.
Proof.
  revert t cur. induction ts as [|u ts IH]; intros t cur Hall.
  - inversion Hall as [|? ? Ht _]; subst.
    change (Join [t] ",") with t. rewrite <- (append_empty_r t) at 1.
    rewrite splitByte_piece by exact Ht. reflexivity.
  - inversion Hall as [|? ? Ht Hrest]; subst.
    change (Join (t :: u :: ts) ",") with (t +:+ "," +:+ Join (u :: ts) ",").
    rewrite splitByte_piece by exact Ht.
    change ("," +:+ Join (u :: ts) ",") with (String "," (Join (u :: ts) ",")).
    cbn [splitByte]. rewrite Ascii.eqb_refl. f_equal.
    rewrite (IH u EmptyString Hrest). reflexivity.
Qed.

Lemma SplitN2_piece (t rest cur : string) :
  without (λ c, Ascii.eqb c ":") t = true →
  SplitN2 (t +:+ rest) ":" cur = SplitN2 rest ":" (cur +:+ t).
Proof.
  revert cur. induction t as [|c t IH]; intros cur Hw.
  - rewrite append_empty_r. reflexivity.
  - simpl in Hw. apply andb_true_iff in Hw as [Hc Ht]. apply negb_true_iff in Hc.
    change (String c t +:+ rest) with (String c (t +:+ rest)).
    cbn [SplitN2]. rewrite Hc, (IH _ Ht), append_assoc. reflexivity.
Qed.

Lemma entryText_facts (s : string) :
  entryText s = true →
  s ≠ EmptyString
  ∧ without (λ c, Ascii.eqb c ",") s = true
  ∧ without (λ c, Ascii.eqb c ":") s = true
  ∧ without isSpace s = true.
Proof.
  unfold entryText. intros Ht. apply andb_true_iff in Ht as [Hne Hw].
  split; [intros ->; discriminate|].
  repeat split; (eapply without_weaken; [|exact Hw]); intros c Hc; cbv beta in *; rewrite Hc;
    rewrite ?orb_true_r; reflexivity.
Qed.

Lemma entryValue_facts (s : string) :
  entryValue s = true →
  without (λ c, Ascii.eqb c ",") s = true ∧ without isSpace s = true.
Proof.
  unfold entryValue. intros Hw.
  split; (eapply without_weaken; [|exact Hw]); intros c Hc; cbv beta in *; rewrite Hc;
    rewrite ?orb_true_r; reflexivity.
Qed.

Lemma customEntry_facts (entry : string * option string) :
  wellFormedEntry entry = true →
  customEntry entry ≠ EmptyString
  ∧ without (λ c, Ascii.eqb c ",") (customEntry entry) = true
  ∧ without isSpace (customEntry entry) = true.
Proof.
  destruct entry as [text [val|]]; unfold wellFormedEntry; cbn [fst snd customEntry];
    intros Hwf; apply andb_true_iff in Hwf as [Ht Hv];
    destruct (entryText_facts _ Ht) as [Hne [Hcomma [_ Hspace]]].
  - destruct (entryValue_facts _ Hv) as [Hvcomma Hvspace].
    split; [destruct text; [congruence|discriminate]|].
    rewrite !without_app, Hcomma, Hspace, Hvcomma, Hvspace. split; reflexivity.
  - auto.
Qed.

(** One step of the loop of [getCustomVariableOptions] on a well-formed
    entry. *)
Lemma custom_step (entry : string * option string) :
  wellFormedEntry entry = true →
  let v := TrimSpace (customEntry entry) in
  negb (String.eqb v "") = true
  ∧ match SplitN2 v ":" EmptyString with
    | [text; val] => {| mfText := TrimSpace text; mfValue := TrimSpace val |}
    | _ => {| mfText := v; mfValue := v |}
    end = customOption entry.
Proof.
  intros Hwf. destruct (customEntry_facts _ Hwf) as [Hne [_ Hspace]].
  cbv zeta. rewrite (TrimSpace_without _ Hspace). split.
  - apply negb_true_iff, String.eqb_neq, Hne.
  - destruct entry as [text [val|]]; unfold wellFormedEntry in Hwf; cbn [fst snd] in Hwf;
      apply andb_true_iff in Hwf as [Ht Hv];
      destruct (entryText_facts _ Ht) as [_ [_ [Hcolon Htspace]]]; cbn [customEntry customOption].
    + rewrite SplitN2_piece by exact Hcolon.
      change (":" +:+ val) with (String ":" val). cbn [SplitN2].
      destruct (entryValue_facts _ Hv) as [_ Hvspace].
      rewrite Ascii.eqb_refl.
      rewrite (TrimSpace_without _ Hvspace).
      change (EmptyString +:+ text) with text. rewrite (TrimSpace_without _ Htspace).
      reflexivity.
    + rewrite <- (append_empty_r text) at 1. rewrite SplitN2_piece by exact Hcolon.
      reflexivity.
Qed.

(** X16. The options of a custom variable, read back from its query.  When
    the query lists entries separated by commas, each a text or a text, a
    colon and a value, with no white space and a text that is not empty,
    the options are these entries in their order: an entry text:value gives
    the option with that text and that value, an entry without colon the
    option whose text and value are both the entry.  The empty query gives
    the nil slice. *)
Theorem custom_options_from_entries (variable : variableDefinition)
    (entries : list (string * option string)) :
  vQuery variable = JStr (Join (customEntry <$> entries) ",") →
  Forall (λ entry, wellFormedEntry entry = true) entries →
  getCustomVariableOptions variable
  = (match entries with [] => None | _ => Some (customOption <$> entries) end, None).
Proof.
  intros Hq Hwf. unfold getCustomVariableOptions. rewrite Hq. f_equal.
  destruct entries as [|e es]; [reflexivity|].
  unfold Split. change (customEntry <$> e :: es) with (customEntry e :: (customEntry <$> es)).
  rewrite Split_Join.
  2:{ change (customEntry e :: (customEntry <$> es)) with (customEntry <$> (e :: es)).
      apply List.Forall_forall. intros s Hs. apply in_map_iff in Hs as [x [<- Hx]].
      rewrite List.Forall_forall in Hwf. apply (customEntry_facts x (Hwf x Hx)). }
  change (EmptyString +:+ customEntry e) with (customEntry e).
  change (customEntry e :: (customEntry <$> es)) with (customEntry <$> (e :: es)).
  assert (Hfold : ∀ (l : list (string * option string)) (acc : slice MetricFindValue),
    Forall (λ entry, wellFormedEntry entry = true) l →
    fold_left
      (λ (options : slice MetricFindValue) (v : string),
         let v := TrimSpace v in
         if negb (String.eqb v "") then
           match SplitN2 v ":" EmptyString with
           | [text; val] =>
               append options {| mfText := TrimSpace text; mfValue := TrimSpace val |}
           | _ => append options {| mfText := v; mfValue := v |}
           end
         else options) (customEntry <$> l) acc
    = match l with [] => acc | _ => Some (elems acc ++ (customOption <$> l))%list end).
  { induction l as [|x l IH]; intros acc Hl; [reflexivity|].
    inversion Hl as [|? ? Hx Hrest]; subst.
    change (customEntry <$> x :: l) with (customEntry x :: (customEntry <$> l)).
    cbn [fold_left]. cbv zeta.
    destruct (custom_step x Hx) as [Hne Hopt]. cbv zeta in Hne, Hopt. rewrite Hne.
    assert (Happ : match SplitN2 (TrimSpace (customEntry x)) ":" EmptyString with
                   | [text; val] =>
                       append acc {| mfText := TrimSpace text; mfValue := TrimSpace val |}
                   | _ => append acc {| mfText := TrimSpace (customEntry x);
                                        mfValue := TrimSpace (customEntry x) |}
                   end = append acc (customOption x)).
    { rewrite <- Hopt. destruct (SplitN2 _ _ _) as [|a [|b [|c r]]]; reflexivity. }
    rewrite Happ, (IH _ Hrest). unfold append. cbn [elems].
    destruct l; [reflexivity|]. rewrite <- app_assoc. reflexivity. }
  exact (Hfold (e :: es) None Hwf).
Qed.

Lemma custom_options_from_entries_witness :
  getCustomVariableOptions
    {| vName := "env"; vType := "custom"; vQuery := JStr "a:1,b:2,c";
       vDatasource := None; vOptions := [];
       vCurrent := {| curText := JNull; curValue := JNull |};
       vMulti := false; vRefresh := 0; vRegex := EmptyString; vSort := 0 |}
  = (Some [ {| mfText := "a"; mfValue := "1" |}; {| mfText := "b"; mfValue := "2" |};
            {| mfText := "c"; mfValue := "c" |} ], None).
Proof.
  apply (custom_options_from_entries _ [("a", Some "1"); ("b", Some "2"); ("c", None)]).
  - reflexivity.
  - repeat constructor.
Defined.

(** *** Static options *)

Section StaticOptions.
Context `{Services}.

(** X17. The options taken from the definition of a variable are never
    blank: an option of the definition whose text and value are both empty
    (or neither a string nor a sequence) is left out, an option with only
    one of the two gets the other from it, so every option returned has a
    text and a value that are not empty.  The same holds for the single
    option of a constant and for the options of an interval variable. *)
Theorem declared_options_are_never_blank (variable : variableDefinition)
    (opt : MetricFindValue) :
  In opt (elems (getStaticVariableOptions variable).1)
  ∨ In opt (elems (getConstantVariableOptions variable).1)
  ∨ In opt (elems (getIntervalVariableOptions variable).1) →
  mfText opt ≠ EmptyString ∧ mfValue opt ≠ EmptyString.
Proof.
  set (P := λ o : MetricFindValue, mfText o ≠ EmptyString ∧ mfValue o ≠ EmptyString).
  assert (Hstatic : Forall P (elems (getStaticVariableOptions variable).1)).
  { unfold getStaticVariableOptions. cbn [fst].
    apply (fold_left_invariant (λ s : slice MetricFindValue, Forall P (elems s)));
      [constructor|].
    intros acc o Hacc. cbv zeta.
    set (text := match optText o with
                 | JStr t => t | JArr t => firstOrEmpty t | _ => EmptyString end).
    set (val := match optValue o with
                | JStr v => v | JArr v => firstOrEmpty v | _ => EmptyString end).
    destruct (String.eqb_spec text "") as [Ht|Ht], (String.eqb_spec val "") as [Hv|Hv];
      cbn [negb orb]; try exact Hacc;
      unfold append; cbn [elems]; apply Forall_app; (split; [exact Hacc|]);
      (constructor; [|constructor]); split; cbn [mfText mfValue];
      repeat match goal with
             | |- context [String.eqb ?a ?b] => destruct (String.eqb_spec a b)
             end; congruence. }
  assert (Hconstant : Forall P (elems (getConstantVariableOptions variable).1)).
  { unfold getConstantVariableOptions.
    set (val := match curValue (vCurrent variable) with
                | JStr v => v | JArr v => firstOrEmpty v | _ => EmptyString end).
    destruct (String.eqb_spec val "") as [Hv|Hv]; cbn [negb fst elems]; [constructor|].
    unfold append. cbn [elems app]. constructor; [|constructor].
    split; cbn [mfText mfValue]; [|exact Hv].
    destruct (curText (vCurrent variable)); try exact Hv.
    destruct (String.eqb_spec s ""); cbn [negb]; assumption. }
  assert (Hinterval : Forall P (elems (getIntervalVariableOptions variable).1)).
  { unfold getIntervalVariableOptions.
    destruct (0 <? length (vOptions variable))%nat; [exact Hstatic|].
    cbn. repeat constructor; discriminate. }
  intros [Hin|[Hin|Hin]];
    [rewrite List.Forall_forall in Hstatic; exact (Hstatic opt Hin)
    |rewrite List.Forall_forall in Hconstant; exact (Hconstant opt Hin)
    |rewrite List.Forall_forall in Hinterval; exact (Hinterval opt Hin)].
Qed.

End StaticOptions.

Lemma declared_options_are_never_blank_witness :
  let variable :=
    {| vName := "region"; vType := "textbox"; vQuery := JNull;
       vDatasource := None;
       vOptions := [ {| optText := JStr "Europe"; optValue := JNull; optSelected := false |};
                     {| optText := JNull; optValue := JNull; optSelected := false |} ];
       vCurrent := {| curText := JNull; curValue := JNull |};
       vMulti := false; vRefresh := 0; vRegex := EmptyString; vSort := 0 |} in
  (@getStaticVariableOptions Samples.servicesDatasourceDown variable).1
  = Some [ {| mfText := "Europe"; mfValue := "Europe" |} ]
  ∧ mfValue {| mfText := "Europe"; mfValue := "Europe" |} ≠ EmptyString.
Proof.
  intros variable. split; [reflexivity|].
  apply (@declared_options_are_never_blank Samples.servicesDatasourceDown variable
           {| mfText := "Europe"; mfValue := "Europe" |}).
  left. left. reflexivity.
Defined.

(** *** The search filter *)

Lemma toLowerByte_idempotent (c : ascii) : toLowerByte (toLowerByte c) = toLowerByte c.
Proof.
  unfold toLowerByte.
  destruct ((65 <=? nat_of_ascii c)%nat && (nat_of_ascii c <=? 90)%nat) eqn:Hup;
    [|rewrite Hup; reflexivity].
  apply andb_true_iff in Hup as [Hlo Hhi].
  apply Nat.leb_le in Hlo, Hhi.
  rewrite nat_ascii_embedding by lia.
  assert (Hno : (nat_of_ascii c + 32 <=? 90)%nat = false) by (apply Nat.leb_gt; lia).
  rewrite Hno, andb_false_r. reflexivity.
Qed.

Lemma ToLower_idempotent (s : string) : ToLower (ToLower s) = ToLower s.
Proof.
  induction s as [|c s IH]; [reflexivity|]. simpl.
  rewrite toLowerByte_idempotent, IH. reflexivity.
Qed.

Lemma filterVariableOptions_fold (filter : string) (l : list MetricFindValue)
    (acc : slice MetricFindValue) :
  elems (fold_left
           (λ (filtered : slice MetricFindValue) (opt : MetricFindValue),
              if optionMatches filter opt then append filtered opt else filtered) l acc)
  = (elems acc ++ List.filter (optionMatches filter) l)%list.
Proof.
  revert acc. induction l as [|x l IH]; intros acc; simpl.
  - rewrite app_nil_r. reflexivity.
  - rewrite IH. destruct (optionMatches filter x); [|reflexivity].
    unfold append. cbn [elems]. rewrite <- app_assoc. reflexivity.
Qed.

(** X18. The search filter, on ASCII text: it keeps exactly the options
    whose text or value contains the filter, without regard to the case of
    the letters A to Z, in their order; the case of the filter makes no
    difference; and the result is the nil slice, not the empty one, exactly
    when no option matches. *)
Theorem filter_keeps_matching_options_in_order (options : slice MetricFindValue)
    (filter : string) :
  isASCII filter = true →
  Forall (λ opt, optionASCII opt = true) (elems options) →
  elems (filterVariableOptions options filter)
  = List.filter (optionMatches filter) (elems options)
  ∧ filterVariableOptions options (ToLower filter) = filterVariableOptions options filter
  ∧ (filterVariableOptions options filter = None
     ↔ List.filter (optionMatches filter) (elems options) = []).
Proof.
  intros _ _.
  assert (Helems : elems (filterVariableOptions options filter)
                   = List.filter (optionMatches filter) (elems options)).
  { unfold filterVariableOptions. apply (filterVariableOptions_fold filter _ None). }
  split; [exact Helems|]. split.
  - unfold filterVariableOptions. rewrite ToLower_idempotent. reflexivity.
  - rewrite filterVariableOptions_nil. split.
    + generalize (elems options). intros l Hall.
      induction l as [|x l IH]; [reflexivity|]. simpl.
      rewrite (Hall x (or_introl eq_refl)). apply IH. intros y Hy. apply Hall. right. exact Hy.
    + intros Hnil opt Hin. destruct (optionMatches filter opt) eqn:Hm; [|reflexivity].
      assert (Hin' : In opt (List.filter (optionMatches filter) (elems options)))
        by (apply filter_In; auto).
      rewrite Hnil in Hin'. destruct Hin'.
Qed.

(** The filter SERV keeps server1 of server1 and other. *)
Lemma filter_keeps_matching_options_in_order_witness :
  elems (filterVariableOptions
           (Some [ {| mfText := "server1"; mfValue := "s1" |};
                   {| mfText := "other"; mfValue := "o" |} ]) "SERV")
  = [ {| mfText := "server1"; mfValue := "s1" |} ].
Proof.
  destruct (filter_keeps_matching_options_in_order
              (Some [ {| mfText := "server1"; mfValue := "s1" |};
                      {| mfText := "other"; mfValue := "o" |} ]) "SERV")
    as [Helems _]; [reflexivity|repeat constructor|].
  rewrite Helems. reflexivity.
Defined.

(** *** Options from the response of a datasource *)

Lemma frameOptions_invariant (P : MetricFindValue → Prop) (frame : Frame)
    (options : list MetricFindValue) :
  (∀ text value, text ≠ EmptyString → P {| mfText := text; mfValue := value |}) →
  Forall P options → Forall P (frameOptions frame options).
Proof.
  intros HP Hacc. unfold frameOptions.
  destruct (findFields (Fields frame)) as [[textField|] valueField]; [|exact Hacc].
  generalize 0%nat. revert options Hacc.
  induction (fValues textField) as [|cell cells IH]; intros options Hacc i; [exact Hacc|].
  cbn. destruct (String.eqb_spec (fieldValueToString cell) "") as [He|Hne]; cbn [negb].
  - apply IH, Hacc.
  - apply IH. apply Forall_app. split; [exact Hacc|].
    constructor; [|constructor]. apply HP, Hne.
Qed.

Lemma fold_left_filter {A B} (f : A → B → A) (keep : B → bool) (l : list B) (a : A) :
  (∀ a x, keep x = false → f a x = a) →
  fold_left f (List.filter keep l) a = fold_left f l a.
Proof.
  intros Hskip. revert a. induction l as [|x l IH]; intros a; [reflexivity|]. simpl.
  destruct (keep x) eqn:Hk; simpl; [apply IH|].
  rewrite (Hskip a x Hk). apply IH.
Qed.

Lemma skipn_cons_nth {A} (i : nat) (whole : list A) (x : A) (rest : list A) :
  skipn i whole = x :: rest → nth_error whole i = Some x ∧ skipn (S i) whole = rest.
Proof.
  revert whole. induction i as [|i IH]; intros whole Hs.
  - change (whole = x :: rest) in Hs. rewrite Hs. split; reflexivity.
  - destruct whole as [|y whole]; [discriminate|]. apply (IH _ Hs).
Qed.

Lemma findFields_single (field : Field) : findFields [Some field] = (Some field, Some field).
Proof.
  unfold findFields. cbn [fold_left fst snd].
  destruct (isTextName (ToLower (fName field))), (isValueName (ToLower (fName field)));
    reflexivity.
Qed.

(** X19. Options from the response of a datasource.  Every option
    extracted has a text that is not empty.  A response entry that holds an
    error contributes nothing: the options are those of the response
    without such entries.  And a frame with a single column, whatever its
    name, yields one option for each cell whose text is not empty, in the
    order of the cells, with the text of the cell as text and as value. *)
Theorem options_from_query_response (res : QueryDataResponse) :
  (∀ opt, In opt (elems (extractOptionsFromQueryResponse res).1) →
          mfText opt ≠ EmptyString)
  ∧ extractOptionsFromQueryResponse (withoutErrors res) = extractOptionsFromQueryResponse res
  ∧ (∀ field options,
       frameOptions {| Fields := [Some field] |} options
       = (options ++ omap cellOption (fValues field))%list).
Proof.
  split; [|split].
  - assert (Hall : Forall (λ opt, mfText opt ≠ EmptyString)
                     (elems (extractOptionsFromQueryResponse res).1)).
    { unfold extractOptionsFromQueryResponse. cbn [fst elems].
      apply fold_left_invariant; [constructor|]. intros acc entry Hacc.
      destruct (Error_ entry.2); [exact Hacc|].
      apply fold_left_invariant; [exact Hacc|]. intros acc' frame Hacc'.
      destruct frame as [frame|]; [|exact Hacc'].
      apply frameOptions_invariant; [|exact Hacc']. intros text value Hne. exact Hne. }
    intros opt Hin. rewrite List.Forall_forall in Hall. exact (Hall opt Hin).
  - unfold extractOptionsFromQueryResponse, withoutErrors. cbn [Responses].
    rewrite fold_left_filter; [reflexivity|].
    intros acc entry Hk. destruct (Error_ entry.2); [reflexivity|discriminate].
  - intros field options. unfold frameOptions. cbn [Fields]. rewrite findFields_single.
    assert (Hloop : ∀ cells i options,
      skipn i (fValues field) = cells →
      (fix loop (i : nat) (cells : list FieldValue) (options : list MetricFindValue) :=
         match cells with
         | [] => options
         | cell :: rest =>
             let text := fieldValueToString cell in
             let value :=
               match Some field with
               | Some vf =>
                   match nth_error (fValues vf) i with
                   | Some c => fieldValueToString c
                   | None => text
                   end
               | None => text
               end in
             if negb (String.eqb text "")
             then loop (S i) rest (options ++ [{| mfText := text; mfValue := value |}])%list
             else loop (S i) rest options
         end) i cells options
      = (options ++ omap cellOption cells)%list).
    { induction cells as [|cell rest IH]; intros i acc Hs.
      - cbn. rewrite app_nil_r. reflexivity.
      - destruct (skipn_cons_nth _ _ _ _ Hs) as [Hnth Hrest].
        cbn [omap list_omap]. unfold cellOption at 1. cbv zeta. rewrite Hnth.
        destruct (String.eqb (fieldValueToString cell) ""); cbn [negb].
        + apply IH, Hrest.
        + rewrite (IH _ _ Hrest), <- app_assoc. reflexivity. }
    apply (Hloop (fValues field) 0%nat options). reflexivity.
Qed.

(** *** The request for the options of a query variable *)

(** X20. What is sent to the datasource for a query variable whose query is
    a string.  The text sent is the query, interpolated with the variables
    of the request when the request has any.  When that text is not empty,
    the metric request spans now-1h to now and has one query, with the
    reference id A, the datasource of the variable, the text under query,
    expr and rawSql, and rawQuery set. *)
Theorem variable_query_carries_its_text (variable : variableDefinition)
    (reqDTO : PublicDashboardVariableQueryDTO) (q : string) :
  vQuery variable = JStr q →
  let text :=
    match vqVariables reqDTO with
    | Some variables => interpolateVariables q variables
    | None => q
    end in
  q ≠ EmptyString → text ≠ EmptyString →
  variableMetricRequest variable reqDTO
  = {| mrFrom := "now-1h"; mrTo := "now";
       Queries := [JObj [("refId", JStr "A");
                         ("datasource",
                          match vDatasource variable with Some m => JObj m | None => JNull end);
                         ("query", JStr text); ("expr", JStr text);
                         ("rawQuery", JBool true); ("rawSql", JStr text)]] |}.
Proof.
  intros Hq text Hne Htext. unfold variableMetricRequest. rewrite Hq.
  apply String.eqb_neq in Hne. apply String.eqb_neq in Htext.
  unfold text in *. destruct (vqVariables reqDTO) as [variables|].
  - rewrite Hne. cbn [negb]. rewrite Htext. reflexivity.
  - rewrite Hne. reflexivity.
Qed.

Lemma variable_query_carries_its_text_witness :
  variableMetricRequest Samples.hostVariable
    {| vqVariables := Some [("job", VString "api")]; SearchFilter := EmptyString |}
  = {| mrFrom := "now-1h"; mrTo := "now";
       Queries := [JObj [("refId", JStr "A");
                         ("datasource",
                          JObj [("type", JStr "prometheus"); ("uid", JStr "prom")]);
                         ("query", JStr "label_values(up, instance)");
                         ("expr", JStr "label_values(up, instance)");
                         ("rawQuery", JBool true);
                         ("rawSql", JStr "label_values(up, instance)")]] |}.
Proof.
  apply (variable_query_carries_its_text Samples.hostVariable
           {| vqVariables := Some [("job", VString "api")]; SearchFilter := EmptyString |}
           "label_values(up, instance)"); [reflexivity|discriminate|discriminate].
Defined.

(** ** The walk writes interpolated fields only *)

Module WalkWrites.
Import Store StoreFacts WalkNotions.

Lemma entryKept_refl (kv : string * val) : entryKept kv kv.
Proof. split; [reflexivity|left; reflexivity]. Qed.

Lemma entryKept_trans (a b c : string * val) : entryKept a b → entryKept b c → entryKept a c.
Proof.
  intros [Hk1 H1] [Hk2 H2]. split; [congruence|].
  destruct H1 as [H1|[Hin [Hne [s Hs]]]].
  - rewrite H1. destruct H2 as [H2|[Hin [Hne Hs]]]; [left; exact H2|].
    right. rewrite Hk1. auto.
  - right. split; [exact Hin|]. split; [exact Hne|].
    destruct H2 as [H2|[_ [_ Hs']]]; [exists s; congruence|exact Hs'].
Qed.

Lemma entriesKept_refl (m : list (string * val)) : Forall2 entryKept m m.
Proof. induction m; constructor; [apply entryKept_refl|assumption]. Qed.

Lemma entriesKept_trans (m1 m2 m3 : list (string * val)) :
  Forall2 entryKept m1 m2 → Forall2 entryKept m2 m3 → Forall2 entryKept m1 m3.
Proof.
  intros H12. revert m3. induction H12 as [|a b m1 m2 Hab _ IH]; intros m3 H23.
  - inversion H23; subst. constructor.
  - inversion H23 as [|? c ? m3' Hbc H23']; subst.
    constructor; [eapply entryKept_trans; eassumption|apply IH, H23'].
Qed.

Lemma entriesKept_keys (m m' : list (string * val)) : Forall2 entryKept m m' → m'.*1 = m.*1.
Proof.
  induction 1 as [|a b m m' [Hk _] _ IH]; [reflexivity|].
  rewrite !fmap_cons. f_equal; [symmetry; exact Hk|exact IH].
Qed.

Lemma conservative_refl (h : store) : conservative h h.
Proof.
  intros l. destruct (h !! l) as [[a|m|d]|]; auto.
  exists m. split; [reflexivity|apply entriesKept_refl].
Qed.

Lemma conservative_trans (h1 h2 h3 : store) :
  conservative h1 h2 → conservative h2 h3 → conservative h1 h3.
Proof.
  intros H12 H23 l. specialize (H12 l). specialize (H23 l).
  destruct (h1 !! l) as [[a|m|d]|].
  - rewrite H12 in H23. exact H23.
  - destruct H12 as [m2 [Hm2 Hk2]]. rewrite Hm2 in H23.
    destruct H23 as [m3 [Hm3 Hk3]]. exists m3. split; [exact Hm3|].
    eapply entriesKept_trans; eassumption.
  - rewrite H12 in H23. exact H23.
  - rewrite H12 in H23. exact H23.
Qed.

(** A string written under an interpolated key that held a value. *)
Lemma entriesKept_setKey (key s : string) (v : val) (m : list (string * val)) :
  In key interpolatedKeys → lookupKey key m = Some v → v ≠ RNull →
  Forall2 entryKept m (setKey key (RStr s) m).
Proof.
  intros Hin Hl Hv. induction m as [|[k x] m IH]; simpl in *; [discriminate|].
  destruct (String.eqb_spec k key) as [->|Hne].
  - injection Hl as ->. constructor; [|apply entriesKept_refl].
    split; [reflexivity|]. right. simpl. eauto.
  - constructor; [apply entryKept_refl|apply IH, Hl].
Qed.

Lemma conservative_SetIn (h : store) (j : val) (key s : string) :
  In key interpolatedKeys → GetIn h j key ≠ RNull →
  conservative h (SetIn h j key (RStr s)).
Proof.
  intros Hin Hget. destruct j as [| | | | |l]; simpl; try apply conservative_refl.
  simpl in Hget. destruct (h !! l) as [[| m |]|] eqn:Hl; try apply conservative_refl.
  destruct (lookupKey key m) as [v|] eqn:Hk; [|congruence].
  intros l'. destruct (decide (l' = l)) as [->|Hne].
  - rewrite Hl, lookup_insert_eq. eexists. split; [reflexivity|].
    eapply entriesKept_setKey; eassumption.
  - rewrite lookup_insert_ne by congruence.
    destruct (h !! l') as [[a|m'|d]|]; auto.
    exists m'. split; [reflexivity|apply entriesKept_refl].
Qed.

(** Writing back to an array what was read from it changes nothing. *)
Lemma SetIndex_restores (h h' : store) (j : val) (i : nat) :
  conservative h h' → SetIndex h' j i (arrayAt h j i) = h'.
Proof.
  intros Hb. destruct j as [| | | |l|]; simpl; try reflexivity.
  specialize (Hb l). destruct (h !! l) as [[a|m|d]|].
  - rewrite Hb. destruct (i <? length a)%nat eqn:Hi; [|reflexivity].
    apply Nat.ltb_lt in Hi. destruct (lookup_lt_is_Some_2 a i Hi) as [x Hx].
    rewrite Hx, (list_insert_id a i x Hx). apply insert_id. exact Hb.
  - destruct Hb as [m' [-> _]]. reflexivity.
  - rewrite Hb. reflexivity.
  - rewrite Hb. reflexivity.
Qed.

Lemma mapKeys_conservative (h h' : store) (j : val) :
  conservative h h' → mapKeys h' j = mapKeys h j.
Proof.
  intros Hb. destruct j as [| | | | |l]; simpl; try reflexivity.
  specialize (Hb l). destruct (h !! l) as [[a|m|d]|].
  - rewrite Hb. reflexivity.
  - destruct Hb as [m' [-> Hk]]. apply entriesKept_keys, Hk.
  - rewrite Hb. reflexivity.
  - rewrite Hb. reflexivity.
Qed.

(** Writing back under a key what an object held there: the entry is as it
    was, the others are as they are. *)
Lemma entriesKept_restore (key : string) (v : val) (m m' : list (string * val)) :
  Forall2 entryKept m m' → lookupKey key m = Some v →
  Forall2 entryKept m (setKey key v m').
Proof.
  induction 1 as [|[k x] [k' x'] m m' [Hk Hx] Hrest IH]; simpl; [discriminate|].
  simpl in Hk. subst k'. destruct (String.eqb_spec k key) as [->|Hne].
  - intros [= ->]. constructor; [apply entryKept_refl|exact Hrest].
  - intros Hl. constructor; [split; [reflexivity|exact Hx]|apply IH, Hl].
Qed.

Lemma conservative_restore (h h' : store) (j : val) (key : string) :
  conservative h h' → In key (mapKeys h j) →
  conservative h (SetIn h' j key (GetIn h j key)).
Proof.
  intros Hb Hin. destruct j as [| | | | |l]; simpl; try exact Hb.
  simpl in Hin. pose proof (Hb l) as Hl.
  destruct (h !! l) as [[a|m|d]|] eqn:Hhl; cbn in Hin; try contradiction.
  destruct Hl as [m' [Hm' Hk]]. rewrite Hm'.
  assert (Hsome : ∃ v, lookupKey key m = Some v).
  { clear - Hin. induction m as [|[k x] m IH]; simpl in *; [destruct Hin|].
    destruct (String.eqb_spec k key); [eauto|].
    destruct Hin as [Heq|Hin]; [congruence|auto]. }
  destruct Hsome as [v Hv]. rewrite Hv.
  intros l'. destruct (decide (l' = l)) as [->|Hne].
  - rewrite Hhl, lookup_insert_eq. eexists. split; [reflexivity|].
    eapply entriesKept_restore; eassumption.
  - rewrite lookup_insert_ne by congruence. apply Hb.
Qed.

Section Conservative.
Variable variables : list (string * value).

Lemma interpolateText_conservative (obj : val) (key : string) (h : store) :
  In key interpolatedKeys → conservative h (interpolateText variables obj key h).
Proof.
  intros Hin. unfold interpolateText.
  destruct (GetIn h obj key) eqn:Hg; cbn [isNullVal negb]; try apply conservative_refl;
    apply conservative_SetIn; try exact Hin; rewrite Hg; discriminate.
Qed.

Lemma interpolateStringField_conservative (obj : val) (key : string) (h : store) :
  In key interpolatedKeys → conservative h (interpolateStringField variables obj key h).
Proof.
  intros Hin. unfold interpolateStringField.
  destruct (GetIn h obj key) eqn:Hg; try apply conservative_refl.
  apply conservative_SetIn; [exact Hin|]. rewrite Hg. discriminate.
Qed.

Lemma interpolateFields_conservative (target : val) (fields : list string) (h : store) :
  (∀ f, In f fields → In f interpolatedKeys) →
  conservative h (fold_left (λ h field, interpolateStringField variables target field h) fields h).
Proof.
  revert h. induction fields as [|f fs IH]; intros h Hall; simpl; [apply conservative_refl|].
  eapply conservative_trans.
  - apply interpolateStringField_conservative, Hall. left. reflexivity.
  - apply IH. intros g Hg. apply Hall. right. exact Hg.
Qed.

Lemma uid_interpolated : In "uid" interpolatedKeys.
Proof. right. right. left. reflexivity. Qed.

Lemma interpolateVariablesInTarget_conservative (target : val) (h : store) :
  conservative h (interpolateVariablesInTarget variables target h).
Proof.
  unfold interpolateVariablesInTarget. cbv zeta.
  assert (Hfields : ∀ h, conservative h
            (fold_left (λ h field, interpolateStringField variables target field h)
               queryFields h)).
  { intros h'. apply interpolateFields_conservative. intros f Hf.
    unfold interpolatedKeys. apply in_or_app. right. exact Hf. }
  destruct (negb (isNullVal _)); [|apply Hfields].
  eapply conservative_trans; [apply Hfields|].
  apply interpolateStringField_conservative, uid_interpolated.
Qed.

(** A loop that walks each element of an array and writes it back. *)
Lemma rangeArray_conservative (arr : val) (walk : val → store → store) (h : store) :
  (∀ x h, conservative h (walk x h)) →
  conservative h (rangeArray arr (λ i x h, SetIndex (walk x h) arr i x) h).
Proof.
  intros Hwalk. unfold rangeArray.
  generalize (seq 0 (arrayLen h arr)). intros idx.
  assert (Hgen : ∀ hc, conservative h hc →
    conservative h
      (fold_left (λ h i, SetIndex (walk (arrayAt h arr i) h) arr i (arrayAt h arr i))
         idx hc)); [|apply Hgen, conservative_refl].
  induction idx as [|i idx IH]; intros hc Hc; simpl; [exact Hc|].
  apply IH. rewrite SetIndex_restores by apply Hwalk.
  eapply conservative_trans; [exact Hc|apply Hwalk].
Qed.

(** A loop that walks each member of an object and writes it back. *)
Lemma rangeMap_conservative (obj : val) (walk : val → store → store) (h : store) :
  (∀ x h, conservative h (walk x h)) →
  conservative h (rangeMap obj (λ k x h, SetIn (walk x h) obj k x) h).
Proof.
  intros Hwalk. unfold rangeMap.
  assert (Hgen : ∀ ks hc, (∀ k, In k ks → In k (mapKeys h obj)) → conservative h hc →
    conservative h
      (fold_left (λ h k, SetIn (walk (GetIn h obj k) h) obj k (GetIn h obj k)) ks hc));
    [|apply Hgen; [auto|apply conservative_refl]].
  induction ks as [|k ks IH]; intros hc Hks Hc; simpl; [exact Hc|].
  apply IH; [intros k' Hk'; apply Hks; right; exact Hk'|].
  eapply conservative_trans; [exact Hc|].
  apply conservative_restore; [apply Hwalk|].
  rewrite (mapKeys_conservative h hc obj Hc). apply Hks. left. reflexivity.
Qed.

Lemma interpolateVariablesInPanel_conservative (fuel : nat) (panel : val) (h : store) :
  conservative h (interpolateVariablesInPanel variables fuel panel h).
Proof.
  revert panel h. induction fuel as [|fuel IH]; intros panel h; [apply conservative_refl|].
  simpl.
  set (h1 := interpolateText variables panel "title" h).
  set (h2 := interpolateText variables panel "description" h1).
  set (h3 := if negb (isNullVal (GetIn h2 panel "datasource")) then _ else h2).
  set (h4 := if negb (isNullVal (GetIn h3 panel "targets")) then _ else h3).
  assert (H2 : conservative h h2).
  { eapply conservative_trans; apply interpolateText_conservative.
    - left. reflexivity.
    - right. left. reflexivity. }
  assert (H3 : conservative h h3).
  { eapply conservative_trans; [exact H2|]. subst h3.
    destruct (negb (isNullVal (GetIn h2 panel "datasource")));
      [apply interpolateStringField_conservative, uid_interpolated|apply conservative_refl]. }
  assert (H4 : conservative h h4).
  { eapply conservative_trans; [exact H3|]. subst h4.
    destruct (negb (isNullVal (GetIn h3 panel "targets"))); [|apply conservative_refl].
    apply (rangeArray_conservative _ (interpolateVariablesInTarget variables)).
    intros x hx. apply interpolateVariablesInTarget_conservative. }
  destruct (negb (isNullVal (GetIn h4 panel "panels"))); [|exact H4].
  eapply conservative_trans; [exact H4|].
  apply (rangeArray_conservative _ (interpolateVariablesInPanel variables fuel)).
  intros x hx. apply IH.
Qed.

Lemma interpolateVariablesInElementV2_conservative (element : val) (h : store) :
  conservative h (interpolateVariablesInElementV2 variables element h).
Proof.
  unfold interpolateVariablesInElementV2. cbv zeta.
  destruct (isNullVal (GetIn h element "spec")); [apply conservative_refl|].
  generalize (GetIn h element "spec"). intros spec.
  assert (Htail : ∀ h1,
    conservative h1
      (if negb (isNullVal (GetIn h1 spec "data")) then
         if negb (isNullVal (GetIn h1 (GetIn h1 spec "data") "spec")) then
           if negb (isNullVal (GetIn h1 (GetIn h1 (GetIn h1 spec "data") "spec") "queries"))
           then
             rangeArray (GetIn h1 (GetIn h1 (GetIn h1 spec "data") "spec") "queries")
               (λ i query h,
                  SetIndex (interpolateVariablesInTarget variables query h)
                    (GetIn h1 (GetIn h1 (GetIn h1 spec "data") "spec") "queries") i query) h1
           else h1
         else h1
       else h1)).
  { intros h1.
    destruct (negb (isNullVal (GetIn h1 spec "data"))); [|apply conservative_refl].
    destruct (negb (isNullVal (GetIn h1 (GetIn h1 spec "data") "spec")));
      [|apply conservative_refl].
    destruct (negb (isNullVal _)); [|apply conservative_refl].
    apply (rangeArray_conservative _ (interpolateVariablesInTarget variables)).
    intros x hx. apply interpolateVariablesInTarget_conservative. }
  eapply conservative_trans; [|apply Htail].
  destruct (negb (isNullVal (GetIn h spec "datasource"))); [|apply conservative_refl].
  eapply conservative_trans; apply interpolateStringField_conservative.
  - apply uid_interpolated.
  - right. right. right. left. reflexivity.
Qed.

End Conservative.

End WalkWrites.

Import WalkNotions.

(** X21. Interpolation in place writes interpolated fields only.  Whatever
    the store, the document, the variables and the fuel, the walk of
    [interpolateVariablesInDashboard] changes no array and no dashboard
    struct, adds and removes no cell and no key of an object, and leaves the
    value under every key as it was, except that under title, description,
    uid, name and the query fields of a target a value that was not null may
    have been replaced by a string.  So the ids, the types and the layout of
    the panels are as they were. *)
Theorem interpolation_writes_interpolated_fields_only (variables : list (string * value))
    (fuel : nat) (dashboard : val) (h : store) :
  conservative h (interpolateVariablesInDashboard variables fuel dashboard h).
Proof.
  unfold interpolateVariablesInDashboard. cbv zeta.
  set (h1 := interpolateText variables dashboard "title" h).
  set (h2 := if negb (isNullVal (GetIn h1 dashboard "panels")) then _ else h1).
  assert (H1 : conservative h h1).
  { apply WalkWrites.interpolateText_conservative. left. reflexivity. }
  assert (H2 : conservative h h2).
  { eapply WalkWrites.conservative_trans; [exact H1|]. subst h2.
    destruct (negb (isNullVal (GetIn h1 dashboard "panels")));
      [|apply WalkWrites.conservative_refl].
    apply (WalkWrites.rangeArray_conservative _ (interpolateVariablesInPanel variables fuel)).
    intros x hx. apply WalkWrites.interpolateVariablesInPanel_conservative. }
  destruct (negb (isNullVal (GetIn h2 dashboard "elements"))); [|exact H2].
  eapply WalkWrites.conservative_trans; [exact H2|].
  apply (WalkWrites.rangeMap_conservative _ (interpolateVariablesInElementV2 variables)).
  intros x hx. apply WalkWrites.interpolateVariablesInElementV2_conservative.
Qed.

(** ** The walk over the copy and the walk over the document *)

Module AgreementFacts.
Import Store StoreFacts Agreement Document.

Lemma members_impl (R R' : val → json → gset loc → Prop) vs ts fs :
  members R vs ts fs →
  (∀ v t f, f ⊆ fs → R v t f → R' v t f) →
  members R' vs ts fs.
Proof.
  induction 1 as [|v t f vs ts fs Hv _ IH Hd]; intros Himpl; constructor.
  - apply Himpl; [set_solver|exact Hv].
  - apply IH. intros v' t' f' Hf' Hv'. apply Himpl; [set_solver|exact Hv'].
  - exact Hd.
Qed.

Lemma entries_impl (R R' : val → json → gset loc → Prop) mv m fs :
  entries R mv m fs →
  (∀ v t f, f ⊆ fs → R v t f → R' v t f) →
  entries R' mv m fs.
Proof.
  induction 1 as [|k v t f mv m fs Hv _ IH Hd]; intros Himpl; constructor.
  - apply Himpl; [set_solver|exact Hv].
  - apply IH. intros v' t' f' Hf' Hv'. apply Himpl; [set_solver|exact Hv'].
  - exact Hd.
Qed.

Lemma entries_keys (R : val → json → gset loc → Prop) mv m fs :
  entries R mv m fs → mv.*1 = m.*1.
Proof. induction 1 as [|k v t f mv m fs _ _ IH _]; [reflexivity|]. rewrite !fmap_cons, IH. reflexivity. Qed.

Lemma represents_weaken (n : nat) (h : store) (v : val) (t : json) (fp fp' : gset loc) :
  represents n h v t fp → fp ⊆ fp' → represents n h v t fp'.
Proof.
  destruct v, t; simpl; try tauto; destruct n; try tauto;
    intros (xs & fs & Hl & Hm & Hnot & Hin & Hsub) Hfp; exists xs, fs;
    repeat split; try assumption; set_solver.
Qed.

Lemma represents_frame (n : nat) (h h' : store) (v : val) (t : json) (fp : gset loc) :
  represents n h v t fp → (∀ l, l ∈ fp → h' !! l = h !! l) → represents n h' v t fp.
Proof.
  revert v t fp. induction n as [|n IH]; intros v t fp Hr Hsame;
    destruct v, t; simpl in *; try tauto;
    destruct Hr as (xs & fs & Hl & Hm & Hnot & Hin & Hsub); exists xs, fs;
    (split; [rewrite Hsame by exact Hin; exact Hl|]); (split; [|auto]).
  - eapply members_impl; [exact Hm|]. intros v t f Hf Hv.
    apply (IH _ _ _ Hv). intros l' Hl'. apply Hsame. set_solver.
  - eapply entries_impl; [exact Hm|]. intros v t f Hf Hv.
    apply (IH _ _ _ Hv). intros l' Hl'. apply Hsame. set_solver.
Qed.

Lemma represents_mono (n n' : nat) (h : store) (v : val) (t : json) (fp : gset loc) :
  (n ≤ n')%nat → represents n h v t fp → represents n' h v t fp.
Proof.
  revert n' v t fp. induction n as [|n IH]; intros n' v t fp Hle Hr;
    destruct v, t; simpl in *; try tauto; destruct n' as [|n']; try lia; try tauto;
    destruct Hr as (xs & fs & Hl & Hm & Hrest); exists xs, fs;
    (split; [exact Hl|]); (split; [|exact Hrest]).
  - eapply members_impl; [exact Hm|]. intros v t f _ Hv. apply (IH n'); [lia|exact Hv].
  - eapply entries_impl; [exact Hm|]. intros v t f _ Hv. apply (IH n'); [lia|exact Hv].
Qed.

(** A value that stands for a document encodes to it. *)
Lemma represents_encode (n : nat) (h : store) (v : val) (t : json) (fp : gset loc) :
  represents n h v t fp → encodeWith n h v = Some t.
Proof.
  revert v t fp. induction n as [|n IH]; intros v t fp Hr;
    destruct v, t; simpl in *; try tauto; try congruence;
    destruct Hr as (xs & fs & Hl & Hm & _); rewrite Hl.
  - assert (Hmap : mapM (encodeWith n h) xs = Some a).
    { clear Hl. induction Hm as [|v t f vs ts fs' Hv _ IHm _]; [reflexivity|].
      cbn. rewrite (IH _ _ _ Hv). cbn. rewrite IHm. reflexivity. }
    rewrite Hmap. reflexivity.
  - assert (Hmap : mapM (λ kv : string * val, pair kv.1 <$> encodeWith n h kv.2) xs = Some m).
    { clear Hl. induction Hm as [|k v t f mv m' fs' Hv _ IHm _]; [reflexivity|].
      cbn. rewrite (IH _ _ _ Hv). cbn. rewrite IHm. reflexivity. }
    rewrite Hmap. reflexivity.
Qed.

Lemma represents_null (n : nat) (h : store) (v : val) (t : json) (fp : gset loc) :
  represents n h v t fp → isNullVal v = isNull t ∧ MustStringVal v = MustString t.
Proof. destruct n, v, t; simpl; try tauto; intros Hr; try subst; split; reflexivity. Qed.

Lemma represents_string (n : nat) (h : store) (v : val) (t : json) (fp : gset loc) :
  represents n h v t fp →
  match v, t with
  | RStr s, JStr s' => s = s'
  | RStr _, _ | _, JStr _ => False
  | _, _ => True
  end.
Proof. destruct n, v, t; simpl; tauto. Qed.

(** The member under a key of an object: it stands for the member of the
    document, within a footprint of its own, and a walk that stays within
    that footprint changes that member of the document only. *)
Lemma entries_member (n : nat) (h : store) mv m fs (key : string) :
  entries (represents n h) mv m fs →
  match lookupKey key mv with
  | None => lookupField key m = None
  | Some v =>
      ∃ t f, lookupField key m = Some t ∧ f ⊆ fs ∧ represents n h v t f
             ∧ ∀ h' t', (∀ l, l ∉ f → h' !! l = h !! l) → represents n h' v t' f →
                        entries (represents n h') mv (setField key t' m) fs
  end.
Proof.
  induction 1 as [|k v t f mv m fs Hv Hrest IH Hd]; [reflexivity|]. simpl.
  destruct (String.eqb_spec k key) as [->|Hne].
  - exists t, f. split; [reflexivity|]. split; [set_solver|]. split; [exact Hv|].
    intros h' t' Hsame Hv'. constructor; [exact Hv'| |exact Hd].
    eapply entries_impl; [exact Hrest|]. intros v0 t0 f0 Hf0 Hv0.
    apply (represents_frame _ _ _ _ _ _ Hv0). intros l Hl. apply Hsame. set_solver.
  - destruct (lookupKey key mv) as [x|]; [|exact IH].
    destruct IH as (t0 & f0 & Hl & Hf0 & Hx & Hupd).
    exists t0, f0. split; [exact Hl|]. split; [set_solver|]. split; [exact Hx|].
    intros h' t' Hsame Hx'. constructor; [| |exact Hd].
    + apply (represents_frame _ _ _ _ _ _ Hv). intros l Hl'. apply Hsame. set_solver.
    + apply Hupd; assumption.
Qed.

Lemma represents_str (n : nat) (h : store) (s : string) (fp : gset loc) :
  represents n h (RStr s) (JStr s) fp.
Proof. destruct n; reflexivity. Qed.

(** A string written under a key that is there. *)
Lemma entries_set_string (n : nat) (h h' : store) mv m fs (key s : string) :
  entries (represents n h) mv m fs →
  (∀ l, l ∈ fs → h' !! l = h !! l) →
  is_Some (lookupKey key mv) →
  entries (represents n h') (setKey key (RStr s) mv) (setField key (JStr s) m) fs.
Proof.
  intros Hm Hsame. induction Hm as [|k v t f mv m fs Hv Hrest IH Hd]; simpl.
  - intros [x Hx]. discriminate.
  - destruct (String.eqb_spec k key) as [->|Hne]; intros Hsome.
    + constructor; [apply represents_str| |exact Hd].
      eapply entries_impl; [exact Hrest|]. intros v0 t0 f0 Hf0 Hv0.
      apply (represents_frame _ _ _ _ _ _ Hv0). intros l Hl. apply Hsame. set_solver.
    + constructor; [| |exact Hd].
      * apply (represents_frame _ _ _ _ _ _ Hv). intros l Hl. apply Hsame. set_solver.
      * apply IH; [|exact Hsome]. intros l Hl. apply Hsame. set_solver.
Qed.

Lemma setKey_same (key : string) (v : val) (mv : list (string * val)) :
  lookupKey key mv = Some v → setKey key v mv = mv.
Proof.
  induction mv as [|[k x] mv IH]; simpl; [discriminate|].
  destruct (String.eqb_spec k key) as [->|Hne]; [intros [= ->]; reflexivity|].
  intros Hl. rewrite (IH Hl). reflexivity.
Qed.

Lemma store_same (h h' : store) :
  (∀ l, l ∉ (∅ : gset loc) → h' !! l = h !! l) → h' = h.
Proof. intros Hsame. apply map_eq. intros l. apply Hsame. set_solver. Qed.

(** *** The shapes of the walk agree *)

Lemma agrees_andThen (n : nat) walk1 edit1 walk2 edit2 :
  agrees n walk1 edit1 → agrees n walk2 edit2 →
  agrees n (andThen walk1 walk2) (λ t, edit2 (edit1 t)).
Proof.
  intros H1 H2 h v t fp Hr. unfold andThen.
  destruct (H1 h v t fp Hr) as [Hr1 Hf1].
  destruct (H2 _ v _ fp Hr1) as [Hr2 Hf2].
  split; [exact Hr2|]. intros l Hl. rewrite Hf2, Hf1 by exact Hl. reflexivity.
Qed.

Lemma agrees_scalar (n : nat) (h : store) (v : val) (t : json) (fp : gset loc) :
  match v with RMap _ => False | _ => True end →
  represents n h v t fp → ∀ key, Get t key = JNull.
Proof.
  intros Hv Hr key. destruct n, v, t; simpl in Hr; try tauto; reflexivity.
Qed.

Lemma agrees_onMember (key : string) walk edit :
  (∀ n, agrees n walk edit) → ∀ n, agrees n (onMember key walk) (inMember key edit).
Proof.
  intros Hw n h v t fp Hr. unfold onMember, inMember.
  destruct v as [| | | | |l];
    try solve [rewrite (λ Hv, agrees_scalar n h _ t fp Hv Hr key) by exact I;
               cbn; split; [exact Hr|intros; reflexivity]].
  destruct n as [|n], t as [| | | | |m]; simpl in Hr; try tauto.
  destruct Hr as (mv & fs & Hl & Hm & Hnot & Hin & Hsub).
  pose proof (entries_member n h mv m fs key Hm) as Hmem.
  unfold Get. cbn [GetIn CheckGet]. rewrite Hl.
  destruct (lookupKey key mv) as [x|] eqn:Hx.
  - destruct Hmem as (tx & f & Hlm & Hf & Hrx & Hupd). rewrite Hlm.
    destruct (represents_null _ _ _ _ _ Hrx) as [Hnull _]. rewrite Hnull.
    destruct (isNull tx); cbn [negb].
    + split; [|auto]. simpl. exists mv, fs. auto.
    + destruct (Hw n h x tx f Hrx) as [Hrx' Hframe].
      split; [|intros l' Hl'; apply Hframe; set_solver].
      simpl. exists mv, fs. split; [rewrite Hframe by set_solver; exact Hl|].
      split; [apply Hupd; assumption|auto].
  - rewrite Hmem. simpl. split; [|auto]. exists mv, fs. auto.
Qed.

(** The field of an object and of the document it stands for. *)
Lemma represents_field (n : nat) (h : store) (l : loc) (m : list (string * json))
    (fp : gset loc) (key : string) :
  represents (S n) h (RMap l) (JObj m) fp →
  ∃ mv fs,
    h !! l = Some (CMap mv) ∧ entries (represents n h) mv m fs
    ∧ (l ∉ fs) ∧ l ∈ fp ∧ fs ⊆ fp
    ∧ match lookupKey key mv with
      | None => lookupField key m = None
      | Some v =>
          ∃ t f, lookupField key m = Some t ∧ f ⊆ fs ∧ represents n h v t f
      end.
Proof.
  simpl. intros (mv & fs & Hl & Hm & Hnot & Hin & Hsub). exists mv, fs.
  repeat (split; [assumption|]).
  pose proof (entries_member n h mv m fs key Hm) as Hmem.
  destruct (lookupKey key mv); [|exact Hmem].
  destruct Hmem as (t & f & ? & ? & ? & _). eauto.
Qed.

Section Fields.
Variable variables : list (string * value).

(** A string written by [SetIn] under a key that holds a value. *)
Lemma represents_SetIn (n : nat) (h : store) (l : loc) (m : list (string * json))
    (fp : gset loc) (key s : string) :
  represents n h (RMap l) (JObj m) fp →
  GetIn h (RMap l) key ≠ RNull →
  represents n (SetIn h (RMap l) key (RStr s)) (RMap l) (Set_ (JObj m) key (JStr s)) fp
  ∧ ∀ l', l' ∉ fp → SetIn h (RMap l) key (RStr s) !! l' = h !! l'.
Proof.
  destruct n as [|n]; [simpl; tauto|]. simpl.
  intros (mv & fs & Hl & Hm & Hnot & Hin & Hsub). rewrite Hl. intros Hget. split.
  - exists (setKey key (RStr s) mv), fs. rewrite lookup_insert_eq.
    split; [reflexivity|]. split; [|auto].
    apply (entries_set_string n h); [exact Hm| |].
    + intros l' Hl'. apply lookup_insert_ne. intros <-. contradiction.
    + destruct (lookupKey key mv); [eauto|congruence].
  - intros l' Hl'. apply lookup_insert_ne. intros <-. contradiction.
Qed.

Lemma GetIn_lookup (h : store) (l : loc) (mv : list (string * val)) (key : string) :
  h !! l = Some (CMap mv) →
  GetIn h (RMap l) key = match lookupKey key mv with Some v => v | None => RNull end.
Proof. intros Hl. simpl. rewrite Hl. reflexivity. Qed.

Lemma Get_lookup (m : list (string * json)) (key : string) :
  Get (JObj m) key = match lookupField key m with Some t => t | None => JNull end.
Proof. reflexivity. Qed.

Lemma agrees_interpolateText (key : string) (n : nat) :
  agrees n (λ v h, interpolateText variables v key h) (interpolateTextDoc variables key).
Proof.
  intros h v t fp Hr. unfold interpolateText, interpolateTextDoc.
  destruct v as [| | | | |l];
    try solve [rewrite (λ Hv, agrees_scalar n h _ t fp Hv Hr key) by exact I;
               cbn; split; [exact Hr|intros; reflexivity]].
  destruct n as [|n], t as [| | | | |m]; try (simpl in Hr; tauto).
  destruct (represents_field n h l m fp key Hr) as (mv & fs & Hl & Hm & Hnot & Hin & Hsub & Hk).
  pose proof (GetIn_lookup h l mv key Hl) as Hget. rewrite Get_lookup.
  destruct (lookupKey key mv) as [x|] eqn:Hx.
  - destruct Hk as (tx & f & Hlm & Hf & Hrx). rewrite Hlm.
    destruct (represents_null _ _ _ _ _ Hrx) as [Hnull Hstr].
    rewrite Hget, Hnull, Hstr.
    destruct (isNull tx) eqn:Htx; cbn [negb]; [split; [exact Hr|intros; reflexivity]|].
    apply represents_SetIn; [exact Hr|]. rewrite Hget. intros ->. discriminate.
  - rewrite Hget, Hk. cbn. split; [exact Hr|intros; reflexivity].
Qed.

Lemma agrees_interpolateStringField (key : string) (n : nat) :
  agrees n (λ v h, interpolateStringField variables v key h)
    (interpolateStringFieldDoc variables key).
Proof.
  intros h v t fp Hr. unfold interpolateStringField, interpolateStringFieldDoc.
  destruct v as [| | | | |l];
    try solve [rewrite (λ Hv, agrees_scalar n h _ t fp Hv Hr key) by exact I;
               cbn; split; [exact Hr|intros; reflexivity]].
  destruct n as [|n], t as [| | | | |m]; try (simpl in Hr; tauto).
  destruct (represents_field n h l m fp key Hr) as (mv & fs & Hl & Hm & Hnot & Hin & Hsub & Hk).
  pose proof (GetIn_lookup h l mv key Hl) as Hget. rewrite Get_lookup.
  destruct (lookupKey key mv) as [x|] eqn:Hx.
  - destruct Hk as (tx & f & Hlm & Hf & Hrx). rewrite Hlm.
    pose proof (represents_string _ _ _ _ _ Hrx) as Hkind.
    rewrite Hget.
    destruct x, tx; try contradiction; try (split; [exact Hr|intros; reflexivity]).
    subst. apply represents_SetIn; [exact Hr|]. rewrite Hget. discriminate.
  - rewrite Hget, Hk. split; [exact Hr|intros; reflexivity].
Qed.

Lemma agrees_fields (fields : list string) (n : nat) :
  agrees n
    (λ v h, fold_left (λ h field, interpolateStringField variables v field h) fields h)
    (λ t, fold_left (λ t field, interpolateStringFieldDoc variables field t) fields t).
Proof.
  induction fields as [|f fs IH]; simpl.
  - intros h v t fp Hr. split; [exact Hr|intros; reflexivity].
  - apply (agrees_andThen n (λ v h, interpolateStringField variables v f h)
             (interpolateStringFieldDoc variables f) _ _
             (agrees_interpolateStringField f n) IH).
Qed.

End Fields.

(** *** Loops *)

Lemma SetIndex_same (h : store) (l : loc) (a : list val) (i : nat) (v : val) :
  h !! l = Some (CArr a) → a !! i = Some v → SetIndex h (RArr l) i v = h.
Proof.
  intros Hl Hi. simpl. rewrite Hl.
  destruct (i <? length a)%nat; [|reflexivity].
  rewrite (list_insert_id a i v Hi). apply insert_id. exact Hl.
Qed.

Lemma SetIn_same (h : store) (l : loc) (mv : list (string * val)) (key : string) (v : val) :
  h !! l = Some (CMap mv) → lookupKey key mv = Some v → SetIn h (RMap l) key v = h.
Proof.
  intros Hl Hk. simpl. rewrite Hl, (setKey_same key v mv Hk). apply insert_id. exact Hl.
Qed.

(** The loop over the elements of an array, from the element after [pre]
    on. *)
Lemma members_walk (n : nat) walk edit (l : loc) vs ts fs (h0 : store) :
  agrees n walk edit →
  members (represents n h0) vs ts fs →
  ∀ h pre,
    (∀ l', l' ∈ fs → h !! l' = h0 !! l') →
    h !! l = Some (CArr (pre ++ vs)) → l ∉ fs →
    let h' :=
      fold_left
        (λ h i, SetIndex (walk (arrayAt h (RArr l) i) h) (RArr l) i (arrayAt h (RArr l) i))
        (seq (length pre) (length vs)) h in
    members (represents n h') vs (List.map edit ts) fs
    ∧ h' !! l = Some (CArr (pre ++ vs))
    ∧ ∀ l', l' ∉ fs → h' !! l' = h !! l'.
Proof.
  intros Hw Hm.
  induction Hm as [|v t f vs ts fs Hv0 Hrest IHrest Hd]; intros h pre Hsame Hl Hnot.
  - cbn. split; [constructor|]. split; [exact Hl|reflexivity].
  - cbv zeta in IHrest |- *. cbn [length seq fold_left List.map].
    assert (Hat : arrayAt h (RArr l) (length pre) = v).
    { simpl. rewrite Hl, list_lookup_middle by reflexivity. reflexivity. }
    rewrite Hat.
    assert (Hv : represents n h v t f).
    { apply (represents_frame _ _ _ _ _ _ Hv0). intros l' Hl'. apply Hsame.
      clear -Hl'. set_solver. }
    destruct (Hw h v t f Hv) as [Hv1 Hf1].
    assert (Hl1 : walk v h !! l = Some (CArr (pre ++ v :: vs))).
    { rewrite Hf1 by (clear -Hnot; set_solver). exact Hl. }
    rewrite (SetIndex_same _ l (pre ++ v :: vs) (length pre) v Hl1)
      by (apply list_lookup_middle; reflexivity).
    specialize (IHrest (walk v h) (pre ++ [v])%list).
    rewrite <- app_assoc, length_app in IHrest. cbn [app length] in IHrest.
    rewrite Nat.add_1_r in IHrest.
    assert (Hsame1 : ∀ l', l' ∈ fs → walk v h !! l' = h0 !! l').
    { intros l' Hin. rewrite Hf1 by (clear -Hin Hd; set_solver). apply Hsame.
      clear -Hin. set_solver. }
    assert (Hnot1 : l ∉ fs) by (clear -Hnot; set_solver).
    destruct (IHrest Hsame1 Hl1 Hnot1) as (Hm' & Hl' & Hf').
    split; [|split; [exact Hl'|]].
    + constructor; [|exact Hm'|exact Hd].
      apply (represents_frame _ _ _ _ _ _ Hv1). intros l' Hin. apply Hf'.
      clear -Hin Hd. set_solver.
    + intros l' Hout. rewrite Hf' by (clear -Hout; set_solver). apply Hf1.
      clear -Hout. set_solver.
Qed.

Lemma agrees_onElements walk edit :
  (∀ n, agrees n walk edit) → ∀ n, agrees n (onElements walk) (eachElement edit).
Proof.
  intros Hw n h v t fp Hr. unfold onElements, rangeArray, eachElement.
  destruct n as [|n], v as [| | | |l|], t as [| | | |ts|]; simpl in Hr; try tauto;
    try (cbn; split; [exact Hr|intros; reflexivity]).
  destruct Hr as (vs & fs & Hl & Hm & Hnot & Hin & Hsub).
  assert (Hlen : arrayLen h (RArr l) = length vs) by (simpl; rewrite Hl; reflexivity).
  rewrite Hlen.
  destruct (members_walk n walk edit l vs ts fs h (Hw n) Hm h [] (λ _ _, eq_refl) Hl Hnot)
    as (Hm' & Hl' & Hf').
  cbn [length] in Hm', Hl', Hf'. split.
  - simpl. exists vs, fs. auto.
  - intros l' Hout. apply Hf'. set_solver.
Qed.

Lemma lookupKey_keys (mv : list (string * val)) (k : string) :
  In k mv.*1 → is_Some (lookupKey k mv).
Proof.
  induction mv as [|[k' x] mv IH]; simpl; [tauto|].
  destruct (String.eqb_spec k' k); [eauto|]. intros [Heq|Hin]; [congruence|auto].
Qed.

(** The loop over the members of an object, key by key. *)
Lemma entries_walk (n : nat) walk edit (l : loc) (mv : list (string * val)) (fs : gset loc)
    (ks : list string) :
  agrees n walk edit →
  (∀ k, In k ks → is_Some (lookupKey k mv)) →
  ∀ h m,
    entries (represents n h) mv m fs →
    h !! l = Some (CMap mv) → l ∉ fs →
    let h' :=
      fold_left (λ h k, SetIn (walk (GetIn h (RMap l) k) h) (RMap l) k (GetIn h (RMap l) k))
        ks h in
    ∃ m',
      fold_left (λ t k, Set_ t k (edit (Get t k))) ks (JObj m) = JObj m'
      ∧ entries (represents n h') mv m' fs
      ∧ h' !! l = Some (CMap mv)
      ∧ ∀ l', l' ∉ fs → h' !! l' = h !! l'.
Proof.
  intros Hw. induction ks as [|k ks IH]; intros Hks h m Hm Hl Hnot.
  - cbn. exists m. auto.
  - cbn [fold_left].
    destruct (Hks k (or_introl eq_refl)) as [x Hx].
    pose proof (entries_member n h mv m fs k Hm) as Hmem. rewrite Hx in Hmem.
    destruct Hmem as (tx & f & Hlm & Hf & Hrx & Hupd).
    rewrite (GetIn_lookup h l mv k Hl), Hx, Get_lookup, Hlm.
    destruct (Hw h x tx f Hrx) as [Hx1 Hf1].
    assert (Hl1 : walk x h !! l = Some (CMap mv)).
    { rewrite Hf1 by set_solver. exact Hl. }
    rewrite (SetIn_same _ l mv k x Hl1 Hx).
    destruct (IH (λ k' Hk', Hks k' (or_intror Hk')) (walk x h) (setField k (edit tx) m)
                (Hupd _ _ Hf1 Hx1) Hl1 Hnot) as (m' & Hfold & Hm' & Hl' & Hf').
    exists m'. split; [exact Hfold|]. split; [exact Hm'|]. split; [exact Hl'|].
    intros l' Hout. rewrite Hf' by exact Hout. apply Hf1. set_solver.
Qed.

Lemma agrees_onMembers walk edit :
  (∀ n, agrees n walk edit) → ∀ n, agrees n (onMembers walk) (eachMember edit).
Proof.
  intros Hw n h v t fp Hr. unfold onMembers, rangeMap, eachMember.
  destruct n as [|n], v as [| | | | |l], t as [| | | | |m]; simpl in Hr; try tauto;
    try (cbn; split; [exact Hr|intros; reflexivity]).
  destruct Hr as (mv & fs & Hl & Hm & Hnot & Hin & Hsub).
  assert (Hkeys : mapKeys h (RMap l) = mv.*1) by (simpl; rewrite Hl; reflexivity).
  rewrite Hkeys. cbn [MustMap]. rewrite <- (entries_keys _ _ _ _ Hm).
  destruct (entries_walk n walk edit l mv fs mv.*1 (Hw n) (lookupKey_keys mv) h m Hm Hl Hnot)
    as (m' & Hfold & Hm' & Hl' & Hf').
  rewrite Hfold. split.
  - simpl. exists mv, fs. auto.
  - intros l' Hout. apply Hf'. set_solver.
Qed.

(** *** The walkers *)

Lemma agrees_ext (n : nat) walk walk' edit edit' :
  (∀ v h, walk v h = walk' v h) → (∀ t, edit t = edit' t) →
  agrees n walk' edit' → agrees n walk edit.
Proof.
  intros Hwalk Hedit Ha h v t fp Hr. rewrite Hwalk, Hedit. apply Ha, Hr.
Qed.

Section Walkers.
Variable variables : list (string * value).

Lemma agrees_uid (n : nat) :
  agrees n (onMember "datasource" (λ x h, interpolateStringField variables x "uid" h))
    (inMember "datasource" (interpolateStringFieldDoc variables "uid")).
Proof.
  apply agrees_onMember. intros k. apply (agrees_interpolateStringField variables "uid" k).
Qed.

Lemma agrees_target (n : nat) :
  agrees n (interpolateVariablesInTarget variables)
    (interpolateVariablesInTargetDoc variables).
Proof.
  pose (fields := λ t, fold_left (λ t field, interpolateStringFieldDoc variables field t)
                         queryFields t).
  pose (uid := inMember "datasource" (interpolateStringFieldDoc variables "uid")).
  apply (agrees_ext n _
           (andThen
              (λ v h, fold_left (λ h field, interpolateStringField variables v field h)
                        queryFields h)
              (onMember "datasource" (λ x h, interpolateStringField variables x "uid" h)))
           _ (λ t, uid (fields t)));
    [reflexivity|reflexivity|].
  apply (agrees_andThen n _ fields _ uid);
    [apply (agrees_fields variables queryFields n)|apply agrees_uid].
Qed.

Lemma agrees_targets (key : string) (n : nat) :
  agrees n (onMember key (onElements (interpolateVariablesInTarget variables)))
    (inMember key (eachElement (interpolateVariablesInTargetDoc variables))).
Proof.
  apply agrees_onMember. apply agrees_onElements. intros k. apply agrees_target.
Qed.

Lemma agrees_panel (fuel : nat) :
  ∀ n, agrees n (interpolateVariablesInPanel variables fuel)
         (interpolateVariablesInPanelDoc variables fuel).
Proof.
  induction fuel as [|fuel IH]; intros n.
  - intros h v t fp Hr. split; [exact Hr|reflexivity].
  - pose (title := interpolateTextDoc variables "title").
    pose (description := interpolateTextDoc variables "description").
    pose (uid := inMember "datasource" (interpolateStringFieldDoc variables "uid")).
    pose (targets :=
            inMember "targets" (eachElement (interpolateVariablesInTargetDoc variables))).
    pose (panels :=
            inMember "panels"
              (eachElement (interpolateVariablesInPanelDoc variables fuel))).
    apply (agrees_ext n _
             (andThen (λ v h, interpolateText variables v "title" h)
                (andThen (λ v h, interpolateText variables v "description" h)
                   (andThen
                      (onMember "datasource"
                         (λ x h, interpolateStringField variables x "uid" h))
                      (andThen
                         (onMember "targets"
                            (onElements (interpolateVariablesInTarget variables)))
                         (onMember "panels"
                            (onElements (interpolateVariablesInPanel variables fuel)))))))
             _ (λ t, panels (targets (uid (description (title t))))));
      [reflexivity|reflexivity|].
    apply (agrees_andThen n _ title _ (λ t, panels (targets (uid (description t)))));
      [apply (agrees_interpolateText variables "title" n)|].
    apply (agrees_andThen n _ description _ (λ t, panels (targets (uid t))));
      [apply (agrees_interpolateText variables "description" n)|].
    apply (agrees_andThen n _ uid _ (λ t, panels (targets t))); [apply agrees_uid|].
    apply (agrees_andThen n _ targets _ panels); [apply agrees_targets|].
    apply agrees_onMember. apply agrees_onElements. exact IH.
Qed.

Lemma agrees_element (n : nat) :
  agrees n (interpolateVariablesInElementV2 variables)
    (interpolateVariablesInElementV2Doc variables).
Proof.
  pose (uid := interpolateStringFieldDoc variables "uid").
  pose (name := interpolateStringFieldDoc variables "name").
  pose (datasource := inMember "datasource" (λ datasource, name (uid datasource))).
  pose (data :=
          inMember "data"
            (inMember "spec"
               (inMember "queries"
                  (eachElement (interpolateVariablesInTargetDoc variables))))).
  apply (agrees_ext n _
           (onMember "spec"
              (andThen
                 (onMember "datasource"
                    (andThen (λ x h, interpolateStringField variables x "uid" h)
                       (λ x h, interpolateStringField variables x "name" h)))
                 (onMember "data"
                    (onMember "spec"
                       (onMember "queries"
                          (onElements (interpolateVariablesInTarget variables)))))))
           _ (inMember "spec" (λ spec, data (datasource spec)))).
  - intros v h. unfold interpolateVariablesInElementV2, onMember at 1.
    destruct (isNullVal (GetIn h v "spec")); reflexivity.
  - reflexivity.
  - apply agrees_onMember. intros k. apply (agrees_andThen k _ datasource _ data).
    + apply agrees_onMember. intros k'.
      apply (agrees_andThen k' _ uid _ name);
        [apply (agrees_interpolateStringField variables "uid" k')
        |apply (agrees_interpolateStringField variables "name" k')].
    + apply agrees_onMember. intros k'. apply agrees_onMember. apply agrees_targets.
Qed.

Lemma agrees_dashboard (fuel n : nat) :
  agrees n (interpolateVariablesInDashboard variables fuel)
    (interpolateVariablesInDashboardDoc variables fuel).
Proof.
  pose (title := interpolateTextDoc variables "title").
  pose (panels :=
          inMember "panels" (eachElement (interpolateVariablesInPanelDoc variables fuel))).
  pose (elements :=
          inMember "elements" (eachMember (interpolateVariablesInElementV2Doc variables))).
  apply (agrees_ext n _
           (andThen (λ v h, interpolateText variables v "title" h)
              (andThen
                 (onMember "panels"
                    (onElements (interpolateVariablesInPanel variables fuel)))
                 (onMember "elements"
                    (onMembers (interpolateVariablesInElementV2 variables)))))
           _ (λ t, elements (panels (title t))));
    [reflexivity|reflexivity|].
  apply (agrees_andThen n _ title _ (λ t, elements (panels t)));
    [apply (agrees_interpolateText variables "title" n)|].
  apply (agrees_andThen n _ panels _ elements).
  - apply agrees_onMember. apply agrees_onElements. apply agrees_panel.
  - apply agrees_onMember. apply agrees_onMembers. intros k. apply agrees_element.
Qed.

End Walkers.

(** *** The copy is a tree *)

Lemma within_dom (h h' : store) (l : loc) : within h h' → l ∈ dom h → l ∈ dom h'.
Proof.
  intros Hw Hl. apply elem_of_dom in Hl as [c Hc]. apply elem_of_dom. exists c. auto.
Qed.

Lemma within_same (h h' : store) (l : loc) : within h h' → l ∈ dom h → h' !! l = h !! l.
Proof.
  intros Hw Hl. apply elem_of_dom in Hl as [c Hc]. rewrite Hc. auto.
Qed.

(** What [allocEach] builds: members that stand for the documents, each in
    cells of its own that the store did not have. *)
Lemma allocEach_members {A} (allocOne : A → store → val * store) (tree : A → json)
    (n : nat) (a : list A) :
  Forall (λ x, ∀ h v h', allocOne x h = (v, h') →
                 ∃ fp, represents (depth (tree x)) h' v (tree x) fp
                       ∧ (∀ l, l ∈ fp → (l ∉ dom h) ∧ l ∈ dom h')
                       ∧ within h h') a →
  (list_max (List.map (λ x, depth (tree x)) a) ≤ n)%nat →
  ∀ h vs h', allocEach allocOne a h = (vs, h') →
    ∃ fs, members (represents n h') vs (List.map tree a) fs
          ∧ (∀ l, l ∈ fs → (l ∉ dom h) ∧ l ∈ dom h')
          ∧ within h h'.
Proof.
  induction 1 as [|x a Hx _ IH]; intros Hn h vs h' Halloc; simpl in Halloc.
  - injection Halloc as <- <-. exists ∅. split; [constructor|].
    split; [set_solver|]. intros l c Hl. exact Hl.
  - destruct (allocOne x h) as [v h1] eqn:H1.
    destruct (allocEach allocOne a h1) as [vs' h2] eqn:H2.
    injection Halloc as <- <-.
    simpl in Hn.
    destruct (Hx _ _ _ H1) as (fp & Hv & Hfp & Hw1).
    assert (Hn' : (list_max (List.map (λ x, depth (tree x)) a) ≤ n)%nat) by lia.
    destruct (IH Hn' _ _ _ H2) as (fs & Hvs & Hfs & Hw2).
    exists (fp ∪ fs). split; [|split].
    + cbn [List.map]. constructor; [|exact Hvs|].
      * apply (represents_mono (depth (tree x))); [lia|].
        apply (represents_frame _ _ _ _ _ _ Hv). intros l Hl.
        apply within_same; [exact Hw2|apply Hfp, Hl].
      * intros l Hl1 Hl2. apply (Hfs l Hl2). apply Hfp, Hl1.
    + intros l [Hl|Hl]%elem_of_union.
      * split; [apply Hfp, Hl|]. apply (within_dom h1); [exact Hw2|apply Hfp, Hl].
      * split; [|apply Hfs, Hl]. intros Hin. apply (Hfs l Hl).
        apply (within_dom h); assumption.
    + intros l c Hl. auto.
Qed.

Lemma members_entries (R : val → json → gset loc → Prop) (m : list (string * json)) :
  ∀ vs fs, members R vs (List.map snd m) fs → entries R (zip m.*1 vs) m fs.
Proof.
  induction m as [|[k t] m IH]; intros vs fs Hm; inversion Hm; subst; cbn.
  - constructor.
  - constructor; [assumption|apply IH; assumption|assumption].
Qed.

(** The document [NewJson] builds is a tree of new cells. *)
Lemma NewJson_represents (t : json) :
  ∀ h v h', NewJson t h = (v, h') →
    ∃ fp, represents (depth t) h' v t fp
          ∧ (∀ l, l ∈ fp → (l ∉ dom h) ∧ l ∈ dom h')
          ∧ within h h'.
Proof.
  induction t as [| b | n | s | a IHa | m IHm] using json_nested_ind;
    intros h v h' Halloc; simpl in Halloc;
    try (injection Halloc as <- <-; exists ∅; split; [reflexivity|];
         split; [set_solver|intros l c Hl; exact Hl]).
  - destruct (allocEach NewJson a h) as [vs h1] eqn:H1.
    injection Halloc as <- <-.
    destruct (allocEach_members NewJson (λ x, x) (list_max (List.map depth a)) a IHa
                ltac:(reflexivity) _ _ _ H1) as (fs & Hvs & Hfs & Hw).
    rewrite List.map_id in Hvs.
    pose proof (is_fresh (dom h1)) as Hfresh.
    pose proof (within_alloc h1 (CArr vs)) as Hw1.
    exists ({[fresh (dom h1)]} ∪ fs). split; [|split].
    + cbn [depth represents]. exists vs, fs. rewrite lookup_insert_eq.
      split; [reflexivity|]. split; [|split; [|clear; set_solver]].
      * eapply members_impl; [exact Hvs|]. intros v t f Hf Hv.
        apply (represents_frame _ _ _ _ _ _ Hv). intros l Hl.
        apply within_same; [exact Hw1|]. apply Hfs. clear -Hf Hl. set_solver.
      * intros Hin. apply Hfresh. apply Hfs, Hin.
    + intros l [Hl|Hl]%elem_of_union.
      * apply elem_of_singleton in Hl as ->. split.
        -- intros Hin. apply Hfresh. apply (within_dom h); assumption.
        -- apply elem_of_dom. rewrite lookup_insert_eq. eauto.
      * split; [apply Hfs, Hl|]. apply (within_dom h1); [exact Hw1|apply Hfs, Hl].
    + intros l c Hl. auto.
  - destruct (allocEach (λ kv : string * json, NewJson kv.2) m h) as [vs h1] eqn:H1.
    injection Halloc as <- <-.
    destruct (allocEach_members (λ kv : string * json, NewJson kv.2) snd
                (list_max (List.map (λ kv, depth (snd kv)) m)) m IHm
                ltac:(reflexivity) _ _ _ H1) as (fs & Hvs & Hfs & Hw).
    pose proof (is_fresh (dom h1)) as Hfresh.
    pose proof (within_alloc h1 (CMap (zip m.*1 vs))) as Hw1.
    exists ({[fresh (dom h1)]} ∪ fs). split; [|split].
    + cbn [depth represents]. exists (zip m.*1 vs), fs. rewrite lookup_insert_eq.
      split; [reflexivity|]. split; [|split; [|clear; set_solver]].
      * apply members_entries.
        eapply members_impl; [exact Hvs|]. intros v t f Hf Hv.
        apply (represents_frame _ _ _ _ _ _ Hv). intros l Hl.
        apply within_same; [exact Hw1|]. apply Hfs. clear -Hf Hl. set_solver.
      * intros Hin. apply Hfresh. apply Hfs, Hin.
    + intros l [Hl|Hl]%elem_of_union.
      * apply elem_of_singleton in Hl as ->. split.
        -- intros Hin. apply Hfresh. apply (within_dom h); assumption.
        -- apply elem_of_dom. rewrite lookup_insert_eq. eauto.
      * split; [apply Hfs, Hl|]. apply (within_dom h1); [exact Hw1|apply Hfs, Hl].
    + intros l c Hl. auto.
Qed.

(** The walk over the copy, and the document of the copy after it. *)
Lemma walk_of_the_copy (variables : list (string * value)) (t : json) (h : store) :
  ∀ copiedData h1 (copy : DashboardStruct),
    NewJson t h = (copiedData, h1) →
    let result := fresh (dom h1) in
    let h' :=
      interpolateVariablesInDashboard variables (depth t) copiedData
        (<[result := CDashboard copy]> h1) in
    h' !! result = Some (CDashboard copy)
    ∧ Encode h' copiedData = Some (applyTemplateVariablesDoc variables t).
Proof.
  intros copiedData h1 copy Hnew result h'.
  destruct (NewJson_represents t h copiedData h1 Hnew) as (fp & Hr & Hfp & Hw).
  assert (Hout : result ∉ fp).
  { intros Hin. apply (is_fresh (dom h1)). apply Hfp, Hin. }
  assert (Hr2 : represents (depth t) (<[result := CDashboard copy]> h1) copiedData t fp).
  { apply (represents_frame _ _ _ _ _ _ Hr). intros l Hl.
    apply lookup_insert_ne. intros <-. contradiction. }
  destruct (agrees_dashboard variables (depth t) (depth t) _ _ _ _ Hr2) as [Hr3 Hframe].
  split.
  - unfold h'. rewrite Hframe by exact Hout. apply lookup_insert_eq.
  - apply (Encode_complete (depth t)). apply (represents_encode _ _ _ _ fp). exact Hr3.
Qed.

(** *** The order of the variables

    When every text is interpolated alike under two orders of the
    variables, so is every document. *)

Section Orders.
Variables variables variables' : list (string * value).
Hypothesis same_text :
  ∀ text, interpolateVariables text variables' = interpolateVariables text variables.

Lemma interpolateTextDoc_order (key : string) (obj : json) :
  interpolateTextDoc variables' key obj = interpolateTextDoc variables key obj.
Proof. unfold interpolateTextDoc. rewrite same_text. reflexivity. Qed.

Lemma interpolateStringFieldDoc_order (key : string) (obj : json) :
  interpolateStringFieldDoc variables' key obj = interpolateStringFieldDoc variables key obj.
Proof.
  unfold interpolateStringFieldDoc. destruct (Get obj key); try reflexivity.
  rewrite same_text. reflexivity.
Qed.

Lemma inMember_ext (key : string) (walk walk' : json → json) (obj : json) :
  (∀ x, walk' x = walk x) → inMember key walk' obj = inMember key walk obj.
Proof. intros Hw. unfold inMember. rewrite Hw. reflexivity. Qed.

Lemma eachElement_ext (walk walk' : json → json) (arr : json) :
  (∀ x, walk' x = walk x) → eachElement walk' arr = eachElement walk arr.
Proof.
  intros Hw. destruct arr; try reflexivity. simpl. f_equal.
  apply List.map_ext. exact Hw.
Qed.

Lemma eachMember_ext (walk walk' : json → json) (obj : json) :
  (∀ x, walk' x = walk x) → eachMember walk' obj = eachMember walk obj.
Proof.
  intros Hw. unfold eachMember. apply fold_left_ext_elem. intros o k _.
  rewrite Hw. reflexivity.
Qed.

Lemma interpolateVariablesInTargetDoc_order (target : json) :
  interpolateVariablesInTargetDoc variables' target
  = interpolateVariablesInTargetDoc variables target.
Proof.
  unfold interpolateVariablesInTargetDoc.
  rewrite (fold_left_ext_elem
             (λ target field, interpolateStringFieldDoc variables' field target)
             (λ target field, interpolateStringFieldDoc variables field target))
    by (intros; apply interpolateStringFieldDoc_order).
  apply inMember_ext. intros x. apply interpolateStringFieldDoc_order.
Qed.

Lemma interpolateVariablesInPanelDoc_order (fuel : nat) :
  ∀ panel, interpolateVariablesInPanelDoc variables' fuel panel
           = interpolateVariablesInPanelDoc variables fuel panel.
Proof.
  induction fuel as [|fuel IH]; intros panel; [reflexivity|].
  cbn [interpolateVariablesInPanelDoc]. cbv zeta.
  rewrite !interpolateTextDoc_order.
  rewrite (inMember_ext "datasource" (interpolateStringFieldDoc variables "uid")
             (interpolateStringFieldDoc variables' "uid"))
    by (intros; apply interpolateStringFieldDoc_order).
  rewrite (inMember_ext "targets" (eachElement (interpolateVariablesInTargetDoc variables))
             (eachElement (interpolateVariablesInTargetDoc variables')))
    by (intros; apply eachElement_ext, interpolateVariablesInTargetDoc_order).
  apply inMember_ext. intros x. apply eachElement_ext, IH.
Qed.

Lemma interpolateVariablesInElementV2Doc_order (element : json) :
  interpolateVariablesInElementV2Doc variables' element
  = interpolateVariablesInElementV2Doc variables element.
Proof.
  unfold interpolateVariablesInElementV2Doc. apply inMember_ext. intros spec.
  rewrite (inMember_ext "datasource"
             (λ datasource,
                interpolateStringFieldDoc variables "name"
                  (interpolateStringFieldDoc variables "uid" datasource))
             (λ datasource,
                interpolateStringFieldDoc variables' "name"
                  (interpolateStringFieldDoc variables' "uid" datasource)))
    by (intros; rewrite !interpolateStringFieldDoc_order; reflexivity).
  apply inMember_ext. intros data. apply inMember_ext. intros dataSpec.
  apply inMember_ext. intros queries.
  apply eachElement_ext, interpolateVariablesInTargetDoc_order.
Qed.

Lemma interpolateVariablesInDashboardDoc_order (fuel : nat) (dashboard : json) :
  interpolateVariablesInDashboardDoc variables' fuel dashboard
  = interpolateVariablesInDashboardDoc variables fuel dashboard.
Proof.
  unfold interpolateVariablesInDashboardDoc.
  rewrite interpolateTextDoc_order.
  rewrite (inMember_ext "panels" (eachElement (interpolateVariablesInPanelDoc variables fuel))
             (eachElement (interpolateVariablesInPanelDoc variables' fuel)))
    by (intros; apply eachElement_ext, interpolateVariablesInPanelDoc_order).
  apply inMember_ext. intros x.
  apply eachMember_ext, interpolateVariablesInElementV2Doc_order.
Qed.

End Orders.

(** With at most one value in the map, every order in which its entries
    are ranged over interpolates a text alike. *)
Lemma interpolateVariables_one_value (m : gmap string value) (order : list (string * value))
    (text : string) :
  atMostOneValue m → rangeOrder m order →
  interpolateVariables text order = interpolateVariables text (map_to_list m).
Proof.
  intros Hone Horder.
  rewrite (interpolateVariables_skip_nil text order),
    (interpolateVariables_skip_nil text (map_to_list m)).
  f_equal. apply Permutation_short.
  - apply filter_bool_Permutation. exact Horder.
  - erewrite Permutation_length; [apply (filter_nonnil_short m Hone)|].
    apply filter_bool_Permutation. exact Horder.
Qed.

End AgreementFacts.

(** X22. What [applyTemplateVariables] returns, for a dashboard whose
    document encodes to a text the decoder accepts, and for a variable map
    in which at most one variable has a value, so that the order in which a
    call ranges over the map plays no part.  Whatever that order, the
    result is a dashboard struct with the identity fields of the one given,
    and its document encodes, after the call, to the document encoded
    before the call with the interpolation done on it as on a tree: the
    title of the dashboard, then the panels (title, description, uid of the
    datasource, the query fields and the uid of the datasource of each
    target, the nested panels), then the elements. *)
Theorem copy_is_the_interpolated_document `{Collaborators} (m : gmap string value)
    (order : list (string * value))
    (h : Store.store) (dashboard : Store.loc) (d : Store.DashboardStruct) (t : json) :
  h !! dashboard = Some (Store.CDashboard d) →
  Store.Encode h (Store.dData d) = Some t →
  Decodes t = true →
  atMostOneValue m →
  rangeOrder m order →
  ∃ result h' copiedData,
    Store.applyTemplateVariables order h dashboard = Some (result, h')
    ∧ h' !! result
      = Some (Store.CDashboard
                {| Store.dID := Store.dID d; Store.dUID := Store.dUID d;
                   Store.dTitle := Store.dTitle d; Store.dData := copiedData;
                   Store.dOrgID := Store.dOrgID d |})
    ∧ Store.Encode h' copiedData
      = Some (Document.interpolateVariablesInDashboardDoc (map_to_list m) (depth t) t).
Proof.
  intros Hd Henc Hdec Hone Horder.
  unfold Store.applyTemplateVariables, Store.copyDashboard.
  rewrite Hd, Henc, Hdec. cbn [negb].
  destruct (Store.NewJson t h) as [copiedData h1] eqn:Hnew.
  eexists _, _, copiedData. split; [reflexivity|].
  rewrite <- (AgreementFacts.interpolateVariablesInDashboardDoc_order (map_to_list m) order)
    by (intros text; apply AgreementFacts.interpolateVariables_one_value; assumption).
  apply (AgreementFacts.walk_of_the_copy order t h copiedData h1 _ Hnew).
Qed.

(** The sample store and the map with env = prod alone: the copy of the
    sample dashboard holds the interpolated document. *)
Lemma copy_is_the_interpolated_document_witness :
  Samples.sampleStore !! 9%positive = Some (Store.CDashboard Samples.sampleDashboardStruct)
  ∧ atMostOneValue MoreSamples.envProd
  ∧ rangeOrder MoreSamples.envProd [("env", VString "prod")]
  ∧ ∃ t,
      Store.Encode Samples.sampleStore (Store.dData Samples.sampleDashboardStruct) = Some t
      ∧ @Decodes sampleCollaborators t = true
      ∧ ∃ result h' copiedData,
          @Store.applyTemplateVariables sampleCollaborators [("env", VString "prod")]
            Samples.sampleStore 9%positive
          = Some (result, h')
          ∧ Store.Encode h' copiedData
            = Some (Document.interpolateVariablesInDashboardDoc
                      (map_to_list MoreSamples.envProd) (depth t) t).
Proof.
  assert (Hone : atMostOneValue MoreSamples.envProd).
  { assert (Hk : ∀ k v, MoreSamples.envProd !! k = Some v → k = "env").
    { intros k v Hkv. unfold MoreSamples.envProd in Hkv.
      apply lookup_insert_Some in Hkv as [[<- _]|[_ Hkv]]; [reflexivity|].
      rewrite lookup_empty in Hkv. discriminate. }
    intros k1 k2 v1 v2 H1 H2 _ _. rewrite (Hk _ _ H1), (Hk _ _ H2). reflexivity. }
  assert (Horder : rangeOrder MoreSamples.envProd [("env", VString "prod")]).
  { unfold rangeOrder, MoreSamples.envProd.
    rewrite map_to_list_insert by apply lookup_empty.
    rewrite map_to_list_empty. reflexivity. }
  split; [reflexivity|]. split; [exact Hone|]. split; [exact Horder|].
  destruct (Store.Encode Samples.sampleStore (Store.dData Samples.sampleDashboardStruct))
    as [t|] eqn:Henc; [|vm_compute in Henc; discriminate].
  assert (Hdec : @Decodes sampleCollaborators t = true).
  { vm_compute in Henc. injection Henc as <-. vm_compute. reflexivity. }
  exists t. split; [reflexivity|]. split; [exact Hdec|].
  destruct (@copy_is_the_interpolated_document sampleCollaborators MoreSamples.envProd
              [("env", VString "prod")] Samples.sampleStore
              9%positive Samples.sampleDashboardStruct t eq_refl Henc Hdec Hone Horder)
    as (result & h' & copiedData & Happly & _ & Hdoc).
  exists result, h', copiedData. split; [exact Happly|exact Hdoc].
Defined.
